(** * DROID-SLAM distributed training driver ([train.py])

    A shallow embedding of the control logic of [train.py]: the frame graph
    built per batch, the random-restart refinement loop, the gradient and
    optimizer bookkeeping of one outer step, the validation pass with its
    reduction across processes, the data samplers, the set-up that precedes
    the loop (checkpoint, samplers and loaders, optimizer and schedule) and
    the command line; and [show_image].

    Conventions.
    - Python [int]s are [Z]; Python [float]s are exact rationals [Q]
      (comparisons and the field operations are the exact ones, rounding is
      not modelled).
    - The network, the losses, the co-visibility scorer and the random
      generators are collaborators: they are fields of the [Collab]
      interface and every theorem holds for all of them.  Of the library
      constructors the driver calls, the checks they make on their
      arguments are part of the model; failures of the file system, the
      network or the devices are not.
    - [train] runs in a small monad that threads the process state, records
      the calls made to the collaborators in a trace, and may raise. *)

From Stdlib Require Import ZArith QArith List Lia String.

From stdpp Require Import base list gmap strings sorting.

Open Scope Z_scope.

(** ** Python built-ins used by the driver *)

Module Py.

(** [range(n)] *)
Definition range (n : Z) : list Z := Z.of_nat <$> seq 0 (Z.to_nat n).

(** [collections.OrderedDict]: keys in insertion order, [d[k] = v]
    overwrites in place when [k] is present and appends otherwise. *)
Definition OrderedDict (V : Type) : Type := list (Z * V).

Fixpoint od_set {V} (k : Z) (v : V) (d : OrderedDict V) : OrderedDict V :=
  match d with
  | [] => [(k, v)]
  | (k', v') :: d' =>
      if decide (k = k') then (k, v) :: d' else (k', v') :: od_set k v d'
  end.

Fixpoint od_get {V} (k : Z) (d : OrderedDict V) : option V :=
  match d with
  | [] => None
  | (k', v') :: d' => if decide (k = k') then Some v' else od_get k d'
  end.

Definition od_keys {V} (d : OrderedDict V) : list Z := fst <$> d.

End Py.

(** ** Frame graph (lines 122-129 and 192-194) *)

Module FrameGraph.
Import Py.

Definition graph : Type := OrderedDict (list Z).

(** [[j for j in range(N) if i != j and abs(i - j) <= 2]] *)
Definition window_neighbours (N i : Z) : list Z :=
  filter (λ j, i ≠ j ∧ Z.abs (i - j) ≤ 2) (range N).

(** [g = OrderedDict(); for i in range(N): g[i] = [...]] *)
Definition window_graph (N : Z) : graph :=
  foldl (λ g i, od_set i (window_neighbours N i) g) [] (range N).

(** The [else] branch of the training graph choice (lines 126-129). *)
Definition train_window_graph (N : Z) : graph := window_graph N.

(** The validation graph, rebuilt for every validation batch (192-194). *)
Definition val_graph (N : Z) : graph := window_graph N.

End FrameGraph.

(** ** Tensors *)

Module Torch.

(** A float tensor of rank [n] is a list nested [n] deep. *)
Abbreviation T1 := (list Q).
Abbreviation T2 := (list (list Q)).
Abbreviation T3 := (list (list (list Q))).
Abbreviation T4 := (list (list (list (list Q)))).
Abbreviation T5 := (list (list (list (list (list Q))))).

(** [l[start::step]] along one dimension: drop [skip] elements, keep one,
    then keep every [step]-th. *)
Fixpoint every {A} (step skip : nat) (l : list A) : list A :=
  match l with
  | [] => []
  | x :: l' =>
      match skip with
      | O => x :: every step (pred step) l'
      | S s => every step s l'
      end
  end.

Definition slice_from_step {A} (start step : nat) (l : list A) : list A :=
  every step start l.

(** [t[:,:,3::8,3::8]] on a [B x N x H x W] tensor. *)
Definition downsample8 (t : T4) : T4 :=
  fmap (M := list) (fmap (M := list)
    (λ img : T2, slice_from_step 3 8 <$> slice_from_step 3 8 img)) t.

(** [torch.ones_like] on a rank-4 tensor. *)
Definition ones_like (t : T4) : T4 :=
  fmap (M := list) (fmap (M := list) (fmap (M := list)
    (fmap (M := list) (λ _ : Q, 1%Q)))) t.

(** [t / c] on a rank-3 tensor. *)
Definition div_scalar (t : T3) (c : Q) : T3 :=
  fmap (M := list) (fmap (M := list) (fmap (M := list) (λ x : Q, (x / c)%Q))) t.

(** [t[:, i]]: the [i]-th entry of every row; out of range in any row is an
    [IndexError] ([None]). *)
Definition select_dim1 {A} (i : nat) (t : list (list A)) : option (list A) :=
  mapM (λ row : list A, row !! i) t.

(** [t[:, i] = src]: every row must have an index [i]. *)
Definition assign_dim1 {A} (i : nat) (src : list A) (t : list (list A))
  : option (list (list A)) :=
  if decide (Forall (λ row : list A, (i < length row)%nat) t)
  then Some (zip_with (λ row x, <[i := x]> row) t src)
  else None.

(** [t[:, i:] = src] where [src] has one entry per row, broadcast along
    the sliced dimension. *)
Definition assign_from_dim1 {A} (i : nat) (src : list A) (t : list (list A))
  : list (list A) :=
  zip_with (λ row x, take i row ++ ((λ _, x) <$> drop i row)) t src.

(** [t[b, n, c]] and [t[b, n, u, v]]; [None] out of range. *)
Definition at3 (t : T3) (b n c : nat) : option Q :=
  tb ← t !! b; row ← tb !! n; row !! c.

Definition at4 (t : T4) (b n u v : nat) : option Q :=
  tb ← t !! b; img ← tb !! n; row ← img !! u; row !! v.

(** [seq[-1]] *)
Definition last_item {A} (l : list A) : option A := last l.

End Torch.

(** ** Restoring a checkpoint (lines 66-77) *)

Module Checkpoint.

(** A weight tensor: a scalar, or the stack of its slices along dimension
    0. *)
#[warnings="-register-all"] Inductive tensor :=
| Scalar (x : Q)
| Stack (rows : list tensor).

(** A [state_dict]: parameter name to tensor. *)
Abbreviation state_dict := (gmap string tensor).

Inductive load_result (A : Type) :=
| Loaded (a : A)
| KeyError (key : string)
| IndexError (key : string).
Arguments Loaded {A} a.
Arguments KeyError {A} key.
Arguments IndexError {A} key.

Definition and_then {A B} (r : load_result A) (k : A → load_result B)
  : load_result B :=
  match r with
  | Loaded a => k a
  | KeyError key => KeyError key
  | IndexError key => IndexError key
  end.

(** [t[:2]]; a 0-dim tensor cannot be sliced. *)
Definition first_two (t : tensor) : option tensor :=
  match t with
  | Scalar _ => None
  | Stack rows => Some (Stack (take 2 rows))
  end.

(** [state_dict[key] = state_dict[key][:2]] *)
Definition truncate (key : string) (sd : state_dict) : load_result state_dict :=
  match sd !! key with
  | None => KeyError key
  | Some t =>
      match first_two t with
      | None => IndexError key
      | Some t' => Loaded (<[key := t']> sd)
      end
  end.

(** The four entries of the update heads. *)
Definition head_keys : list string :=
  ["module.update.weight.2.weight"; "module.update.weight.2.bias";
   "module.update.delta.2.weight"; "module.update.delta.2.bias"].

(** Lines 72-75 *)
Definition reshape_heads (sd : state_dict) : load_result state_dict :=
  and_then (truncate "module.update.weight.2.weight" sd) (λ sd,
  and_then (truncate "module.update.weight.2.bias" sd) (λ sd,
  and_then (truncate "module.update.delta.2.weight" sd) (λ sd,
  truncate "module.update.delta.2.bias" sd))).

(** Lines 67-77: what [model.load_state_dict] receives; nothing when no
    checkpoint is given. *)
Definition restore (ckpt : option string) (torch_load : string → state_dict)
  : load_result (option state_dict) :=
  match ckpt with
  | None => Loaded None
  | Some path => and_then (reshape_heads (torch_load path)) (λ sd, Loaded (Some sd))
  end.

(** A checkpoint with three-row heads and one other entry. *)
Definition demo_rows : list tensor := [Scalar 1; Scalar 2; Scalar 3].

Definition demo_state_dict : state_dict :=
  {[ "module.update.weight.2.weight" := Stack demo_rows;
     "module.update.weight.2.bias" := Stack demo_rows;
     "module.update.delta.2.weight" := Stack demo_rows;
     "module.update.delta.2.bias" := Stack demo_rows;
     "module.fnet.conv1.weight" := Stack demo_rows ]}.

End Checkpoint.

(** ** The training process: configuration, collaborators, state *)

Module Train.
Import Py FrameGraph Torch.

(** A metrics dictionary as the loss functions return it. *)
Abbreviation Metrics := (gmap string Q).

(** The namespace [parse_args] returns, with [world_size] added by the
    main block (lines 277-312). *)
Record Args := {
  name : string;
  ckpt : option string;
  datasets : option (list string);
  datapath : string;
  val_datapath : option string;
  gpus : Z;
  batch : Z;
  iters : Z;
  steps : Z;
  lr : Q;
  clip : Q;
  n_frames : Z;
  w1 : Q;
  w2 : Q;
  w3 : Q;
  fmin : Q;
  fmax : Q;
  noise : bool;
  scale : bool;
  edges : Z;
  restart_prob : Q;
  world_size : Z
}.

(** One batch as a loader yields it: images, poses, disps, intrinsics. *)
Definition Item : Type := T5 * T3 * T4 * T3.

(** What [wandb.log] receives after a training step (lines 240-251). *)
Record TrainLog := {
  log_geo_loss : Q;
  log_res_loss : Q;
  log_flo_loss : Q;
  log_loss : Q;
  log_lr : Q;
  log_rot_error : option Q;
  log_tr_error : option Q;
  log_flo_error : option Q
}.

(** Calls that leave the process, in program order.  Loss calls carry the
    value they returned. *)
Inductive event :=
| EvInitProcessGroup (nprocs rank : Z)
| EvLoadStateDict (sd : Checkpoint.state_dict)
| EvWandbInit
| EvSamplerIter (training : bool) (indices : list nat)
| EvZeroGrad
| EvNpRandom (c : Q)
| EvBuildFrameGraph (num : Z) (g : graph)
| EvRngRandom (r : Q)
| EvModel (training : bool) (Gs : T3) (images : T5) (disp0 : T4)
    (intrinsics0 : T3) (g : graph) (num_steps fixedp : Z)
| EvGeodesicLoss (g : graph) (do_scale : option bool) (out : Q * Metrics)
| EvResidualLoss (out : Q * Metrics)
| EvFlowLoss (g : graph) (out : Q * Metrics)
| EvBackward (loss : Q)
| EvClipGradNorm (max_norm : Q)
| EvOptimizerStep
| EvSchedulerStep
| EvModelEval
| EvModelTrain
| EvBarrier
| EvAllReduceSum (contribution reduced : Q)
| EvWandbLogVal (rot tr f : Q) (step : Z)
| EvWandbLogTrain (entry : TrainLog) (step : Z)
| EvLoggerPush (metrics : Metrics)
| EvSave (step : Z)
| EvWandbFinish
| EvDestroyProcessGroup.

(** The names assigned in every refinement round and read after the loop
    (lines 145-149); unbound until the first round has run. *)
Record RoundVars := {
  geo_loss : Q;
  geo_metrics : Metrics;
  res_loss : Q;
  res_metrics : Metrics;
  flo_loss : Q;
  flo_metrics : Metrics;
  loss : Q
}.

(** Collaborators.  The network's parameters change with every optimizer
    step, so [DroidNet] may depend on everything the process did before:
    it receives the trace so far.  [load_state_dict] tells whether the
    network accepts a state dict (keys and shapes as it expects them). *)
Class Collab := {
  se3_inv : T1 → T1;
  load_state_dict : Checkpoint.state_dict → bool;
  DroidNet : list event → bool → T3 → T5 → T4 → T3 → graph → Z → Z →
             list T3 * list T4 * list T5;
  geodesic_loss : T3 → list T3 → graph → option bool → Q * Metrics;
  residual_loss : list T5 → Q * Metrics;
  flow_loss : T3 → T4 → list T3 → list T4 → T3 → graph → Q * Metrics;
  build_frame_graph : T3 → T4 → T3 → Z → graph;
  default_rng : Z → nat → Q;
  randperm : Z → nat → list nat;
  scheduler_lr : Q → Z → nat → Q
}.

(** What one process sees of its surroundings: the checkpoint files,
    numpy's global generator, the two datasets behind the loaders, and
    what its peers contribute to each all-reduce. *)
Record Env := {
  torch_load : string → Checkpoint.state_dict;
  np_random_rand : nat → Q;
  db_len : nat;
  val_db_len : nat;
  train_item : nat → list nat → Item;
  val_item : nat → list nat → Item;
  all_reduce_peers : nat → Q
}.

(** Process state. *)
Record world := World {
  trace : list event;
  rng_pos : nat;
  np_pos : nat;
  train_fetched : nat;
  val_fetched : nat;
  reduced : nat;
  sched_steps : nat;
  total_steps : Z;
  round_vars : option RoundVars
}.

Definition world0 : world := World [] 0 0 0 0 0 0 0 None.

Inductive exn :=
| IndexError
| KeyError
| RuntimeError
| UnboundLocalError
| TypeError
| ZeroDivisionError
| ValueError.

Inductive result (A : Type) :=
| Ok (a : A)
| Raise (e : exn)
| Timeout.
Arguments Ok {A} a.
Arguments Raise {A} e.
Arguments Timeout {A}.

(** State, trace and exceptions. *)
Definition M (A : Type) : Type := world → world * result A.

#[global] Instance M_ret : MRet M := λ A a w, (w, Ok a).

#[global] Instance M_bind : MBind M := λ A B f m w,
  match m w with
  | (w', Ok a) => f a w'
  | (w', Raise e) => (w', Raise e)
  | (w', Timeout) => (w', Timeout)
  end.

Definition raise {A} (e : exn) : M A := λ w, (w, Raise e).
Definition timeout {A} : M A := λ w, (w, Timeout).

Definition with_trace (w : world) (tr : list event) : world :=
  World tr (rng_pos w) (np_pos w) (train_fetched w) (val_fetched w)
        (reduced w) (sched_steps w) (total_steps w) (round_vars w).

Definition emit (e : event) : M () :=
  λ w, (with_trace w (trace w ++ [e]), Ok ()).

Definition from_option {A} (e : exn) (o : option A) : M A :=
  match o with Some a => mret a | None => raise e end.

(** *** [torch.utils.data]: sampler and loader *)

(** [DistributedSampler] with [drop_last=False].  [epoch] is written only
    by [set_epoch], which the driver never calls. *)
Record DistributedSampler := {
  ds_len : nat;
  ds_num_replicas : nat;
  ds_rank : nat;
  ds_shuffle : bool;
  ds_seed : Z;
  ds_epoch : Z
}.

Definition ceil_div (a b : nat) : nat := ((a + b - 1) / b)%nat.

Definition ds_num_samples (s : DistributedSampler) : nat :=
  ceil_div (ds_len s) (ds_num_replicas s).

Definition ds_total_size (s : DistributedSampler) : nat :=
  (ds_num_samples s * ds_num_replicas s)%nat.

(** [DistributedSampler.__iter__] *)
Definition ds_iter `{Collab} (s : DistributedSampler) : list nat :=
  let indices :=
    if ds_shuffle s then randperm (ds_seed s + ds_epoch s) (ds_len s)
    else seq 0 (ds_len s) in
  let padding_size := (ds_total_size s - length indices)%nat in
  let indices :=
    if decide (padding_size ≤ length indices)%nat
    then indices ++ take padding_size indices
    else indices ++
         take padding_size
           (concat (replicate (ceil_div padding_size (length indices)) indices)) in
  slice_from_step (ds_rank s) (ds_num_replicas s)
    (take (ds_total_size s) indices).

(** The batch sampler of a [DataLoader]: consecutive groups of
    [batch_size] indices, the last one possibly shorter. *)
Fixpoint chunks_aux {A} (fuel batch_size : nat) (l : list A) : list (list A) :=
  match fuel with
  | O => []
  | S fuel' =>
      match l with
      | [] => []
      | _ => take batch_size l :: chunks_aux fuel' batch_size (drop batch_size l)
      end
  end.

Definition chunks {A} (batch_size : nat) (l : list A) : list (list A) :=
  chunks_aux (length l) batch_size l.

(** *** [train(gpu, args)] *)

Section train.
Context `{C : Collab} (env : Env) (gpu : Z) (args : Args).

(** Line 50: [rng = np.random.default_rng(12345)]. *)
Definition rng_seed : Z := 12345.

(** Line 52 *)
Definition N : Z := n_frames args.

(** Lines 84-87 *)
Definition train_sampler : DistributedSampler :=
  {| ds_len := db_len env;
     ds_num_replicas := Z.to_nat (world_size args);
     ds_rank := Z.to_nat gpu;
     ds_shuffle := true;
     ds_seed := 0;
     ds_epoch := 0 |}.

Definition val_sampler : DistributedSampler :=
  {| ds_len := val_db_len env;
     ds_num_replicas := Z.to_nat (world_size args);
     ds_rank := Z.to_nat gpu;
     ds_shuffle := false;
     ds_seed := 0;
     ds_epoch := 0 |}.

(** [rng.random()] *)
Definition rng_random : M Q := λ w,
  let r := default_rng rng_seed (rng_pos w) in
  (World (trace w ++ [EvRngRandom r]) (S (rng_pos w)) (np_pos w)
         (train_fetched w) (val_fetched w) (reduced w) (sched_steps w)
         (total_steps w) (round_vars w),
   Ok r).

(** [np.random.rand()] *)
Definition np_random : M Q := λ w,
  let c := np_random_rand env (np_pos w) in
  (World (trace w ++ [EvNpRandom c]) (rng_pos w) (S (np_pos w))
         (train_fetched w) (val_fetched w) (reduced w) (sched_steps w)
         (total_steps w) (round_vars w),
   Ok c).

(** The next batch of [train_loader] / [val_loader]. *)
Definition fetch_train (indices : list nat) : M Item := λ w,
  (World (trace w) (rng_pos w) (np_pos w) (S (train_fetched w))
         (val_fetched w) (reduced w) (sched_steps w) (total_steps w)
         (round_vars w),
   Ok (train_item env (train_fetched w) indices)).

Definition fetch_val (indices : list nat) : M Item := λ w,
  (World (trace w) (rng_pos w) (np_pos w) (train_fetched w)
         (S (val_fetched w)) (reduced w) (sched_steps w) (total_steps w)
         (round_vars w),
   Ok (val_item env (val_fetched w) indices)).

(** [dist.all_reduce(t, dist.ReduceOp.SUM)]: the tensor becomes the sum of
    all processes' tensors. *)
Definition all_reduce_sum (t : Q) : M Q := λ w,
  let sum := (t + all_reduce_peers env (reduced w))%Q in
  (World (trace w ++ [EvAllReduceSum t sum]) (rng_pos w) (np_pos w)
         (train_fetched w) (val_fetched w) (S (reduced w)) (sched_steps w)
         (total_steps w) (round_vars w),
   Ok sum).

(** [scheduler.step()] *)
Definition scheduler_step : M () := λ w,
  (World (trace w ++ [EvSchedulerStep]) (rng_pos w) (np_pos w)
         (train_fetched w) (val_fetched w) (reduced w) (S (sched_steps w))
         (total_steps w) (round_vars w),
   Ok ()).

Definition set_round_vars (rv : RoundVars) : M () := λ w,
  (World (trace w) (rng_pos w) (np_pos w) (train_fetched w) (val_fetched w)
         (reduced w) (sched_steps w) (total_steps w) (Some rv),
   Ok ()).

Definition read_round_vars : M RoundVars := λ w,
  match round_vars w with
  | Some rv => (w, Ok rv)
  | None => (w, Raise UnboundLocalError)
  end.

Definition get_total_steps : M Z := λ w, (w, Ok (total_steps w)).

(** [total_steps += 1] *)
Definition incr_total_steps : M () := λ w,
  (World (trace w) (rng_pos w) (np_pos w) (train_fetched w) (val_fetched w)
         (reduced w) (sched_steps w) (total_steps w + 1) (round_vars w),
   Ok ()).

Definition get_lr : M Q := λ w,
  (w, Ok (scheduler_lr (lr args) (steps args) (sched_steps w))).

(** Calls to the collaborators. *)
Definition call_model (training : bool) (Gs : T3) (images : T5) (disp0 : T4)
    (intrinsics0 : T3) (g : graph) (num_steps fixedp : Z)
  : M (list T3 * list T4 * list T5) := λ w,
  (with_trace w (trace w ++
     [EvModel training Gs images disp0 intrinsics0 g num_steps fixedp]),
   Ok (DroidNet (trace w) training Gs images disp0 intrinsics0 g num_steps fixedp)).

Definition call_geodesic_loss (Ps : T3) (poses_est : list T3) (g : graph)
    (do_scale : option bool) : M (Q * Metrics) :=
  let out := geodesic_loss Ps poses_est g do_scale in
  emit (EvGeodesicLoss g do_scale out);; mret out.

Definition call_residual_loss (residuals : list T5) : M (Q * Metrics) :=
  let out := residual_loss residuals in
  emit (EvResidualLoss out);; mret out.

Definition call_flow_loss (Ps : T3) (disps : T4) (poses_est : list T3)
    (disps_est : list T4) (intrinsics : T3) (g : graph) : M (Q * Metrics) :=
  let out := flow_loss Ps disps poses_est disps_est intrinsics g in
  emit (EvFlowLoss g out);; mret out.

(** Line 119 / 184: [Ps = SE3(poses).inv()] *)
Definition SE3_inv (poses : T3) : T3 :=
  fmap (M := list) (fmap (M := list) se3_inv) poses.

(** Line 120 / 185: [Gs = SE3.IdentityLike(Ps)]; the identity is a zero
    translation with the unit quaternion. *)
Definition se3_identity : T1 := [0; 0; 0; 0; 0; 0; 1]%Q.

Definition IdentityLike (Ps : T3) : T3 :=
  fmap (M := list) (fmap (M := list) (λ _ : T1, se3_identity)) Ps.

(** Lines 132-133 / 188-189:
    [Gs.data[:,0] = Ps.data[:,0].clone()]
    [Gs.data[:,1:] = Ps.data[:,[1]].clone()] *)
Definition fix_first_poses (Ps Gs : T3) : M T3 :=
  p0 ← from_option IndexError (select_dim1 0 Ps);
  Gs ← from_option IndexError (assign_dim1 0 p0 Gs);
  p1 ← from_option IndexError (select_dim1 1 Ps);
  mret (assign_from_dim1 1 p1 Gs).

(** Line 134 / 190: [disp0 = torch.ones_like(disps[:,:,3::8,3::8])] *)
Definition initial_disp (disps : T4) : T4 := ones_like (downsample8 disps).

(** Lines 122-129: the frame graph of a training batch. *)
Definition choose_graph (poses : T3) (disps : T4) (intrinsics : T3) : M graph :=
  c ← np_random;
  if Qlt_le_dec c (1 # 2) then
    let g := build_frame_graph poses disps intrinsics (edges args) in
    emit (EvBuildFrameGraph (edges args) g);; mret g
  else
    mret (train_window_graph N).

(** Lines 139-153: the body of the restart loop.  Returns the new [r],
    [Gs] and [disp0]. *)
Definition refinement_round (item : Item) (Ps : T3) (g : graph)
    (Gs : T3) (disp0 : T4) : M (Q * T3 * T4) :=
  let '(images, poses, disps, intrinsics) := item in
  r ← rng_random;
  let intrinsics0 := div_scalar intrinsics 8 in
  out ← call_model true Gs images disp0 intrinsics0 g (iters args) 2;
  let '(poses_est, disps_est, residuals) := out in
  geo ← call_geodesic_loss Ps poses_est g (Some false);
  res ← call_residual_loss residuals;
  flo ← call_flow_loss Ps disps poses_est disps_est intrinsics g;
  let loss := (w1 args * geo.1 + w2 args * res.1 + w3 args * flo.1)%Q in
  set_round_vars
    {| geo_loss := geo.1; geo_metrics := geo.2;
       res_loss := res.1; res_metrics := res.2;
       flo_loss := flo.1; flo_metrics := flo.2;
       loss := loss |};;
  emit (EvBackward loss);;
  Gs' ← from_option IndexError (last_item poses_est);
  d ← from_option IndexError (last_item disps_est);
  mret (r, Gs', downsample8 d).

(** Lines 137-153: [r = 0; while r < args.restart_prob: ...] *)
Fixpoint restart_loop (fuel : nat) (item : Item) (Ps : T3) (g : graph)
    (r : Q) (Gs : T3) (disp0 : T4) : M () :=
  if Qlt_le_dec r (restart_prob args) then
    match fuel with
    | O => timeout
    | S fuel' =>
        st ← refinement_round item Ps g Gs disp0;
        restart_loop fuel' item Ps g st.1.1 st.1.2 st.2
    end
  else mret ().

(** *** Validation (lines 172-235) *)

(** The names the validation loop assigns: the three float accumulators,
    the loop index, and the tensors built from the accumulators at the end
    of every iteration (lines 206-209). *)
Record ValLocals := {
  val_rot_error : Q;
  val_tr_error : Q;
  val_f_error : Q;
  v_batch : option Z;
  tensor_val_errs : option (Q * Q * Q)
}.

(** [acc += d.get(key)]: adding [None] to a float is a [TypeError]. *)
Definition add_metric (acc : Q) (m : Metrics) (key : string) : M Q :=
  x ← from_option TypeError (m !! key);
  mret (acc + x)%Q.

(** [x /= n] on a float: a zero divisor is a [ZeroDivisionError]. *)
Definition float_div (x : Q) (n : Z) : M Q :=
  if decide (n = 0) then raise ZeroDivisionError
  else mret (x / inject_Z n)%Q.

(** Lines 181-209: one validation batch.  [g] is the driver's variable
    [graph], as the training part of the step left it. *)
Definition val_batch (g : graph) (item : Item) (acc : ValLocals)
  : M ValLocals :=
  let '(images, poses, disps, intrinsics) := item in
  let Ps := SE3_inv poses in
  let Gs := IdentityLike Ps in
  Gs ← fix_first_poses Ps Gs;
  let disp0 := initial_disp disps in
  let val_graph := val_graph N in
  out ← call_model false Gs images disp0 (div_scalar intrinsics 8) val_graph
          (iters args) 2;
  let '(poses_est, disps_est, residuals) := out in
  geo ← call_geodesic_loss Ps poses_est g None;
  flo ← call_flow_loss Ps disps poses_est disps_est intrinsics val_graph;
  rot ← add_metric (val_rot_error acc) geo.2 "rot_error";
  tr ← add_metric (val_tr_error acc) geo.2 "tr_error";
  f ← add_metric (val_f_error acc) flo.2 "f_error";
  mret {| val_rot_error := rot; val_tr_error := tr; val_f_error := f;
          v_batch := v_batch acc;
          tensor_val_errs := Some (rot, tr, f) |}.

(** Lines 178-180: [for v_batch, val_item in enumerate(val_loader)] with
    the [break] at index 500. *)
Fixpoint val_loop (g : graph) (batches : list (list nat)) (v : Z)
    (acc : ValLocals) : M ValLocals :=
  match batches with
  | [] => mret acc
  | indices :: rest =>
      item ← fetch_val indices;
      let acc := {| val_rot_error := val_rot_error acc;
                    val_tr_error := val_tr_error acc;
                    val_f_error := val_f_error acc;
                    v_batch := Some v;
                    tensor_val_errs := tensor_val_errs acc |} in
      if decide (v = 500) then mret acc
      else acc' ← val_batch g item acc; val_loop g rest (v + 1) acc'
  end.

(** Lines 172-235 *)
Definition validation (g : graph) : M () :=
  emit EvModelEval;;
  let indices := ds_iter val_sampler in
  emit (EvSamplerIter false indices);;
  acc ← val_loop g (chunks 2 indices) 0
          {| val_rot_error := 0; val_tr_error := 0; val_f_error := 0;
             v_batch := None; tensor_val_errs := None |};
  emit EvBarrier;;
  t ← from_option UnboundLocalError (tensor_val_errs acc);
  _ ← all_reduce_sum t.1.1;
  _ ← all_reduce_sum t.1.2;
  _ ← all_reduce_sum t.2;
  vb ← from_option UnboundLocalError (v_batch acc);
  rot ← float_div (val_rot_error acc) (vb * world_size args);
  tr ← float_div (val_tr_error acc) (vb * world_size args);
  f ← float_div (val_f_error acc) (vb * world_size args);
  ts ← get_total_steps;
  (if decide (gpu = 0) then emit (EvWandbLogVal rot tr f ts) else mret ());;
  emit EvModelTrain.

(** *** One outer step (lines 114-266) *)

(** Lines 161-164: [metrics = {}] followed by three [update]s; a later
    update wins on a shared key. *)
Definition merged_metrics (rv : RoundVars) : Metrics :=
  flo_metrics rv ∪ (res_metrics rv ∪ (geo_metrics rv ∪ ∅)).

(** Lines 156-158: clip, optimizer step, scheduler step. *)
Definition optimizer_update : M () :=
  emit (EvClipGradNorm (clip args));;
  emit EvOptimizerStep;;
  scheduler_step.

(** Lines 160-266: metrics of the step, validation, logging, checkpoint,
    and the test that ends training.  [g] is the variable [graph]. *)
Definition after_update (g : graph) : M bool :=
  rv ← read_round_vars;
  let metrics := merged_metrics rv in
  let rot_error := metrics !! "rot_error" in
  let tr_error := metrics !! "tr_error" in
  let f_error := metrics !! "f_error" in
  ts ← get_total_steps;
  (if decide (ts ≠ 0 ∧ ts `mod` 5000 = 0) then validation g else mret ());;
  incr_total_steps;;
  ts ← get_total_steps;
  (if decide (gpu = 0) then
     lr ← get_lr;
     emit (EvWandbLogTrain
             {| log_geo_loss := geo_loss rv; log_res_loss := res_loss rv;
                log_flo_loss := flo_loss rv; log_loss := loss rv;
                log_lr := lr; log_rot_error := rot_error;
                log_tr_error := tr_error; log_flo_error := f_error |} ts);;
     emit (EvLoggerPush metrics)
   else mret ());;
  (if decide (ts `mod` 10000 = 0 ∧ gpu = 0) then emit (EvSave ts) else mret ());;
  mret (bool_decide (steps args ≤ ts)).

(** The body of the [for] loop (lines 114-266); returns whether the loop
    breaks. *)
Definition outer_step (fuel : nat) (item : Item) : M bool :=
  emit EvZeroGrad;;
  let '(images, poses, disps, intrinsics) := item in
  let Ps := SE3_inv poses in
  let Gs := IdentityLike Ps in
  g ← choose_graph poses disps intrinsics;
  Gs ← fix_first_poses Ps Gs;
  let disp0 := initial_disp disps in
  restart_loop fuel item Ps g 0 Gs disp0;;
  optimizer_update;;
  after_update g.

(** *** The loops over the loader (lines 112-266) and [train] itself *)

(** [for i_batch, item in enumerate(train_loader)]; returns
    [should_keep_training]. *)
Fixpoint train_epoch (fuel : nat) (batches : list (list nat)) : M bool :=
  match batches with
  | [] => mret true
  | indices :: rest =>
      item ← fetch_train indices;
      stop ← outer_step fuel item;
      if (stop : bool) then mret false else train_epoch fuel rest
  end.

(** [while should_keep_training]: every pass iterates [train_loader]
    afresh, which asks the sampler for this epoch's indices. *)
Fixpoint train_loop (fuel epochs : nat) : M () :=
  match epochs with
  | O => timeout
  | S epochs' =>
      let indices := ds_iter train_sampler in
      emit (EvSamplerIter true indices);;
      keep ← train_epoch fuel (chunks (Z.to_nat (batch args)) indices);
      if (keep : bool) then train_loop fuel epochs' else mret ()
  end.

(** Lines 67-77: with [--ckpt], the checkpoint is read, its four head
    entries are cut to their first two slices, and the result goes to
    [model.load_state_dict], which raises when the network does not accept
    it. *)
Definition load_checkpoint : M () :=
  match Checkpoint.restore (ckpt args) (torch_load env) with
  | Checkpoint.Loaded None => mret ()
  | Checkpoint.Loaded (Some sd) =>
      emit (EvLoadStateDict sd);;
      if load_state_dict sd then mret () else raise RuntimeError
  | Checkpoint.KeyError _ => raise KeyError
  | Checkpoint.IndexError _ => raise IndexError
  end.

(** Lines 67-105, what comes between joining the group and the loop.  The
    constructors check their arguments: [DistributedSampler] wants a rank
    in [[0, num_replicas)], the [DataLoader] a positive batch size, [Adam]
    a learning rate that is not negative, [OneCycleLR] a positive number
    of steps.  Process 0 then opens the wandb run. *)
Definition setup : M () :=
  load_checkpoint;;
  (if decide (gpu < 0 ∨ world_size args ≤ gpu) then raise ValueError else mret ());;
  (if decide (batch args ≤ 0) then raise ValueError else mret ());;
  (if Qlt_le_dec (lr args) 0 then raise ValueError else mret ());;
  (if decide (steps args ≤ 0) then raise ValueError else mret ());;
  (if decide (gpu = 0) then emit EvWandbInit else mret ()).

(** [train(gpu, args)] *)
Definition train (fuel : nat) : M () :=
  emit (EvInitProcessGroup (world_size args) gpu);;
  setup;;
  train_loop fuel fuel;;
  emit EvWandbFinish;;
  emit EvDestroyProcessGroup.

End train.

End Train.

(** ** The command line (lines 274-316) *)

Module Main.
Import Py Train.

(** A command-line token with what [int()] and [float()] make of it
    ([None]: the conversion raises). *)
Record token := {
  text : string;
  as_int : option Z;
  as_float : option Q
}.

(** The command line: each option string with the tokens that follow it.
    (The [--opt=value] spelling, positional arguments and the separator
    [--] are not part of this model.) *)
Definition argv : Type := list (string * list token).

(** The option strings of the parser; [--help] is the one argparse adds. *)
Definition option_strings : list string :=
  ["--help"; "--name"; "--ckpt"; "--datasets"; "--datapath"; "--val_datapath";
   "--gpus"; "--batch"; "--iters"; "--steps"; "--lr"; "--clip"; "--n_frames";
   "--w1"; "--w2"; "--w3"; "--fmin"; "--fmax"; "--noise"; "--scale"; "--edges";
   "--restart_prob"].

(** argparse takes an option string as it is written, or else as the one
    option string it is a prefix of; a prefix of several is ambiguous. *)
Definition resolve (opt : string) : option string :=
  if existsb (String.eqb opt) option_strings then Some opt
  else match List.filter (String.prefix opt) option_strings with
       | [o] => Some o
       | _ => None
       end.

(** The defaults of the [add_argument] calls. *)
Definition defaults : Args :=
  {| name := "bla"; ckpt := None; datasets := None;
     datapath := "datasets/TartanAir"; val_datapath := None;
     gpus := 4; batch := 1; iters := 15; steps := 250000;
     lr := 25 # 100000; clip := 25 # 10; n_frames := 7;
     w1 := 10; w2 := 0; w3 := 0; fmin := 8; fmax := 96;
     noise := false; scale := false; edges := 24;
     restart_prob := 2 # 10; world_size := 0 |}.

Definition set_name (v : string) (a : Args) : Args :=
  {| name := v; ckpt := ckpt a; datasets := datasets a; 
       datapath := datapath a; val_datapath := val_datapath a; 
       gpus := gpus a; batch := batch a; iters := iters a; 
       steps := steps a; lr := lr a; clip := clip a; 
       n_frames := n_frames a; w1 := w1 a; w2 := w2 a; w3 := w3 a; 
       fmin := fmin a; fmax := fmax a; noise := noise a; 
       scale := scale a; edges := edges a; 
       restart_prob := restart_prob a; world_size := world_size a |}.

Definition set_ckpt (v : option string) (a : Args) : Args :=
  {| name := name a; ckpt := v; datasets := datasets a; 
       datapath := datapath a; val_datapath := val_datapath a; 
       gpus := gpus a; batch := batch a; iters := iters a; 
       steps := steps a; lr := lr a; clip := clip a; 
       n_frames := n_frames a; w1 := w1 a; w2 := w2 a; w3 := w3 a; 
       fmin := fmin a; fmax := fmax a; noise := noise a; 
       scale := scale a; edges := edges a; 
       restart_prob := restart_prob a; world_size := world_size a |}.

Definition set_datasets (v : option (list string)) (a : Args) : Args :=
  {| name := name a; ckpt := ckpt a; datasets := v; 
       datapath := datapath a; val_datapath := val_datapath a; 
       gpus := gpus a; batch := batch a; iters := iters a; 
       steps := steps a; lr := lr a; clip := clip a; 
       n_frames := n_frames a; w1 := w1 a; w2 := w2 a; w3 := w3 a; 
       fmin := fmin a; fmax := fmax a; noise := noise a; 
       scale := scale a; edges := edges a; 
       restart_prob := restart_prob a; world_size := world_size a |}.

Definition set_datapath (v : string) (a : Args) : Args :=
  {| name := name a; ckpt := ckpt a; datasets := datasets a; 
       datapath := v; val_datapath := val_datapath a; 
       gpus := gpus a; batch := batch a; iters := iters a; 
       steps := steps a; lr := lr a; clip := clip a; 
       n_frames := n_frames a; w1 := w1 a; w2 := w2 a; w3 := w3 a; 
       fmin := fmin a; fmax := fmax a; noise := noise a; 
       scale := scale a; edges := edges a; 
       restart_prob := restart_prob a; world_size := world_size a |}.

Definition set_val_datapath (v : option string) (a : Args) : Args :=
  {| name := name a; ckpt := ckpt a; datasets := datasets a; 
       datapath := datapath a; val_datapath := v; gpus := gpus a; 
       batch := batch a; iters := iters a; steps := steps a; 
       lr := lr a; clip := clip a; n_frames := n_frames a; 
       w1 := w1 a; w2 := w2 a; w3 := w3 a; fmin := fmin a; 
       fmax := fmax a; noise := noise a; scale := scale a; 
       edges := edges a; restart_prob := restart_prob a; 
       world_size := world_size a |}.

Definition set_gpus (v : Z) (a : Args) : Args :=
  {| name := name a; ckpt := ckpt a; datasets := datasets a; 
       datapath := datapath a; val_datapath := val_datapath a; 
       gpus := v; batch := batch a; iters := iters a; 
       steps := steps a; lr := lr a; clip := clip a; 
       n_frames := n_frames a; w1 := w1 a; w2 := w2 a; w3 := w3 a; 
       fmin := fmin a; fmax := fmax a; noise := noise a; 
       scale := scale a; edges := edges a; 
       restart_prob := restart_prob a; world_size := world_size a |}.

Definition set_batch (v : Z) (a : Args) : Args :=
  {| name := name a; ckpt := ckpt a; datasets := datasets a; 
       datapath := datapath a; val_datapath := val_datapath a; 
       gpus := gpus a; batch := v; iters := iters a; 
       steps := steps a; lr := lr a; clip := clip a; 
       n_frames := n_frames a; w1 := w1 a; w2 := w2 a; w3 := w3 a; 
       fmin := fmin a; fmax := fmax a; noise := noise a; 
       scale := scale a; edges := edges a; 
       restart_prob := restart_prob a; world_size := world_size a |}.

Definition set_iters (v : Z) (a : Args) : Args :=
  {| name := name a; ckpt := ckpt a; datasets := datasets a; 
       datapath := datapath a; val_datapath := val_datapath a; 
       gpus := gpus a; batch := batch a; iters := v; 
       steps := steps a; lr := lr a; clip := clip a; 
       n_frames := n_frames a; w1 := w1 a; w2 := w2 a; w3 := w3 a; 
       fmin := fmin a; fmax := fmax a; noise := noise a; 
       scale := scale a; edges := edges a; 
       restart_prob := restart_prob a; world_size := world_size a |}.

Definition set_steps (v : Z) (a : Args) : Args :=
  {| name := name a; ckpt := ckpt a; datasets := datasets a; 
       datapath := datapath a; val_datapath := val_datapath a; 
       gpus := gpus a; batch := batch a; iters := iters a; 
       steps := v; lr := lr a; clip := clip a; 
       n_frames := n_frames a; w1 := w1 a; w2 := w2 a; w3 := w3 a; 
       fmin := fmin a; fmax := fmax a; noise := noise a; 
       scale := scale a; edges := edges a; 
       restart_prob := restart_prob a; world_size := world_size a |}.

Definition set_lr (v : Q) (a : Args) : Args :=
  {| name := name a; ckpt := ckpt a; datasets := datasets a; 
       datapath := datapath a; val_datapath := val_datapath a; 
       gpus := gpus a; batch := batch a; iters := iters a; 
       steps := steps a; lr := v; clip := clip a; 
       n_frames := n_frames a; w1 := w1 a; w2 := w2 a; w3 := w3 a; 
       fmin := fmin a; fmax := fmax a; noise := noise a; 
       scale := scale a; edges := edges a; 
       restart_prob := restart_prob a; world_size := world_size a |}.

Definition set_clip (v : Q) (a : Args) : Args :=
  {| name := name a; ckpt := ckpt a; datasets := datasets a; 
       datapath := datapath a; val_datapath := val_datapath a; 
       gpus := gpus a; batch := batch a; iters := iters a; 
       steps := steps a; lr := lr a; clip := v; 
       n_frames := n_frames a; w1 := w1 a; w2 := w2 a; w3 := w3 a; 
       fmin := fmin a; fmax := fmax a; noise := noise a; 
       scale := scale a; edges := edges a; 
       restart_prob := restart_prob a; world_size := world_size a |}.

Definition set_n_frames (v : Z) (a : Args) : Args :=
  {| name := name a; ckpt := ckpt a; datasets := datasets a; 
       datapath := datapath a; val_datapath := val_datapath a; 
       gpus := gpus a; batch := batch a; iters := iters a; 
       steps := steps a; lr := lr a; clip := clip a; n_frames := v; 
       w1 := w1 a; w2 := w2 a; w3 := w3 a; fmin := fmin a; 
       fmax := fmax a; noise := noise a; scale := scale a; 
       edges := edges a; restart_prob := restart_prob a; 
       world_size := world_size a |}.

Definition set_w1 (v : Q) (a : Args) : Args :=
  {| name := name a; ckpt := ckpt a; datasets := datasets a; 
       datapath := datapath a; val_datapath := val_datapath a; 
       gpus := gpus a; batch := batch a; iters := iters a; 
       steps := steps a; lr := lr a; clip := clip a; 
       n_frames := n_frames a; w1 := v; w2 := w2 a; w3 := w3 a; 
       fmin := fmin a; fmax := fmax a; noise := noise a; 
       scale := scale a; edges := edges a; 
       restart_prob := restart_prob a; world_size := world_size a |}.

Definition set_w2 (v : Q) (a : Args) : Args :=
  {| name := name a; ckpt := ckpt a; datasets := datasets a; 
       datapath := datapath a; val_datapath := val_datapath a; 
       gpus := gpus a; batch := batch a; iters := iters a; 
       steps := steps a; lr := lr a; clip := clip a; 
       n_frames := n_frames a; w1 := w1 a; w2 := v; w3 := w3 a; 
       fmin := fmin a; fmax := fmax a; noise := noise a; 
       scale := scale a; edges := edges a; 
       restart_prob := restart_prob a; world_size := world_size a |}.

Definition set_w3 (v : Q) (a : Args) : Args :=
  {| name := name a; ckpt := ckpt a; datasets := datasets a; 
       datapath := datapath a; val_datapath := val_datapath a; 
       gpus := gpus a; batch := batch a; iters := iters a; 
       steps := steps a; lr := lr a; clip := clip a; 
       n_frames := n_frames a; w1 := w1 a; w2 := w2 a; w3 := v; 
       fmin := fmin a; fmax := fmax a; noise := noise a; 
       scale := scale a; edges := edges a; 
       restart_prob := restart_prob a; world_size := world_size a |}.

Definition set_fmin (v : Q) (a : Args) : Args :=
  {| name := name a; ckpt := ckpt a; datasets := datasets a; 
       datapath := datapath a; val_datapath := val_datapath a; 
       gpus := gpus a; batch := batch a; iters := iters a; 
       steps := steps a; lr := lr a; clip := clip a; 
       n_frames := n_frames a; w1 := w1 a; w2 := w2 a; w3 := w3 a; 
       fmin := v; fmax := fmax a; noise := noise a; 
       scale := scale a; edges := edges a; 
       restart_prob := restart_prob a; world_size := world_size a |}.

Definition set_fmax (v : Q) (a : Args) : Args :=
  {| name := name a; ckpt := ckpt a; datasets := datasets a; 
       datapath := datapath a; val_datapath := val_datapath a; 
       gpus := gpus a; batch := batch a; iters := iters a; 
       steps := steps a; lr := lr a; clip := clip a; 
       n_frames := n_frames a; w1 := w1 a; w2 := w2 a; w3 := w3 a; 
       fmin := fmin a; fmax := v; noise := noise a; 
       scale := scale a; edges := edges a; 
       restart_prob := restart_prob a; world_size := world_size a |}.

Definition set_noise (v : bool) (a : Args) : Args :=
  {| name := name a; ckpt := ckpt a; datasets := datasets a; 
       datapath := datapath a; val_datapath := val_datapath a; 
       gpus := gpus a; batch := batch a; iters := iters a; 
       steps := steps a; lr := lr a; clip := clip a; 
       n_frames := n_frames a; w1 := w1 a; w2 := w2 a; w3 := w3 a; 
       fmin := fmin a; fmax := fmax a; noise := v; scale := scale a; 
       edges := edges a; restart_prob := restart_prob a; 
       world_size := world_size a |}.

Definition set_scale (v : bool) (a : Args) : Args :=
  {| name := name a; ckpt := ckpt a; datasets := datasets a; 
       datapath := datapath a; val_datapath := val_datapath a; 
       gpus := gpus a; batch := batch a; iters := iters a; 
       steps := steps a; lr := lr a; clip := clip a; 
       n_frames := n_frames a; w1 := w1 a; w2 := w2 a; w3 := w3 a; 
       fmin := fmin a; fmax := fmax a; noise := noise a; scale := v; 
       edges := edges a; restart_prob := restart_prob a; 
       world_size := world_size a |}.

Definition set_edges (v : Z) (a : Args) : Args :=
  {| name := name a; ckpt := ckpt a; datasets := datasets a; 
       datapath := datapath a; val_datapath := val_datapath a; 
       gpus := gpus a; batch := batch a; iters := iters a; 
       steps := steps a; lr := lr a; clip := clip a; 
       n_frames := n_frames a; w1 := w1 a; w2 := w2 a; w3 := w3 a; 
       fmin := fmin a; fmax := fmax a; noise := noise a; 
       scale := scale a; edges := v; restart_prob := restart_prob a; 
       world_size := world_size a |}.

Definition set_restart_prob (v : Q) (a : Args) : Args :=
  {| name := name a; ckpt := ckpt a; datasets := datasets a; 
       datapath := datapath a; val_datapath := val_datapath a; 
       gpus := gpus a; batch := batch a; iters := iters a; 
       steps := steps a; lr := lr a; clip := clip a; 
       n_frames := n_frames a; w1 := w1 a; w2 := w2 a; w3 := w3 a; 
       fmin := fmin a; fmax := fmax a; noise := noise a; 
       scale := scale a; edges := edges a; restart_prob := v; 
       world_size := world_size a |}.

Definition set_world_size (v : Z) (a : Args) : Args :=
  {| name := name a; ckpt := ckpt a; datasets := datasets a; 
       datapath := datapath a; val_datapath := val_datapath a; 
       gpus := gpus a; batch := batch a; iters := iters a; 
       steps := steps a; lr := lr a; clip := clip a; 
       n_frames := n_frames a; w1 := w1 a; w2 := w2 a; w3 := w3 a; 
       fmin := fmin a; fmax := fmax a; noise := noise a; 
       scale := scale a; edges := edges a; 
       restart_prob := restart_prob a; world_size := v |}.

(** One option, by its full option string: the conversion named by
    [type=], a single value unless [nargs] or [action] says otherwise.
    [--help] prints the help and exits. *)
Definition parse_full_option (opt : string) (toks : list token) (a : Args)
  : option Args :=
  if decide (opt = "--name") then
    match toks with [t] => Some (set_name (text t) a) | _ => None end
  else if decide (opt = "--ckpt") then
    match toks with [t] => Some (set_ckpt (Some (text t)) a) | _ => None end
  else if decide (opt = "--datasets") then
    match toks with [] => None | _ => Some (set_datasets (Some (text <$> toks)) a) end
  else if decide (opt = "--datapath") then
    match toks with [t] => Some (set_datapath (text t) a) | _ => None end
  else if decide (opt = "--val_datapath") then
    match toks with [t] => Some (set_val_datapath (Some (text t)) a) | _ => None end
  else if decide (opt = "--gpus") then
    match toks with [t] => (λ v, set_gpus v a) <$> as_int t | _ => None end
  else if decide (opt = "--batch") then
    match toks with [t] => (λ v, set_batch v a) <$> as_int t | _ => None end
  else if decide (opt = "--iters") then
    match toks with [t] => (λ v, set_iters v a) <$> as_int t | _ => None end
  else if decide (opt = "--steps") then
    match toks with [t] => (λ v, set_steps v a) <$> as_int t | _ => None end
  else if decide (opt = "--lr") then
    match toks with [t] => (λ v, set_lr v a) <$> as_float t | _ => None end
  else if decide (opt = "--clip") then
    match toks with [t] => (λ v, set_clip v a) <$> as_float t | _ => None end
  else if decide (opt = "--n_frames") then
    match toks with [t] => (λ v, set_n_frames v a) <$> as_int t | _ => None end
  else if decide (opt = "--w1") then
    match toks with [t] => (λ v, set_w1 v a) <$> as_float t | _ => None end
  else if decide (opt = "--w2") then
    match toks with [t] => (λ v, set_w2 v a) <$> as_float t | _ => None end
  else if decide (opt = "--w3") then
    match toks with [t] => (λ v, set_w3 v a) <$> as_float t | _ => None end
  else if decide (opt = "--fmin") then
    match toks with [t] => (λ v, set_fmin v a) <$> as_float t | _ => None end
  else if decide (opt = "--fmax") then
    match toks with [t] => (λ v, set_fmax v a) <$> as_float t | _ => None end
  else if decide (opt = "--noise") then
    match toks with [] => Some (set_noise true a) | _ => None end
  else if decide (opt = "--scale") then
    match toks with [] => Some (set_scale true a) | _ => None end
  else if decide (opt = "--edges") then
    match toks with [t] => (λ v, set_edges v a) <$> as_int t | _ => None end
  else if decide (opt = "--restart_prob") then
    match toks with [t] => (λ v, set_restart_prob v a) <$> as_float t | _ => None end
  else None.

Definition parse_option (opt : string) (toks : list token) (a : Args)
  : option Args :=
  match resolve opt with
  | Some o => parse_full_option o toks a
  | None => None
  end.

(** [parser.parse_args()]: [None] when argparse exits (a usage error, or
    [--help]). *)
Fixpoint parse_from (a : Args) (l : argv) : option Args :=
  match l with
  | [] => Some a
  | (opt, toks) :: rest =>
      match parse_option opt toks a with
      | Some a' => parse_from a' rest
      | None => None
      end
  end.

Definition parse_args (l : argv) : option Args := parse_from defaults l.

Inductive outcome :=
| UsageError
| Spawned (procs : list (Z * Args)).

(** The main block: parse, set [world_size], spawn [train(i, args)] for
    [i] in [range(args.gpus)]. *)
Definition main (l : argv) : outcome :=
  match parse_args l with
  | None => UsageError
  | Some a =>
      let args := set_world_size (gpus a) a in
      Spawned ((λ i, (i, args)) <$> range (gpus args))
  end.

End Main.

(** ** A small concrete instance

    Used to run the driver: four frames per batch, a network that returns
    its input poses and a depth map that tells how long the trace was when
    it was called, losses that read their values off the graph, the first
    ground-truth pose and the depth map, a restart stream that repeats five draws, and a permutation
    that depends on its seed. *)

Module Demo.
Import Py FrameGraph Torch Train.

Definition draws : list Q := [1 # 10; 3 # 20; 7 # 10; 1 # 20; 9 # 10]%Q.

Definition depth_map (v : Q) : T4 := [[replicate 16 (replicate 16 v)]].

Definition first_depth (de : list T4) : Q :=
  match de with
  | [[(x :: _) :: _]] :: _ => x
  | _ => 0%Q
  end.

Definition first_coordinate (Ps : T3) : Q :=
  match Ps with
  | ((x :: _) :: _) :: _ => x
  | _ => 0%Q
  end.

#[export] Instance collab : Collab := {|
  se3_inv := λ p, p;
  load_state_dict := λ sd, true;
  DroidNet := λ tr training Gs images disp0 intrinsics0 g num_steps fixedp,
    ([Gs], [depth_map (inject_Z (Z.of_nat (length tr)))], []);
  geodesic_loss := λ Ps poses_est g do_scale,
    let v := first_coordinate Ps in
    (inject_Z (Z.of_nat (length g)), {[ "rot_error" := v; "tr_error" := (v + 1)%Q ]});
  residual_loss := λ residuals, (0%Q, {[ "residual" := 0%Q ]});
  flow_loss := λ Ps disps poses_est disps_est intrinsics g,
    let v := first_depth disps_est in (v, {[ "f_error" := v ]});
  build_frame_graph := λ poses disps intrinsics num,
    od_set 0 [1; 2; 3] (window_graph 4);
  default_rng := λ seed pos, nth (pos mod 5)%nat draws 0%Q;
  randperm := λ seed n, rotate (Z.to_nat seed) (seq 0 n);
  scheduler_lr := λ lr total n, lr
|}.

Definition pose (k : Z) : T1 := [inject_Z k; 0; 0; 0; 0; 0; 1]%Q.

(** A batch of one sample with four frames of 16 x 16 pixels. *)
Definition images : T5 := [].
Definition poses (k : Z) : T3 := [[pose k; pose (k + 1); pose (k + 2); pose (k + 3)]].
Definition disps : T4 := depth_map (1 # 2).
Definition intrinsics : T3 := [[[320; 320; 320; 240]%Q]].

Definition item (k : Z) : Item := (images, poses k, disps, intrinsics).

Definition env : Env := {|
  torch_load := λ path, Checkpoint.demo_state_dict;
  np_random_rand := λ n, if Nat.even n then (3 # 4)%Q else (1 # 4)%Q;
  db_len := 4;
  val_db_len := 12;
  train_item := λ n indices, item (Z.of_nat n);
  val_item := λ n indices, item (1 + Z.of_nat n);
  all_reduce_peers := λ n, 0%Q
|}.

Definition args : Args :=
  Main.set_world_size 2 (Main.set_steps 3 (Main.set_n_frames 4 Main.defaults)).

(** What process 1 sees: other coin flips, other data. *)
Definition env1 : Env := {|
  torch_load := torch_load env;
  np_random_rand := λ n, if Nat.even n then (1 # 8)%Q else (7 # 8)%Q;
  db_len := 4;
  val_db_len := 12;
  train_item := λ n indices, item (50 + Z.of_nat n);
  val_item := λ n indices, item (4 + Z.of_nat n);
  all_reduce_peers := λ n, 0%Q
|}.

(** A command line that sets the restart probability to zero. *)
Definition zero_restart : Main.argv :=
  [("--restart_prob",
    [{| Main.text := "0"; Main.as_int := Some 0; Main.as_float := Some 0%Q |}])].

Definition zero_restart_args : Args :=
  Main.set_world_size 4 (Main.set_restart_prob 0 Main.defaults).

(** The first outer step of process 0. *)
Definition step0 : world * result bool :=
  outer_step env 0 args 5 (item 0) world0.

(** A process about to start outer step 5000, at which it validates. *)
Definition world_5000 : world := World [] 0 0 0 0 0 0 5000 None.

(** What a process hands to its all-reduces, in order. *)
Definition contributions (tr : list event) : list Q :=
  omap (λ e, match e with EvAllReduceSum t _ => Some t | _ => None end) tr.

(** Two processes validate, three batches of two samples each.  Process
    1 runs on [env1]; process 0 receives in every all-reduce what process
    1 contributes to it. *)
Definition validation_1 : world * result () :=
  validation env1 1 args (FrameGraph.window_graph 4) world_5000.

Definition env0 : Env := {|
  torch_load := torch_load env;
  np_random_rand := np_random_rand env;
  db_len := db_len env;
  val_db_len := val_db_len env;
  train_item := train_item env;
  val_item := val_item env;
  all_reduce_peers := λ n, nth n (contributions (trace validation_1.1)) 0%Q
|}.

Definition validation_0 : world * result () :=
  validation env0 0 args (FrameGraph.window_graph 4) world_5000.

(** Outer step 5000 of a process whose coin picks the heuristic graph. *)
Definition step_5000 : world * result bool :=
  outer_step env1 0 args 5 (item 0) world_5000.

(** A run of process 0 over two epochs. *)
Definition run0 : world * result () := train env 0 args 10 world0.

End Demo.

(** ** What is observed of a run

    The vocabulary of the statements below: classes of events, counts
    over traces, and the relations between the state before and after a
    statement. *)

Module Observe.
Import Py FrameGraph Torch Train.

(** *** Relations every statement of a run respects *)

(** A statement respects [R] when every run of it relates the state
    before to the state after, whatever the outcome. *)
Definition respects (R : relation world) {A} (m : M A) : Prop :=
  ∀ w w' r, m w = (w', r) → R w w'.

(** The trace only grows, and by events satisfying [P]. *)
Definition grows (P : event → Prop) (w w' : world) : Prop :=
  ∃ d, trace w' = trace w ++ d ∧ Forall P d.

(** A component of the state is left alone. *)
Definition keeps {X} (f : world → X) (w w' : world) : Prop := f w' = f w.

(** *** The primitives *)

(** No event at all. *)
Definition no_event (e : event) : Prop := False.

(** *** Which events each part of the driver emits *)

Definition graph_event (e : event) : Prop :=
  match e with
  | EvNpRandom _ | EvBuildFrameGraph _ _ => True
  | _ => False
  end.

Definition round_event (e : event) : Prop :=
  match e with
  | EvRngRandom _ | EvModel true _ _ _ _ _ _ _
  | EvGeodesicLoss _ (Some false) _ | EvResidualLoss _ | EvFlowLoss _ _
  | EvBackward _ => True
  | _ => False
  end.

Definition update_event (e : event) : Prop :=
  match e with
  | EvClipGradNorm _ | EvOptimizerStep | EvSchedulerStep => True
  | _ => False
  end.

Definition val_event (e : event) : Prop :=
  match e with
  | EvModelEval | EvModelTrain | EvSamplerIter false _
  | EvModel false _ _ _ _ _ _ _ | EvGeodesicLoss _ None _ | EvFlowLoss _ _
  | EvBarrier | EvAllReduceSum _ _ | EvWandbLogVal _ _ _ _ => True
  | _ => False
  end.

Definition report_event (e : event) : Prop :=
  match e with
  | EvWandbLogTrain _ _ | EvLoggerPush _ | EvSave _ => True
  | _ => val_event e
  end.

(** *** Refinement rounds *)

Fixpoint count_events (f : event → bool) (tr : list event) : nat :=
  match tr with
  | [] => 0
  | e :: tr' => (if f e then 1 else 0) + count_events f tr'
  end.

Definition is_backward (e : event) : bool :=
  match e with EvBackward _ => true | _ => false end.


(** The network returns at least one pose estimate and one depth estimate
    to the calls the restart loop makes for a batch: in training mode, on
    the images of the batch and its intrinsics divided by 8, with the
    graph of the step, [num_steps = args.iters] and [fixedp = 2]; whatever
    the process did before and whatever estimates it starts from. *)
Definition model_returns_estimates `{Collab} (args : Args) (item : Item)
    (g : graph) : Prop :=
  ∀ tr Gs disp0,
    (DroidNet tr true Gs item.1.1.1 disp0 (div_scalar item.2 8) g
       (iters args) 2).1.1 ≠ [] ∧
    (DroidNet tr true Gs item.1.1.1 disp0 (div_scalar item.2 8) g
       (iters args) 2).1.2 ≠ [].

(** A network that returns one pose estimate and one depth estimate per
    update iteration. *)
Definition one_estimate_per_iteration `{Collab} : Prop :=
  ∀ tr training Gs images disp0 intrinsics0 g num_steps fixedp,
    length (DroidNet tr training Gs images disp0 intrinsics0 g num_steps fixedp).1.1
      = Z.to_nat num_steps ∧
    length (DroidNet tr training Gs images disp0 intrinsics0 g num_steps fixedp).1.2
      = Z.to_nat num_steps.

(** The events of one round, given what the three losses returned. *)
Definition round_trace (args : Args) (r : Q) (item : Item) (g : graph)
    (Gs : T3) (disp0 : T4) (geo res flo : Q * Metrics) : list event :=
  [EvRngRandom r;
   EvModel true Gs item.1.1.1 disp0 (div_scalar item.2 8) g (iters args) 2;
   EvGeodesicLoss g (Some false) geo;
   EvResidualLoss res;
   EvFlowLoss g flo;
   EvBackward (w1 args * geo.1 + w2 args * res.1 + w3 args * flo.1)%Q].

(** The names a round leaves bound. *)
Definition round_vars_of (args : Args) (geo res flo : Q * Metrics) : RoundVars :=
  {| geo_loss := geo.1; geo_metrics := geo.2;
     res_loss := res.1; res_metrics := res.2;
     flo_loss := flo.1; flo_metrics := flo.2;
     loss := (w1 args * geo.1 + w2 args * res.1 + w3 args * flo.1)%Q |}.

(** *** Draws and their count *)







(** *** The restart loop *)


(** *** Validation and the end of a step *)

Definition step_event (e : event) : Prop :=
  match e with
  | EvZeroGrad => True
  | _ => graph_event e ∨ round_event e ∨ update_event e ∨ report_event e
  end.

(** *** Initial estimates *)

(** Frame 0 of every batch row is the ground-truth frame 0, every later
    frame is the ground-truth frame 1. *)
Definition anchored_on (Ps Gs : T3) : Prop :=
  length Gs = length Ps ∧
  ∀ b row, Ps !! b = Some row →
    ∃ grow, Gs !! b = Some grow ∧
      length grow = length row ∧
      grow !! 0%nat = row !! 0%nat ∧
      ∀ i, (1 ≤ i < length row)%nat → grow !! i = row !! 1%nat.

(** *** One update per step *)

Definition is_zero_grad (e : event) : bool :=
  match e with EvZeroGrad => true | _ => false end.

Definition is_optimizer_step (e : event) : bool :=
  match e with EvOptimizerStep => true | _ => false end.

Definition is_scheduler_step (e : event) : bool :=
  match e with EvSchedulerStep => true | _ => false end.

Definition is_clip (e : event) : bool :=
  match e with EvClipGradNorm _ => true | _ => false end.

(** Events that touch neither the gradients, the optimizer nor the
    schedule. *)
Definition no_update (e : event) : Prop :=
  is_zero_grad e = false ∧ is_backward e = false ∧ is_clip e = false ∧
  is_optimizer_step e = false ∧ is_scheduler_step e = false.

(** Events of a round: never a clearing of the gradients or an update. *)
Definition accumulates (e : event) : Prop :=
  is_zero_grad e = false ∧ is_clip e = false ∧
  is_optimizer_step e = false ∧ is_scheduler_step e = false.

(** *** What a step logs *)

(** Lines 161-168: [metrics = {}], then [metrics.update(a)],
    [metrics.update(b)], [metrics.update(c)]; [metrics.get(key)] is then the
    value of the last of the three dictionaries that has the key. *)
Definition metric_after_updates (a b c : Metrics) (key : string) : option Q :=
  match c !! key with
  | Some v => Some v
  | None =>
      match b !! key with
      | Some v => Some v
      | None => a !! key
      end
  end.

(** The entry of lines 240-251, from the names a round left bound. *)
Definition train_log (rv : RoundVars) (lr : Q) : TrainLog :=
  {| log_geo_loss := geo_loss rv; log_res_loss := res_loss rv;
     log_flo_loss := flo_loss rv; log_loss := loss rv; log_lr := lr;
     log_rot_error := merged_metrics rv !! "rot_error";
     log_tr_error := merged_metrics rv !! "tr_error";
     log_flo_error := merged_metrics rv !! "f_error" |}.

Definition is_save (e : event) : Prop :=
  match e with EvSave _ => True | _ => False end.

(** Events before the last round of a step: the clearing of the
    gradients, the graph choice, earlier rounds. *)
Definition before_last_round (e : event) : Prop :=
  e = EvZeroGrad ∨ graph_event e ∨ round_event e.

(** *** Rounds per step along a whole run *)

(** Reading a trace: the backward passes counted since the last
    [zero_grad], and the counts of the steps that reached their clip. *)
Definition scan (st : nat * list nat) (e : event) : nat * list nat :=
  match e with
  | EvZeroGrad => (0%nat, st.2)
  | EvBackward _ => (S st.1, st.2)
  | EvClipGradNorm _ => (0%nat, st.2 ++ [st.1])
  | _ => st
  end.

(** The number of rounds (backward passes) of every outer step that
    completed its restart loop, in order. *)
Definition rounds_per_step (tr : list event) : list nat :=
  (foldl scan (0%nat, []) tr).2.

(** The restart loop entered with comparator [r] and the generator at
    position [pos] makes [k] rounds. *)
Inductive loop_rounds `{Collab} (args : Args) : Q → nat → nat → Prop :=
| rounds_stop r pos :
    ¬ (r < restart_prob args)%Q → loop_rounds args r pos 0
| rounds_go r pos k :
    (r < restart_prob args)%Q →
    loop_rounds args (default_rng rng_seed pos) (S pos) k →
    loop_rounds args r pos (S k).

(** Step after step from generator position [pos]. *)
Fixpoint chain `{Collab} (args : Args) (pos : nat) (l : list nat) : Prop :=
  match l with
  | [] => True
  | k :: l' => loop_rounds args 0 pos k ∧ chain args (pos + k) l'
  end.

Definition silent (e : event) : Prop :=
  match e with
  | EvZeroGrad | EvBackward _ | EvClipGradNorm _ => False
  | _ => True
  end.

(** Between two steps: the trace reads as the completed steps [l], which
    follow the restart stream from its start, and the generator stands
    where they left it. *)
Definition at_boundary `{Collab} (args : Args) (w : world) (l : list nat) : Prop :=
  foldl scan (0%nat, []) (trace w) = (0%nat, l) ∧
  chain args 0 l ∧
  rng_pos w = sum_list l.

(** Anywhere: the completed steps follow the restart stream. *)
Definition sound `{Collab} (args : Args) (w : world) : Prop :=
  chain args 0 (rounds_per_step (trace w)).

(** *** The restart draws along a whole run *)

(** The restart draws of a trace, in order. *)
Definition draws_of (tr : list event) : list Q :=
  omap (λ e, match e with EvRngRandom r => Some r | _ => None end) tr.

Definition no_draw (e : event) : Prop :=
  match e with EvRngRandom _ => False | _ => True end.

(** The draws made so far are the first values of the stream of seed
    [rng_seed]. *)
Definition on_stream `{Collab} (w : world) : Prop :=
  draws_of (trace w) = default_rng rng_seed <$> seq 0 (rng_pos w).

Definition stays_on_stream `{Collab} (w w' : world) : Prop :=
  on_stream w → on_stream w'.

(** *** Validation reduction *)

(** The all-reduces of a trace: what went in, what came out. *)
Definition reductions (tr : list event) : list (Q * Q) :=
  omap (λ e, match e with EvAllReduceSum t s => Some (t, s) | _ => None end) tr.

(** The validation entries logged. *)
Definition val_logs (tr : list event) : list (Q * Q * Q * Z) :=
  omap (λ e, match e with
             | EvWandbLogVal rot tr f step => Some (rot, tr, f, step)
             | _ => None
             end) tr.

(** The tensors are copies of the accumulators. *)
Definition tensors_match (acc : ValLocals) : Prop :=
  ∀ t, tensor_val_errs acc = Some t →
       t = (val_rot_error acc, val_tr_error acc, val_f_error acc).

(** *** Graph of the validation losses *)

(** The events after [model.eval()]. *)
Fixpoint after_model_eval (tr : list event) : list event :=
  match tr with
  | [] => []
  | EvModelEval :: tr' => tr'
  | _ :: tr' => after_model_eval tr'
  end.

Inductive graph_use :=
| ByModel (g : graph)
| ByGeodesicLoss (g : graph)
| ByFlowLoss (g : graph).

Definition graph_uses (tr : list event) : list graph_use :=
  omap (λ e, match e with
             | EvModel _ _ _ _ _ g _ _ => Some (ByModel g)
             | EvGeodesicLoss g _ _ => Some (ByGeodesicLoss g)
             | EvFlowLoss g _ => Some (ByFlowLoss g)
             | _ => None
             end) tr.

(** *** Before the loop *)

(** The events of the set-up. *)
Definition setup_event (e : event) : Prop :=
  match e with
  | EvLoadStateDict _ | EvWandbInit => True
  | _ => False
  end.

(** *** Order of the training samples *)

(** The index lists the training sampler handed out, one per epoch. *)
Definition train_orders (tr : list event) : list (list nat) :=
  omap (λ e, match e with EvSamplerIter true idx => Some idx | _ => None end) tr.

Definition same_order `{Collab} (env : Env) (gpu : Z) (args : Args)
    (e : event) : Prop :=
  match e with
  | EvSamplerIter true idx => idx = ds_iter (train_sampler env gpu args)
  | _ => True
  end.

End Observe.

(** ** More of what is observed: shapes, counters, logs, chains

    The vocabulary of the statements about the parts of the driver that
    follow: the shape of tensors, the graph and the chain of the rounds of
    a step, the batches of validation, and what a run logs and saves. *)

Module Shape.
Import Torch.

(** A rank-4 tensor of shape [B x N x H x W]. *)
Definition has_shape4 (t : T4) (B N H W : nat) : Prop :=
  length t = B ∧
  Forall (λ tb : T3, length tb = N ∧
    Forall (λ img : T2, length img = H ∧
      Forall (λ row : T1, length row = W) img) tb) t.

(** The length of [l[3::8]] for a dimension of length [n]. *)
Definition downsampled (n : nat) : nat := ((n + 4) / 8)%nat.

End Shape.

Module Ledger.
Import Py FrameGraph Torch Train Observe.

(** *** The graph of a step and the chain of its rounds *)

(** The graph lines 123-129 choose when the next coin of numpy's
    generator is the one at position [np_pos w]. *)
Definition chosen_graph `{Collab} (env : Env) (args : Args) (poses : T3)
    (disps : T4) (intrinsics : T3) (w : world) : graph :=
  if Qlt_le_dec (np_random_rand env (np_pos w)) (1 # 2)
  then build_frame_graph poses disps intrinsics (edges args)
  else train_window_graph (N args).

(** The graphs handed to the network in training mode and to the
    geodesic loss of a round. *)
Definition round_graphs (tr : list event) : list graph :=
  omap (λ e, match e with
             | EvModel true _ _ _ _ g _ _ => Some g
             | EvGeodesicLoss g (Some false) _ => Some g
             | _ => None
             end) tr.

(** An event of a round that uses graph [g] wherever it uses one. *)
Definition round_on (g : graph) (e : event) : Prop :=
  match e with
  | EvRngRandom _ | EvResidualLoss _ | EvBackward _ => True
  | EvModel true _ _ _ _ g' _ _ | EvGeodesicLoss g' (Some false) _
  | EvFlowLoss g' _ => g' = g
  | _ => False
  end.

(** The training-mode calls of the network in [d], each with the trace
    that preceded it, its pose estimates and its inverse depth. *)
Fixpoint train_calls (seen d : list event) : list (list event * T3 * T4) :=
  match d with
  | [] => []
  | e :: d' =>
      match e with
      | EvModel true Gs _ disp0 _ _ _ _ => [(seen, Gs, disp0)]
      | _ => []
      end ++ train_calls (seen ++ [e]) d'
  end.

(** Lines 152-153: the estimates the next round starts from, out of what
    the network returned to the call [c]: the last pose estimate and the
    last depth estimate sampled at [3::8]. *)
Definition next_estimates `{Collab} (args : Args) (item : Item) (g : graph)
    (c : list event * T3 * T4) : option (T3 * T4) :=
  let out := DroidNet c.1.1 true c.1.2 item.1.1.1 c.2 (div_scalar item.2 8) g
               (iters args) 2 in
  Gs ← last_item out.1.1;
  d ← last_item out.1.2;
  Some (Gs, downsample8 d).

(** Every call starts from the estimates [prev], and hands its own to the
    call that follows. *)
Fixpoint linked `{Collab} (args : Args) (item : Item) (g : graph)
    (prev : option (T3 * T4)) (calls : list (list event * T3 * T4)) : Prop :=
  match calls with
  | [] => True
  | c :: calls' =>
      prev = Some (c.1.2, c.2) ∧
      linked args item g (next_estimates args item g c) calls'
  end.

(** *** Validation *)

(** The events of one validation batch. *)
Definition batch_event (e : event) : Prop :=
  match e with
  | EvModel false _ _ _ _ _ _ _ | EvGeodesicLoss _ None _ | EvFlowLoss _ _ => True
  | _ => False
  end.

Definition is_val_model (e : event) : bool :=
  match e with EvModel false _ _ _ _ _ _ _ => true | _ => false end.

Definition is_model_eval (e : event) : bool :=
  match e with EvModelEval => true | _ => false end.

(** The batches [val_loader] yields to a process (batch size 2). *)
Definition val_batches `{Collab} (env : Env) (gpu : Z) (args : Args)
  : list (list nat) :=
  chunks 2 (ds_iter (val_sampler env gpu args)).

(** Both losses report the metrics the validation loop reads. *)
Definition metrics_reported `{Collab} : Prop :=
  (∀ Ps poses_est g do_scale,
     is_Some ((geodesic_loss Ps poses_est g do_scale).2 !! "rot_error") ∧
     is_Some ((geodesic_loss Ps poses_est g do_scale).2 !! "tr_error")) ∧
  (∀ Ps disps poses_est disps_est intrinsics g,
     is_Some ((flow_loss Ps disps poses_est disps_est intrinsics g).2 !! "f_error")).

(** The metrics dictionaries the geodesic loss and the flow loss returned
    to the validation batches of [d], in order. *)
Definition val_geodesic_metrics (d : list event) : list Metrics :=
  omap (λ e, match e with
             | EvGeodesicLoss _ None out => Some out.2
             | _ => None
             end) d.

Definition val_flow_metrics (d : list event) : list Metrics :=
  omap (λ e, match e with EvFlowLoss _ out => Some out.2 | _ => None end) d.

(** [0.0 + x1 + x2 + ...], added in this order. *)
Definition total (xs : list Q) : Q := foldl Qplus 0%Q xs.

(** Only the trace and the validation and all-reduce counters differ. *)
Definition same_training_state (w w' : world) : Prop :=
  rng_pos w' = rng_pos w ∧ np_pos w' = np_pos w ∧
  train_fetched w' = train_fetched w ∧ sched_steps w' = sched_steps w ∧
  total_steps w' = total_steps w ∧ round_vars w' = round_vars w.

(** *** The end of a step *)

(** The labels ([step=]) of the training entries, of the validation
    entries, and of the checkpoints saved. *)
Definition train_log_steps (tr : list event) : list Z :=
  omap (λ e, match e with EvWandbLogTrain _ s => Some s | _ => None end) tr.

Definition val_log_steps (tr : list event) : list Z :=
  omap (λ e, match e with EvWandbLogVal _ _ _ s => Some s | _ => None end) tr.

Definition saves (tr : list event) : list Z :=
  omap (λ e, match e with EvSave s => Some s | _ => None end) tr.

(** The training entries of a trace: label and learning rate. *)
Definition train_log_lrs (tr : list event) : list (Z * Q) :=
  omap (λ e, match e with
             | EvWandbLogTrain entry s => Some (s, log_lr entry)
             | _ => None
             end) tr.

(** What a step reports once its counter stands at [ts] (lines 239-262):
    the training entry and the metrics push on process 0, then the
    checkpoint when [ts] is a multiple of 10000. *)
Definition report `{Collab} (gpu : Z) (args : Args) (rv : RoundVars)
    (sched : nat) (ts : Z) : list event :=
  (if decide (gpu = 0)
   then [EvWandbLogTrain
           (train_log rv (scheduler_lr (lr args) (steps args) sched)) ts;
         EvLoggerPush (merged_metrics rv)]
   else []) ++
  (if decide (ts `mod` 10000 = 0 ∧ gpu = 0) then [EvSave ts] else []).

(** What goes to wandb, to the logger and to disk, in order: validation
    entries, training entries, metrics pushes and checkpoints, each entry
    and checkpoint with its label. *)
Inductive record :=
| ValEntry (step : Z)
| TrainEntry (step : Z)
| MetricsPush
| Saved (step : Z).

Definition records (tr : list event) : list record :=
  omap (λ e, match e with
             | EvWandbLogVal _ _ _ s => Some (ValEntry s)
             | EvWandbLogTrain _ s => Some (TrainEntry s)
             | EvLoggerPush _ => Some MetricsPush
             | EvSave s => Some (Saved s)
             | _ => None
             end) tr.

(** Events other than the report of a completed step. *)
Definition unreported (e : event) : Prop :=
  match e with
  | EvWandbLogTrain _ _ | EvLoggerPush _ | EvSave _ => False
  | _ => True
  end.

(** *** Whole runs *)

(** The state once the loader has handed out one more training batch. *)
Definition next_batch (w : world) : world :=
  World (trace w) (rng_pos w) (np_pos w) (S (train_fetched w)) (val_fetched w)
        (reduced w) (sched_steps w) (total_steps w) (round_vars w).

(** The state of a process that has joined its group. *)
Definition joined (gpu : Z) (args : Args) : world :=
  with_trace world0 [EvInitProcessGroup (world_size args) gpu].

(** Entries sent to wandb or the logger, and checkpoints. *)
Definition is_report (e : event) : bool :=
  match e with
  | EvWandbLogVal _ _ _ _ | EvWandbLogTrain _ _ | EvLoggerPush _ | EvSave _ => true
  | _ => false
  end.

Definition unlogged (e : event) : Prop := is_report e = false.

(** The labels [1, 2, ..., n]. *)
Definition labels (n : Z) : list Z := Z.of_nat <$> seq 1 (Z.to_nat n).

End Ledger.

(** ** Further instances *)

Module Cases.
Import Py FrameGraph Torch Train.

(** A process whose validation set is empty. *)
Definition env_no_val : Env := {|
  torch_load := torch_load Demo.env;
  np_random_rand := np_random_rand Demo.env;
  db_len := db_len Demo.env;
  val_db_len := 0;
  train_item := train_item Demo.env;
  val_item := val_item Demo.env;
  all_reduce_peers := all_reduce_peers Demo.env
|}.

(** A validation set of four samples: with two processes, one batch of
    two samples each. *)
Definition env_one_val_batch : Env := {|
  torch_load := torch_load Demo.env;
  np_random_rand := np_random_rand Demo.env;
  db_len := db_len Demo.env;
  val_db_len := 4;
  train_item := train_item Demo.env;
  val_item := val_item Demo.env;
  all_reduce_peers := all_reduce_peers Demo.env
|}.

(** A process whose training set is empty. *)
Definition env_no_train : Env := {|
  torch_load := torch_load Demo.env;
  np_random_rand := np_random_rand Demo.env;
  db_len := 0;
  val_db_len := val_db_len Demo.env;
  train_item := train_item Demo.env;
  val_item := val_item Demo.env;
  all_reduce_peers := all_reduce_peers Demo.env
|}.

(** The collaborators of [Demo], with a network that returns one pose
    estimate and one depth estimate per update iteration. *)
Definition per_iteration : Collab := {|
  se3_inv := @se3_inv Demo.collab;
  load_state_dict := @load_state_dict Demo.collab;
  DroidNet := λ tr training Gs images disp0 intrinsics0 g num_steps fixedp,
    (replicate (Z.to_nat num_steps) Gs,
     replicate (Z.to_nat num_steps)
       (Demo.depth_map (inject_Z (Z.of_nat (length tr)))),
     []);
  geodesic_loss := @geodesic_loss Demo.collab;
  residual_loss := @residual_loss Demo.collab;
  flow_loss := @flow_loss Demo.collab;
  build_frame_graph := @build_frame_graph Demo.collab;
  default_rng := @default_rng Demo.collab;
  randperm := @randperm Demo.collab;
  scheduler_lr := @scheduler_lr Demo.collab
|}.

(** The same, with a network that returns no estimate at all. *)
Definition no_estimate : Collab := {|
  se3_inv := @se3_inv Demo.collab;
  load_state_dict := @load_state_dict Demo.collab;
  DroidNet := λ tr training Gs images disp0 intrinsics0 g num_steps fixedp,
    ([], [], []);
  geodesic_loss := @geodesic_loss Demo.collab;
  residual_loss := @residual_loss Demo.collab;
  flow_loss := @flow_loss Demo.collab;
  build_frame_graph := @build_frame_graph Demo.collab;
  default_rng := @default_rng Demo.collab;
  randperm := @randperm Demo.collab;
  scheduler_lr := @scheduler_lr Demo.collab
|}.

End Cases.

(** ** Showing an image (lines 40-43) *)

Module Display.
Import Torch.

(** A rank-3 tensor of shape [A x B x C]. *)
Definition has_shape3 (t : T3) (A B C : nat) : Prop :=
  length t = A ∧
  Forall (λ m : T2, length m = B ∧ Forall (λ row : T1, length row = C) m) t.

(** [image.permute(1, 2, 0)] on a [C x H x W] tensor with at least one
    channel: entry [(h, w, c)] of the result is entry [(c, h, w)] of
    [image]. *)
Definition permute_1_2_0 (image : T3) : T3 :=
  let H := length (default [] (head image)) in
  let W := length (default [] (head (default [] (head image)))) in
  (λ h, (λ w, omap (λ ch : T2, row ← ch !! h; row !! w) image) <$> seq 0 W)
    <$> seq 0 H.

Inductive cv2_call :=
| Imshow (winname : string) (mat : T3)
| WaitKey.

(** [show_image(image)] *)
Definition show_image (image : T3) : list cv2_call :=
  let image := permute_1_2_0 image in
  [Imshow "image" (div_scalar image 255); WaitKey].

(** Two channels of 2 x 3 pixels. *)
Definition demo_image : T3 :=
  [[[0; 51; 102]; [153; 204; 255]]; [[255; 204; 153]; [102; 51; 0]]]%Q.

End Display.

(** * Properties *)

(** ** Python built-ins *)

Module PyFacts.
Import Py.

Lemma elem_of_range (n j : Z) : j ∈ range n ↔ 0 ≤ j < n.
Proof.
  unfold range. rewrite list_elem_of_fmap. split.
  - intros (k & -> & Hk). apply elem_of_seq in Hk. lia.
  - intros Hj. exists (Z.to_nat j). split; [lia|]. apply elem_of_seq. lia.
Qed.

Lemma NoDup_range (n : Z) : NoDup (range n).
Proof.
  unfold range. apply NoDup_fmap_2; [|apply NoDup_seq].
  intros a b. lia.
Qed.

Lemma od_get_set_eq {V} (k : Z) (v : V) d : od_get k (od_set k v d) = Some v.
Proof.
  induction d as [|[k' v'] d IH]; simpl.
  - by rewrite decide_True.
  - destruct (decide (k = k')) as [->|Hne]; simpl.
    + by rewrite decide_True.
    + by rewrite decide_False.
Qed.

Lemma od_get_set_ne {V} (k k0 : Z) (v : V) d :
  k ≠ k0 → od_get k0 (od_set k v d) = od_get k0 d.
Proof.
  intros Hne. induction d as [|[k' v'] d IH]; simpl.
  - rewrite decide_False; [done | congruence].
  - destruct (decide (k = k')) as [->|Hne']; simpl.
    + rewrite !decide_False; [done | congruence | congruence].
    + by rewrite IH.
Qed.

End PyFacts.

(** ** The window graph *)

Module FrameGraphFacts.
Import Py FrameGraph PyFacts.

Lemma foldl_set_get (f : Z → list Z) (l : list Z) (g : graph) (i : Z) :
  od_get i (foldl (λ g i, od_set i (f i) g) g l) =
  if decide (i ∈ l) then Some (f i) else od_get i g.
Proof.
  revert g. induction l as [|a l IH]; intros g; cbn [foldl].
  - rewrite decide_False; [done | apply not_elem_of_nil].
  - rewrite IH. destruct (decide (i ∈ l)) as [Hin|Hnin].
    + rewrite decide_True; [done | by right].
    + destruct (decide (i = a)) as [->|Hne].
      * rewrite decide_True; [|by left]. apply od_get_set_eq.
      * rewrite decide_False.
        -- apply od_get_set_ne. congruence.
        -- intros Hin. apply elem_of_cons in Hin as [?|?]; done.
Qed.

Lemma window_graph_get (N i : Z) :
  0 ≤ i < N → od_get i (window_graph N) = Some (window_neighbours N i).
Proof.
  intros Hi. unfold window_graph. rewrite foldl_set_get.
  rewrite decide_True; [done | by apply elem_of_range].
Qed.

Lemma window_graph_get_out (N i : Z) :
  ¬ (0 ≤ i < N) → od_get i (window_graph N) = None.
Proof.
  intros Hi. unfold window_graph. rewrite foldl_set_get.
  rewrite decide_False; [done | by rewrite elem_of_range].
Qed.

Lemma elem_of_window_neighbours (N i j : Z) :
  j ∈ window_neighbours N i ↔ j ≠ i ∧ Z.abs (i - j) ≤ 2 ∧ 0 ≤ j < N.
Proof.
  unfold window_neighbours. rewrite list_elem_of_filter, elem_of_range.
  intuition congruence.
Qed.

Lemma NoDup_window_neighbours (N i : Z) : NoDup (window_neighbours N i).
Proof. apply NoDup_filter, NoDup_range. Qed.

(** C8. For every frame count [N] and frame [i] in [[0, N)], both the
    training window-graph branch and the validation graph map [i] to a
    duplicate-free list whose members are exactly the [j] with [j ≠ i],
    [|i - j| ≤ 2] and [0 ≤ j < N]. *)
Theorem window_graph_neighbour_set (N i : Z) :
  0 ≤ i < N →
  ∃ ns : list Z,
    od_get i (train_window_graph N) = Some ns ∧
    od_get i (val_graph N) = Some ns ∧
    NoDup ns ∧
    ∀ j, j ∈ ns ↔ j ≠ i ∧ Z.abs (i - j) ≤ 2 ∧ 0 ≤ j < N.
Proof.
  intros Hi. exists (window_neighbours N i).
  unfold train_window_graph, val_graph.
  rewrite window_graph_get by done.
  split_and!; [done | done | apply NoDup_window_neighbours |].
  intros j. apply elem_of_window_neighbours.
Qed.

Lemma window_graph_neighbour_set_witness :
  0 ≤ 3 < 7 ∧
  ∃ ns : list Z,
    od_get 3 (train_window_graph 7) = Some ns ∧
    od_get 3 (val_graph 7) = Some ns ∧
    NoDup ns ∧
    ∀ j, j ∈ ns ↔ j ≠ 3 ∧ Z.abs (3 - j) ≤ 2 ∧ 0 ≤ j < 7.
Proof.
  split; [lia | apply (window_graph_neighbour_set 7 3); lia].
Defined.

Example window_graph_7_frame_0 :
  od_get 0 (window_graph 7) = Some [1; 2].
Proof. reflexivity. Qed.

Example window_graph_7_frame_3 :
  od_get 3 (window_graph 7) = Some [1; 2; 4; 5].
Proof. reflexivity. Qed.

Example window_graph_7_keys : od_keys (window_graph 7) = range 7.
Proof. reflexivity. Qed.

End FrameGraphFacts.

(** ** Tensor indexing *)

Module TorchFacts.
Import Torch.

Lemma every_lookup {A} (step skip k : nat) (l : list A) :
  (0 < step)%nat →
  every step skip l !! k = l !! (skip + step * k)%nat.
Proof.
  intros Hstep. revert skip k.
  induction l as [|x l IH]; intros skip k; [done|].
  destruct skip as [|s]; simpl.
  - destruct k as [|k]; simpl.
    + by replace (step * 0)%nat with 0%nat by lia.
    + rewrite IH.
      replace (step * S k)%nat with (S (pred step + step * k)) by lia.
      done.
  - by rewrite IH.
Qed.

Lemma select_dim1_Some {A} (i : nat) (t : list (list A)) (src : list A) :
  select_dim1 i t = Some src →
  length src = length t ∧
  ∀ b row, t !! b = Some row → row !! i = src !! b ∧ (i < length row)%nat.
Proof.
  unfold select_dim1. intros H. apply mapM_Some in H.
  split; [symmetry; by eapply Forall2_length|].
  intros b row Hb.
  destruct (Forall2_lookup_l _ _ _ _ _ H Hb) as (x & Hx & Hrow).
  split; [congruence|]. by eapply lookup_lt_Some.
Qed.

End TorchFacts.

(** ** Reasoning about runs *)

Module Runs.
Import Py FrameGraph Torch Train Observe PyFacts FrameGraphFacts TorchFacts.

Lemma bind_unfold {A B} (m : M A) (k : A → M B) (w : world) :
  (m ≫= k) w =
  match m w with
  | (w', Ok a) => k a w'
  | (w', Raise e) => (w', Raise e)
  | (w', Timeout) => (w', Timeout)
  end.
Proof. reflexivity. Qed.

(** A bind returns either because its first part stopped, or from its
    continuation. *)
Lemma bind_inv {A B} (m : M A) (k : A → M B) (w w' : world) (r : result B) :
  (m ≫= k) w = (w', r) →
  (∃ w1 a, m w = (w1, Ok a) ∧ k a w1 = (w', r)) ∨
  (∃ e, m w = (w', Raise e) ∧ r = Raise e) ∨
  (m w = (w', Timeout) ∧ r = Timeout).
Proof.
  rewrite bind_unfold. destruct (m w) as [w1 [a|e|]]; intros Heq.
  - left. eauto.
  - right. left. inversion Heq. eauto.
  - right. right. inversion Heq. eauto.
Qed.

Lemma bind_Ok {A B} (m : M A) (k : A → M B) (w w1 : world) (a : A) :
  m w = (w1, Ok a) → (m ≫= k) w = k a w1.
Proof. intros Hm. by rewrite bind_unfold, Hm. Qed.

(** *** Relations every statement of a run respects *)

Section respects.
Context (R : relation world) `{!PreOrder R}.

Lemma respects_ret {A} (a : A) : respects R (mret a).
Proof. intros w w' r [= <- _]. reflexivity. Qed.

Lemma respects_raise {A} (e : exn) : respects R (raise (A := A) e).
Proof. intros w w' r [= <- _]. reflexivity. Qed.

Lemma respects_timeout {A} : respects R (timeout (A := A)).
Proof. intros w w' r [= <- _]. reflexivity. Qed.

Lemma respects_bind {A B} (m : M A) (k : A → M B) :
  respects R m → (∀ a, respects R (k a)) → respects R (m ≫= k).
Proof.
  intros Hm Hk w w' r Hrun.
  apply bind_inv in Hrun as [(w1 & a & H1 & H2)|[(e & H1 & _)|[H1 _]]].
  - etrans; [by eapply Hm | by eapply Hk].
  - by eapply Hm.
  - by eapply Hm.
Qed.

Lemma respects_from_option {A} (e : exn) (o : option A) :
  respects R (from_option e o).
Proof. destruct o; [apply respects_ret | apply respects_raise]. Qed.

Lemma respects_if {A} (b : bool) (m1 m2 : M A) :
  respects R m1 → respects R m2 → respects R (if b then m1 else m2).
Proof. by destruct b. Qed.

Lemma respects_dec {A} {P Q : Prop} (b : {P} + {Q}) (m1 m2 : M A) :
  respects R m1 → respects R m2 → respects R (if b then m1 else m2).
Proof. by destruct b. Qed.

End respects.

#[global] Instance grows_preorder (P : event → Prop) : PreOrder (grows P).
Proof.
  split.
  - intros w. exists []. by rewrite app_nil_r.
  - intros w1 w2 w3 (d1 & H1 & F1) (d2 & H2 & F2).
    exists (d1 ++ d2). rewrite H2, H1, <- app_assoc.
    split; [done | by apply Forall_app].
Qed.

#[global] Instance keeps_preorder {X} (f : world → X) : PreOrder (keeps f).
Proof.
  split.
  - by intros w.
  - intros w1 w2 w3 H1 H2. unfold keeps in *. congruence.
Qed.

(** *** The primitives *)

Section primitives.
Context `{C : Collab} (env : Env) (gpu : Z) (args : Args).
Context (P : event → Prop).

Lemma grows_emit (e : event) : P e → respects (grows P) (emit e).
Proof.
  intros He w w' r [= <- _]. exists [e]. split; [done | by constructor].
Qed.

Lemma grows_rng_random :
  (∀ r, P (EvRngRandom r)) → respects (grows P) rng_random.
Proof.
  intros He w w' r [= <- _]. eexists [_]. split; [done | by constructor].
Qed.

Lemma grows_np_random :
  (∀ c, P (EvNpRandom c)) → respects (grows P) (np_random env).
Proof.
  intros He w w' r [= <- _]. eexists [_]. split; [done | by constructor].
Qed.

Lemma grows_all_reduce_sum (t : Q) :
  (∀ sum, P (EvAllReduceSum t sum)) → respects (grows P) (all_reduce_sum env t).
Proof.
  intros He w w' r [= <- _]. eexists [_]. split; [done | by constructor].
Qed.

Lemma grows_scheduler_step :
  P EvSchedulerStep → respects (grows P) scheduler_step.
Proof.
  intros He w w' r [= <- _]. eexists [_]. split; [done | by constructor].
Qed.

Lemma grows_call_model training Gs images disp0 intrinsics0 g num_steps fixedp :
  P (EvModel training Gs images disp0 intrinsics0 g num_steps fixedp) →
  respects (grows P)
    (call_model training Gs images disp0 intrinsics0 g num_steps fixedp).
Proof.
  intros He w w' r [= <- _]. eexists [_]. split; [done | by constructor].
Qed.

Lemma grows_fetch_train idx : respects (grows P) (fetch_train env idx).
Proof. intros w w' r [= <- _]. exists []. by rewrite app_nil_r. Qed.

Lemma grows_fetch_val idx : respects (grows P) (fetch_val env idx).
Proof. intros w w' r [= <- _]. exists []. by rewrite app_nil_r. Qed.

Lemma grows_set_round_vars rv : respects (grows P) (set_round_vars rv).
Proof. intros w w' r [= <- _]. exists []. by rewrite app_nil_r. Qed.

Lemma grows_read_round_vars : respects (grows P) read_round_vars.
Proof.
  intros w w' r. unfold read_round_vars.
  destruct (round_vars w); intros [= <- _]; exists []; by rewrite app_nil_r.
Qed.

Lemma grows_get_total_steps : respects (grows P) get_total_steps.
Proof. intros w w' r [= <- _]. exists []. by rewrite app_nil_r. Qed.

Lemma grows_incr_total_steps : respects (grows P) incr_total_steps.
Proof. intros w w' r [= <- _]. exists []. by rewrite app_nil_r. Qed.

Lemma grows_get_lr : respects (grows P) (get_lr args).
Proof. intros w w' r [= <- _]. exists []. by rewrite app_nil_r. Qed.

End primitives.

(** Decompose a statement along its binds and branches; what is left are
    the side conditions on the events emitted. *)
Ltac grows_step :=
  lazymatch goal with
  | |- PreOrder _ => apply _
  | |- ∀ _, _ => intros ?
  | |- respects _ (mbind _ _) => apply respects_bind
  | |- respects _ (mret _) => apply respects_ret
  | |- respects _ (raise _) => apply respects_raise
  | |- respects _ timeout => apply respects_timeout
  | |- respects _ (from_option _ _) => apply respects_from_option
  | |- respects _ (emit _) => apply grows_emit
  | |- respects _ rng_random => apply grows_rng_random; intros ?
  | |- respects _ (np_random _) => apply grows_np_random; intros ?
  | |- respects _ (all_reduce_sum _ _) => apply grows_all_reduce_sum; intros ?
  | |- respects _ scheduler_step => apply grows_scheduler_step
  | |- respects _ (call_model _ _ _ _ _ _ _ _) => apply grows_call_model
  | |- respects _ (fetch_train _ _) => apply grows_fetch_train
  | |- respects _ (fetch_val _ _) => apply grows_fetch_val
  | |- respects _ (set_round_vars _) => apply grows_set_round_vars
  | |- respects _ read_round_vars => apply grows_read_round_vars
  | |- respects _ get_total_steps => apply grows_get_total_steps
  | |- respects _ incr_total_steps => apply grows_incr_total_steps
  | |- respects _ (get_lr _) => apply grows_get_lr
  | |- respects _ (if ?b then _ else _) => destruct b
  | |- respects _ (match ?x with _ => _ end) => destruct x
  end.

Ltac grows_auto := cbv zeta; repeat grows_step; try done.

Lemma respects_mono (R1 R2 : relation world) {A} (m : M A) :
  (∀ w w', R1 w w' → R2 w w') → respects R1 m → respects R2 m.
Proof. intros HR Hm w w' r Hrun. eapply HR, Hm, Hrun. Qed.

Lemma grows_mono (P1 P2 : event → Prop) {A} (m : M A) :
  (∀ e, P1 e → P2 e) → respects (grows P1) m → respects (grows P2) m.
Proof.
  intros HP. apply respects_mono. intros w w' (d & Hd & HF).
  exists d. split; [done|]. eapply Forall_impl; eauto.
Qed.

Lemma grows_no_event (w w' : world) : grows no_event w w' → trace w' = trace w.
Proof.
  intros (d & Hd & HF). destruct d as [|e d].
  - by rewrite app_nil_r in Hd.
  - by apply Forall_cons in HF as [[] _].
Qed.

(** *** Which events each part of the driver emits *)

Section parts.
Context `{C : Collab} (env : Env) (gpu : Z) (args : Args).

Lemma call_geodesic_loss_grows P Ps poses_est g do_scale :
  P (EvGeodesicLoss g do_scale (geodesic_loss Ps poses_est g do_scale)) →
  respects (grows P) (call_geodesic_loss Ps poses_est g do_scale).
Proof. intros HP. unfold call_geodesic_loss. grows_auto. Qed.

Lemma call_residual_loss_grows P residuals :
  P (EvResidualLoss (residual_loss residuals)) →
  respects (grows P) (call_residual_loss residuals).
Proof. intros HP. unfold call_residual_loss. grows_auto. Qed.

Lemma call_flow_loss_grows P Ps disps poses_est disps_est intrinsics g :
  P (EvFlowLoss g (flow_loss Ps disps poses_est disps_est intrinsics g)) →
  respects (grows P) (call_flow_loss Ps disps poses_est disps_est intrinsics g).
Proof. intros HP. unfold call_flow_loss. grows_auto. Qed.

Lemma choose_graph_grows poses disps intrinsics :
  respects (grows graph_event) (choose_graph env args poses disps intrinsics).
Proof. unfold choose_graph. grows_auto. Qed.

Lemma fix_first_poses_grows Ps Gs :
  respects (grows no_event) (fix_first_poses Ps Gs).
Proof. unfold fix_first_poses. grows_auto. Qed.

Lemma refinement_round_grows item Ps g Gs disp0 :
  respects (grows round_event) (refinement_round args item Ps g Gs disp0).
Proof.
  unfold refinement_round. destruct item as [[[images poses] disps] intrinsics].
  apply respects_bind; [apply _ | grows_auto | intros r].
  apply respects_bind; [apply _ | grows_auto | intros out].
  destruct out as [[poses_est disps_est] residuals].
  apply respects_bind; [apply _ | by apply call_geodesic_loss_grows | intros geo].
  apply respects_bind; [apply _ | by apply call_residual_loss_grows | intros res].
  apply respects_bind; [apply _ | by apply call_flow_loss_grows | intros flo].
  grows_auto.
Qed.

Lemma restart_loop_grows fuel item Ps g r Gs disp0 :
  respects (grows round_event) (restart_loop args fuel item Ps g r Gs disp0).
Proof.
  revert r Gs disp0. induction fuel as [|fuel IH]; intros r Gs disp0; simpl.
  - grows_auto.
  - destruct (Qlt_le_dec r (restart_prob args)); [|grows_auto].
    apply respects_bind; [apply _ | apply refinement_round_grows | intros st].
    apply IH.
Qed.

Lemma optimizer_update_grows :
  respects (grows update_event) (optimizer_update args).
Proof. unfold optimizer_update. grows_auto. Qed.

End parts.

(** *** Before the loop *)

Section setup.
Context `{C : Collab} (env : Env) (gpu : Z) (args : Args).

Lemma setup_grows : respects (grows setup_event) (setup env gpu args).
Proof. unfold setup, load_checkpoint. grows_auto. Qed.

(** The set-up touches nothing but the trace, and it returns or raises. *)
Lemma setup_state w w' r :
  setup env gpu args w = (w', r) → w' = with_trace w (trace w') ∧ r ≠ Timeout.
Proof.
  unfold setup, load_checkpoint, mbind, M_bind, mret, M_ret, emit, raise,
    with_trace.
  destruct w. cbn.
  repeat (case_match; cbn; simplify_eq; try done); by intros [= <- <-].
Qed.

Lemma setup_run w w' r :
  setup env gpu args w = (w', r) →
  ∃ d, w' = with_trace w (trace w ++ d) ∧ Forall setup_event d ∧ r ≠ Timeout.
Proof.
  intros Hrun. destruct (setup_grows _ _ _ Hrun) as (d & Hd & Hev).
  destruct (setup_state _ _ _ Hrun) as [Hw Hr].
  exists d. rewrite <- Hd. done.
Qed.

Lemma setup_keeps {X} (f : world → X) :
  (∀ tr w, f (with_trace w tr) = f w) → respects (keeps f) (setup env gpu args).
Proof.
  intros Hf w w' r Hrun. destruct (setup_state _ _ _ Hrun) as [-> _].
  apply Hf.
Qed.

End setup.

(** *** Refinement rounds *)

Lemma count_events_app f (d1 d2 : list event) :
  count_events f (d1 ++ d2) = (count_events f d1 + count_events f d2)%nat.
Proof. induction d1 as [|e d1 IH]; simpl; [done | rewrite IH; lia]. Qed.

Lemma count_events_none f (d : list event) :
  Forall (λ e, f e = false) d → count_events f d = 0%nat.
Proof. induction 1 as [|e d He _ IH]; simpl; [done | by rewrite He, IH]. Qed.

Section rounds.
Context `{C : Collab} (args : Args).

Lemma refinement_round_Ok item Ps g Gs disp0 w w' st :
  refinement_round args item Ps g Gs disp0 w = (w', Ok st) →
  ∃ geo res flo,
    trace w' = trace w ++ round_trace args st.1.1 item g Gs disp0 geo res flo ∧
    round_vars w' = Some (round_vars_of args geo res flo) ∧
    st.1.1 = default_rng rng_seed (rng_pos w) ∧
    rng_pos w' = S (rng_pos w) ∧
    np_pos w' = np_pos w ∧ sched_steps w' = sched_steps w ∧
    total_steps w' = total_steps w.
Proof.
  destruct item as [[[images poses] disps] intrinsics].
  unfold refinement_round, mbind, M_bind, mret, M_ret, rng_random, call_model,
    call_geodesic_loss, call_residual_loss, call_flow_loss, set_round_vars,
    emit, with_trace, from_option. cbn.
  destruct (DroidNet _ _ _ _ _ _ _ _ _) as [[poses_est disps_est] residuals].
  cbn.
  destruct (last_item poses_est) as [Gs'|]; cbn; [|intros [=]].
  destruct (last_item disps_est) as [d|]; cbn; [|intros [=]].
  intros [= <- <-]. cbn.
  eexists _, _, _. rewrite <- !app_assoc. cbn. done.
Qed.

Lemma last_item_is_Some {A} (l : list A) : l ≠ [] → is_Some (last_item l).
Proof.
  intros Hl. unfold last_item. destruct (last l) eqn:E; [done|].
  apply last_None in E. done.
Qed.

Lemma refinement_round_total item Ps g Gs disp0 w :
  model_returns_estimates args item g →
  ∃ w' st, refinement_round args item Ps g Gs disp0 w = (w', Ok st).
Proof.
  intros Hm. destruct item as [[[images poses] disps] intrinsics].
  unfold model_returns_estimates in Hm. cbn [fst snd] in Hm.
  unfold refinement_round, mbind, M_bind, mret, M_ret, rng_random, call_model,
    call_geodesic_loss, call_residual_loss, call_flow_loss, set_round_vars,
    emit, with_trace, from_option. cbn.
  match goal with |- context [DroidNet ?a true ?c images ?e _ g _ 2] =>
    destruct (Hm a c e) as [H1 H2];
    destruct (DroidNet a true c images e (div_scalar intrinsics 8) g (iters args) 2)
      as [[poses_est disps_est] residuals]
  end.
  cbn in *.
  destruct (last_item_is_Some _ H1) as [Gs' ->].
  destruct (last_item_is_Some _ H2) as [d ->].
  cbn. eauto.
Qed.


(** A network with one estimate per update iteration returns its
    estimates as soon as [args.iters] is positive. *)
Lemma per_iteration_returns_estimates item g :
  one_estimate_per_iteration → 1 ≤ iters args →
  model_returns_estimates args item g.
Proof.
  intros Hn Hiters tr Gs disp0.
  destruct (Hn tr true Gs item.1.1.1 disp0 (div_scalar item.2 8) g (iters args) 2)
    as [H1 H2].
  split; intros Hnil; [rewrite Hnil in H1 | rewrite Hnil in H2]; cbn in *; lia.
Qed.

End rounds.

(** *** Draws and their count *)
















(** *** The restart loop *)

Section restart.
Context `{C : Collab} (args : Args).

Lemma restart_loop_exit fuel item Ps g r Gs disp0 w :
  ¬ (r < restart_prob args)%Q →
  restart_loop args fuel item Ps g r Gs disp0 w = (w, Ok ()).
Proof.
  intros Hr. destruct fuel; simpl;
    destruct (Qlt_le_dec r (restart_prob args)); done.
Qed.

Lemma restart_loop_enter fuel item Ps g r Gs disp0 w :
  (r < restart_prob args)%Q →
  restart_loop args (S fuel) item Ps g r Gs disp0 w =
  (st ← refinement_round args item Ps g Gs disp0;
   restart_loop args fuel item Ps g st.1.1 st.1.2 st.2) w.
Proof.
  intros Hr. simpl. destruct (Qlt_le_dec r (restart_prob args)); [done|].
  exfalso. eapply Qlt_not_le; eauto.
Qed.

Lemma round_trace_backward r item g Gs disp0 geo res flo :
  count_events is_backward (round_trace args r item g Gs disp0 geo res flo) = 1%nat.
Proof. reflexivity. Qed.





End restart.



(** *** Validation and the end of a step *)

Section reports.
Context `{C : Collab} (env : Env) (gpu : Z) (args : Args).

Lemma add_metric_grows P acc m key : respects (grows P) (add_metric acc m key).
Proof. unfold add_metric. grows_auto. Qed.

Lemma float_div_grows P x n : respects (grows P) (float_div x n).
Proof. unfold float_div. grows_auto. Qed.

Lemma val_batch_grows g item acc :
  respects (grows val_event) (val_batch args g item acc).
Proof.
  unfold val_batch. destruct item as [[[images poses] disps] intrinsics].
  cbv zeta.
  apply respects_bind; [apply _ | | intros Gs].
  { eapply grows_mono; [|apply fix_first_poses_grows]. by intros e []. }
  apply respects_bind; [apply _ | grows_auto | intros out].
  destruct out as [[poses_est disps_est] residuals].
  apply respects_bind; [apply _ | by apply call_geodesic_loss_grows | intros geo].
  apply respects_bind; [apply _ | by apply call_flow_loss_grows | intros flo].
  apply respects_bind; [apply _ | apply add_metric_grows | intros rot].
  apply respects_bind; [apply _ | apply add_metric_grows | intros tr].
  apply respects_bind; [apply _ | apply add_metric_grows | intros f].
  grows_auto.
Qed.

Lemma val_loop_grows g batches v acc :
  respects (grows val_event) (val_loop env args g batches v acc).
Proof.
  revert v acc. induction batches as [|indices rest IH]; intros v acc; simpl.
  - grows_auto.
  - apply respects_bind; [apply _ | grows_auto | intros item].
    destruct (decide (v = 500)); [grows_auto|].
    apply respects_bind; [apply _ | apply val_batch_grows | intros acc'].
    apply IH.
Qed.

Lemma validation_grows g :
  respects (grows val_event) (validation env gpu args g).
Proof.
  unfold validation. cbv zeta.
  apply respects_bind; [apply _ | grows_auto | intros _].
  apply respects_bind; [apply _ | grows_auto | intros _].
  apply respects_bind; [apply _ | apply val_loop_grows | intros acc].
  apply respects_bind; [apply _ | grows_auto | intros _].
  apply respects_bind; [apply _ | grows_auto | intros t].
  apply respects_bind; [apply _ | grows_auto | intros _].
  apply respects_bind; [apply _ | grows_auto | intros _].
  apply respects_bind; [apply _ | grows_auto | intros _].
  apply respects_bind; [apply _ | grows_auto | intros vb].
  apply respects_bind; [apply _ | apply float_div_grows | intros rot].
  apply respects_bind; [apply _ | apply float_div_grows | intros tr].
  apply respects_bind; [apply _ | apply float_div_grows | intros f].
  grows_auto.
Qed.

Lemma after_update_grows g :
  respects (grows report_event) (after_update env gpu args g).
Proof.
  unfold after_update. cbv zeta.
  apply respects_bind; [apply _ | grows_auto | intros rv].
  apply respects_bind; [apply _ | grows_auto | intros ts].
  apply respects_bind; [apply _ | | intros _].
  { destruct (decide _); [|grows_auto].
    eapply grows_mono; [|apply validation_grows]. by intros []. }
  grows_auto.
Qed.

Lemma outer_step_grows fuel item :
  respects (grows step_event) (outer_step env gpu args fuel item).
Proof.
  unfold outer_step. destruct item as [[[images poses] disps] intrinsics].
  cbv zeta.
  apply respects_bind; [apply _ | grows_auto | intros _].
  apply respects_bind; [apply _ | | intros g].
  { eapply grows_mono; [|apply choose_graph_grows]. intros []; simpl; tauto. }
  apply respects_bind; [apply _ | | intros Gs].
  { eapply grows_mono; [|apply fix_first_poses_grows]. by intros e []. }
  apply respects_bind; [apply _ | | intros _].
  { eapply grows_mono; [|apply restart_loop_grows]. intros []; simpl; tauto. }
  apply respects_bind; [apply _ | | intros _].
  { eapply grows_mono; [|apply optimizer_update_grows]. intros []; simpl; tauto. }
  eapply grows_mono; [|apply after_update_grows].
  intros e He. destruct e; simpl in *; tauto.
Qed.

End reports.

(** *** Initial estimates *)

Lemma at4_initial_disp `{Collab} (disps : T4) (b n u v : nat) :
  at4 (initial_disp disps) b n u v =
  (λ _, 1%Q) <$> at4 disps b n (3 + 8 * u) (3 + 8 * v).
Proof.
  unfold at4, initial_disp, ones_like, downsample8, slice_from_step.
  remember (3 + 8 * u)%nat as iu eqn:Hu. remember (3 + 8 * v)%nat as iv eqn:Hv.
  rewrite !list_lookup_fmap.
  destruct (_ !! b) as [tb|]; simpl; [|done].
  rewrite !list_lookup_fmap.
  destruct (_ !! n) as [img|]; simpl; [|done].
  rewrite !list_lookup_fmap, every_lookup, <- Hu by lia.
  destruct (_ !! iu) as [row|]; simpl; [|done].
  rewrite !list_lookup_fmap, every_lookup, <- Hv by lia.
  done.
Qed.

Lemma at3_div_scalar (t : T3) (c : Q) (b n k : nat) :
  at3 (div_scalar t c) b n k = (λ x, (x / c)%Q) <$> at3 t b n k.
Proof.
  unfold at3, div_scalar.
  rewrite !list_lookup_fmap.
  destruct (_ !! b) as [tb|]; simpl; [|done].
  rewrite !list_lookup_fmap.
  destruct (_ !! n) as [row|]; simpl; [|done].
  by rewrite !list_lookup_fmap.
Qed.

Section initial.
Context `{C : Collab} (env : Env) (gpu : Z) (args : Args).

Lemma fix_first_poses_frame (Ps Gs : T3) (w w' : world) r :
  fix_first_poses Ps Gs w = (w', r) → w' = w.
Proof.
  unfold fix_first_poses, mbind, M_bind, mret, M_ret, from_option, raise.
  destruct (select_dim1 0 Ps); cbn; [|by intros [= <-]].
  destruct (assign_dim1 0 _ Gs); cbn; [|by intros [= <-]].
  destruct (select_dim1 1 Ps); cbn; by intros [= <-].
Qed.

Lemma fix_first_poses_spec (Ps : T3) (w : world) :
  Forall (λ row : T2, (2 ≤ length row)%nat) Ps →
  ∃ Gs0, fix_first_poses Ps (IdentityLike Ps) w = (w, Ok Gs0) ∧ anchored_on Ps Gs0.
Proof.
  intros HN.
  assert (H0 : is_Some (select_dim1 0 Ps)).
  { apply mapM_is_Some. eapply Forall_impl; [exact HN|].
    intros row Hrow. apply lookup_lt_is_Some. simpl in *. lia. }
  assert (H1 : is_Some (select_dim1 1 Ps)).
  { apply mapM_is_Some. eapply Forall_impl; [exact HN|].
    intros row Hrow. apply lookup_lt_is_Some. simpl in *. lia. }
  destruct H0 as [p0 Hp0], H1 as [p1 Hp1].
  unfold fix_first_poses, mbind, M_bind, mret, M_ret, from_option.
  rewrite Hp0. cbn. unfold assign_dim1.
  rewrite decide_True; cycle 1.
  { unfold IdentityLike. apply Forall_fmap. eapply Forall_impl; [exact HN|].
    intros row Hrow. simpl in *. rewrite length_fmap. lia. }
  cbn. rewrite Hp1. cbn. eexists. split; [done|].
  destruct (select_dim1_Some _ _ _ Hp0) as [Hl0 Hs0].
  destruct (select_dim1_Some _ _ _ Hp1) as [Hl1 Hs1].
  split.
  { unfold assign_from_dim1, IdentityLike.
    rewrite !length_zip_with, length_fmap. lia. }
  intros b row Hb.
  destruct (Hs0 b row Hb) as [E0 L0]. destruct (Hs1 b row Hb) as [E1 L1].
  destruct (row !! 0%nat) as [x0|] eqn:Hx0; [|by apply lookup_ge_None in Hx0; lia].
  destruct (row !! 1%nat) as [x1|] eqn:Hx1; [|by apply lookup_ge_None in Hx1; lia].
  unfold assign_from_dim1, IdentityLike.
  rewrite !lookup_zip_with, list_lookup_fmap, Hb, <- E0, <- E1. cbn.
  eexists. split; [done|].
  split_and!.
  - rewrite length_app, length_take, length_fmap, length_drop, length_insert,
      length_fmap. lia.
  - by destruct row.
  - intros i Hi.
    rewrite lookup_app_r; rewrite length_take, length_insert, length_fmap; [|lia].
    rewrite list_lookup_fmap, lookup_drop.
    replace (Init.Nat.min 1 (length row)) with 1%nat by lia.
    rewrite list_lookup_insert_ne by lia. rewrite list_lookup_fmap.
    replace (1 + (i - 1))%nat with i by lia.
    destruct (lookup_lt_is_Some_2 row i) as [x Hx]; [lia|]. by rewrite Hx.
Qed.

Lemma choose_graph_run poses disps intrinsics w :
  ∃ g pre,
    choose_graph env args poses disps intrinsics w =
      (World (trace w ++ pre) (rng_pos w) (S (np_pos w)) (train_fetched w)
             (val_fetched w) (reduced w) (sched_steps w) (total_steps w)
             (round_vars w), Ok g) ∧
    Forall graph_event pre ∧
    (g = train_window_graph (N args) ∨
     g = build_frame_graph poses disps intrinsics (edges args)).
Proof.
  unfold choose_graph, mbind, M_bind, mret, M_ret, np_random, emit, with_trace.
  cbn. destruct (Qlt_le_dec _ _); cbn.
  - eexists _, [_; _]. rewrite <- app_assoc.
    split_and!; [done | by repeat constructor | by right].
  - eexists _, [_]. split_and!; [done | by repeat constructor | by left].
Qed.

Lemma refinement_round_starts item Ps g Gs disp0 w :
  ∃ r rest,
    trace (refinement_round args item Ps g Gs disp0 w).1 =
    trace w ++
      [EvRngRandom r;
       EvModel true Gs item.1.1.1 disp0 (div_scalar item.2 8) g (iters args) 2]
      ++ rest.
Proof.
  destruct (refinement_round args item Ps g Gs disp0 w) as [w' res] eqn:Hrun.
  revert Hrun. destruct item as [[[images poses] disps] intrinsics].
  unfold refinement_round, mbind, M_bind, mret, M_ret, rng_random, call_model,
    call_geodesic_loss, call_residual_loss, call_flow_loss, set_round_vars,
    emit, with_trace, from_option, raise. cbn.
  destruct (DroidNet _ _ _ _ _ _ _ _ _) as [[poses_est disps_est] residuals].
  cbn.
  destruct (last_item poses_est) as [Gs'|]; cbn;
    [destruct (last_item disps_est) as [d|]; cbn|];
    intros [= <- <-]; cbn;
    eexists _, [_; _; _; _]; rewrite <- !app_assoc; reflexivity.
Qed.

(** What a statement emits first survives whatever follows it. *)
Lemma bind_trace_prefix {A B} (m : M A) (k : A → M B) (X : list event) w :
  (∃ rest, trace (m w).1 = trace w ++ X ++ rest) →
  (∀ a, respects (grows (λ _, True)) (k a)) →
  ∃ rest, trace ((m ≫= k) w).1 = trace w ++ X ++ rest.
Proof.
  intros [rest Hm] Hk. rewrite bind_unfold.
  destruct (m w) as [w1 [a|e|]]; simpl in *; eauto.
  destruct (k a w1) as [w2 r2] eqn:Hrun.
  destruct (Hk a _ _ _ Hrun) as (d & Hd & _).
  exists (rest ++ d). simpl. by rewrite Hd, Hm, <- !app_assoc.
Qed.

Lemma grows_any P {A} (m : M A) :
  respects (grows P) m → respects (grows (λ _, True)) m.
Proof. by apply grows_mono. Qed.

Lemma restart_loop_starts fuel item Ps g r Gs disp0 w :
  (r < restart_prob args)%Q →
  ∃ r' rest,
    trace (restart_loop args (S fuel) item Ps g r Gs disp0 w).1 =
    trace w ++
      [EvRngRandom r';
       EvModel true Gs item.1.1.1 disp0 (div_scalar item.2 8) g (iters args) 2]
      ++ rest.
Proof.
  intros Hr. rewrite restart_loop_enter by done.
  destruct (refinement_round_starts item Ps g Gs disp0 w) as (r' & rest & Hround).
  exists r'. apply bind_trace_prefix; [eauto|].
  intros st. eapply grows_any, restart_loop_grows.
Qed.

End initial.

(** C9. Every outer step with a positive restart probability and batches of
    at least two frames calls the network first with: pose estimates whose
    frame 0 is the ground-truth pose of frame 0 and whose frames [1..N-1]
    are all the ground-truth pose of frame 1; an inverse depth that is 1
    everywhere, with one entry for each pixel [(3 + 8u, 3 + 8v)] of the
    depth maps; and the batch intrinsics divided by 8. *)
Theorem initial_estimates `{C : Collab} (env : Env) (gpu : Z) (args : Args)
    (fuel : nat) (images : T5) (poses : T3) (disps : T4) (intrinsics : T3)
    (w : world) :
  (0 < fuel)%nat →
  (0 < restart_prob args)%Q →
  Forall (λ row : T2, (2 ≤ length row)%nat) poses →
  ∃ pre r Gs0 disp0 intrinsics0 g rest,
    trace (outer_step env gpu args fuel (images, poses, disps, intrinsics) w).1 =
      trace w ++ EvZeroGrad :: pre ++
        [EvRngRandom r;
         EvModel true Gs0 images disp0 intrinsics0 g (iters args) 2] ++ rest ∧
    Forall graph_event pre ∧
    anchored_on (SE3_inv poses) Gs0 ∧
    (∀ b n u v, at4 disp0 b n u v =
                (λ _, 1%Q) <$> at4 disps b n (3 + 8 * u) (3 + 8 * v)) ∧
    (∀ b n c, at3 intrinsics0 b n c =
              (λ x, (x / 8)%Q) <$> at3 intrinsics b n c).
Proof.
  intros Hfuel Hp HN. destruct fuel as [|fuel]; [lia|].
  unfold outer_step. rewrite bind_unfold. cbn [emit].
  set (w0 := with_trace w _).
  destruct (choose_graph_run env args poses disps intrinsics w0)
    as (g & pre & Hg & Hpre & _).
  rewrite bind_unfold, Hg. set (w1 := World _ _ _ _ _ _ _ _ _).
  assert (HN' : Forall (λ row : T2, (2 ≤ length row)%nat) (SE3_inv poses)).
  { unfold SE3_inv. apply Forall_fmap. eapply Forall_impl; [exact HN|].
    intros row Hrow. simpl in *. by rewrite length_fmap. }
  destruct (fix_first_poses_spec (SE3_inv poses) w1 HN') as (Gs0 & HGs & Hanch).
  rewrite bind_unfold, HGs.
  destruct (restart_loop_starts args fuel (images, poses, disps, intrinsics)
              (SE3_inv poses) g 0 Gs0 (initial_disp disps) w1 Hp)
    as (r & rest0 & Hloop).
  edestruct (bind_trace_prefix
               (restart_loop args (S fuel) (images, poses, disps, intrinsics)
                  (SE3_inv poses) g 0 Gs0 (initial_disp disps))
               (λ _, optimizer_update args;; after_update env gpu args g))
    as [rest Hrest]; [eauto | |].
  { intros _. apply respects_bind; [apply _ | | intros _].
    - eapply grows_any, optimizer_update_grows.
    - eapply grows_any, after_update_grows. }
  exists pre, r, Gs0, (initial_disp disps), (div_scalar intrinsics 8), g, rest.
  split_and!.
  - rewrite Hrest. subst w1 w0. unfold with_trace. cbn [trace].
    by rewrite <- !app_assoc.
  - done.
  - done.
  - intros. apply at4_initial_disp.
  - intros. apply at3_div_scalar.
Qed.

Lemma initial_estimates_witness :
  (0 < 5)%nat ∧
  (0 < restart_prob Demo.args)%Q ∧
  Forall (λ row : T2, (2 ≤ length row)%nat) (Demo.poses 0) ∧
  ∃ pre r Gs0 disp0 intrinsics0 g rest,
    trace (outer_step (C := Demo.collab) Demo.env 0 Demo.args 5
             (Demo.images, Demo.poses 0, Demo.disps, Demo.intrinsics) world0).1 =
      trace world0 ++ EvZeroGrad :: pre ++
        [EvRngRandom r;
         EvModel true Gs0 Demo.images disp0 intrinsics0 g (iters Demo.args) 2]
        ++ rest ∧
    Forall graph_event pre ∧
    anchored_on (SE3_inv (C := Demo.collab) (Demo.poses 0)) Gs0 ∧
    (∀ b n u v, at4 disp0 b n u v =
                (λ _, 1%Q) <$> at4 Demo.disps b n (3 + 8 * u) (3 + 8 * v)) ∧
    (∀ b n c, at3 intrinsics0 b n c =
              (λ x, (x / 8)%Q) <$> at3 Demo.intrinsics b n c).
Proof.
  assert (H1 : (0 < 5)%nat) by lia.
  assert (H2 : (0 < restart_prob Demo.args)%Q) by reflexivity.
  assert (H3 : Forall (λ row : T2, (2 ≤ length row)%nat) (Demo.poses 0)).
  { repeat constructor. }
  split; [exact H1|]. split; [exact H2|]. split; [exact H3|].
  exact (initial_estimates (C := Demo.collab) Demo.env 0 Demo.args 5
           Demo.images (Demo.poses 0) Demo.disps Demo.intrinsics world0 H1 H2 H3).
Defined.

(** *** The stages of an outer step *)

Section stages.
Context `{C : Collab} (env : Env) (gpu : Z) (args : Args).

Lemma optimizer_update_run w :
  optimizer_update args w =
  (World (trace w ++ [EvClipGradNorm (clip args); EvOptimizerStep; EvSchedulerStep])
         (rng_pos w) (np_pos w) (train_fetched w) (val_fetched w) (reduced w)
         (S (sched_steps w)) (total_steps w) (round_vars w), Ok ()).
Proof.
  unfold optimizer_update, mbind, M_bind, emit, scheduler_step, with_trace.
  cbn. by rewrite <- !app_assoc.
Qed.

(** How a run of [outer_step] came about: the graph was chosen; then the
    initial poses were set or the step stopped there; then the restart
    loop ran; and if it returned, the optimizer was updated and the rest of
    the step decided the outcome. *)
Lemma outer_step_stages fuel images poses disps intrinsics w w' res :
  outer_step env gpu args fuel (images, poses, disps, intrinsics) w = (w', res) →
  ∃ g pre,
    let w1 := World (trace w ++ EvZeroGrad :: pre) (rng_pos w) (S (np_pos w))
                (train_fetched w) (val_fetched w) (reduced w) (sched_steps w)
                (total_steps w) (round_vars w) in
    Forall graph_event pre ∧
    ((∃ e, w' = w1 ∧ res = Raise e) ∨
     ∃ Gs0 w2 r2,
       restart_loop args fuel (images, poses, disps, intrinsics)
         (SE3_inv poses) g 0 Gs0 (initial_disp disps) w1 = (w2, r2) ∧
       match r2 with
       | Ok _ =>
           after_update env gpu args g
             (World (trace w2 ++ [EvClipGradNorm (clip args); EvOptimizerStep;
                                  EvSchedulerStep])
                (rng_pos w2) (np_pos w2) (train_fetched w2) (val_fetched w2)
                (reduced w2) (S (sched_steps w2)) (total_steps w2)
                (round_vars w2)) = (w', res)
       | Raise e => w' = w2 ∧ res = Raise e
       | Timeout => w' = w2 ∧ res = Timeout
       end).
Proof.
  unfold outer_step. rewrite bind_unfold. cbn [emit].
  set (w0 := with_trace w _).
  destruct (choose_graph_run env args poses disps intrinsics w0)
    as (g & pre & Hg & Hpre & _).
  rewrite bind_unfold, Hg. subst w0. unfold with_trace. cbn [trace rng_pos np_pos
    train_fetched val_fetched reduced sched_steps total_steps round_vars].
  rewrite <- app_assoc. cbn [app].
  set (w1 := World _ _ _ _ _ _ _ _ _).
  intros Hrun. exists g, pre. split; [done|]. fold w1.
  rewrite bind_unfold in Hrun.
  destruct (fix_first_poses _ _ w1) as [w1' [Gs0|e|]] eqn:Hfix;
    pose proof (fix_first_poses_frame _ _ _ _ _ Hfix) as ->.
  - right. rewrite bind_unfold in Hrun.
    destruct (restart_loop _ _ _ _ _ _ _ _ w1) as [w2 r2] eqn:Hloop.
    exists Gs0, w2, r2. split; [done|].
    destruct r2 as [[]|e|].
    + by rewrite bind_unfold, optimizer_update_run in Hrun.
    + by inversion Hrun.
    + by inversion Hrun.
  - left. inversion Hrun. eauto.
  - exfalso. revert Hfix.
    unfold fix_first_poses, mbind, M_bind, mret, M_ret, from_option, raise.
    destruct (select_dim1 0 _); cbn; [|done].
    destruct (assign_dim1 0 _ _); cbn; [|done].
    destruct (select_dim1 1 _); cbn; done.
Qed.

End stages.

(** *** State the reporting part of a step leaves alone *)

Section frame.
Context `{C : Collab} (env : Env) (gpu : Z) (args : Args).
Context {X : Type} (f : world → X).

(** [f] does not look at the trace or at the validation and all-reduce
    counters; for the end of a step, nor at the step counter. *)
Hypothesis f_frame : ∀ tr vf rd w,
  f (World tr (rng_pos w) (np_pos w) (train_fetched w) vf rd (sched_steps w)
       (total_steps w) (round_vars w)) = f w.
Hypothesis f_steps : ∀ ts w,
  f (World (trace w) (rng_pos w) (np_pos w) (train_fetched w) (val_fetched w)
       (reduced w) (sched_steps w) ts (round_vars w)) = f w.

Ltac keeps_prim :=
  let w := fresh "w" in
  let w' := fresh "w'" in
  let r := fresh "r" in
  let H := fresh "H" in
  intros w w' r H;
  unfold emit, with_trace, fetch_val, all_reduce_sum, read_round_vars,
    get_total_steps, incr_total_steps, get_lr, call_model in H;
  repeat case_match; simplify_eq;
  first [reflexivity | apply f_frame | apply f_steps].

Ltac keeps_step :=
  lazymatch goal with
  | |- PreOrder _ => apply _
  | |- ∀ _, _ => intros ?
  | |- respects _ (mbind _ _) => apply respects_bind
  | |- respects _ (mret _) => apply respects_ret
  | |- respects _ (raise _) => apply respects_raise
  | |- respects _ timeout => apply respects_timeout
  | |- respects _ (from_option _ _) => apply respects_from_option
  | |- respects _ (if ?b then _ else _) => destruct b
  | |- respects _ (match ?x with _ => _ end) => destruct x
  | |- respects (keeps _) (emit _) => keeps_prim
  | |- respects (keeps _) (fetch_val _ _) => keeps_prim
  | |- respects (keeps _) (all_reduce_sum _ _) => keeps_prim
  | |- respects (keeps _) read_round_vars => keeps_prim
  | |- respects (keeps _) get_total_steps => keeps_prim
  | |- respects (keeps _) incr_total_steps => keeps_prim
  | |- respects (keeps _) (get_lr _) => keeps_prim
  | |- respects (keeps _) (call_model _ _ _ _ _ _ _ _) => keeps_prim
  end.

Lemma fix_first_poses_keeps Ps Gs : respects (keeps f) (fix_first_poses Ps Gs).
Proof. intros w w' r Hrun. by apply fix_first_poses_frame in Hrun as ->. Qed.

Lemma val_batch_keeps g item acc :
  respects (keeps f) (val_batch args g item acc).
Proof.
  unfold val_batch, call_geodesic_loss, call_flow_loss, add_metric.
  destruct item as [[[images poses] disps] intrinsics]. cbv zeta.
  apply respects_bind; [apply _ | apply fix_first_poses_keeps | intros Gs].
  apply respects_bind; [apply _ | keeps_step | intros out].
  destruct out as [[poses_est disps_est] residuals].
  repeat keeps_step.
Qed.

Lemma val_loop_keeps g batches v acc :
  respects (keeps f) (val_loop env args g batches v acc).
Proof.
  revert v acc. induction batches as [|indices rest IH]; intros v acc; simpl.
  - repeat keeps_step.
  - apply respects_bind; [apply _ | keeps_step | intros item].
    destruct (decide (v = 500)); [repeat keeps_step|].
    apply respects_bind; [apply _ | apply val_batch_keeps | intros acc'].
    apply IH.
Qed.

Lemma validation_keeps g : respects (keeps f) (validation env gpu args g).
Proof.
  unfold validation, float_div. cbv zeta.
  apply respects_bind; [apply _ | keeps_step | intros _].
  apply respects_bind; [apply _ | keeps_step | intros _].
  apply respects_bind; [apply _ | apply val_loop_keeps | intros acc].
  repeat keeps_step.
Qed.

Lemma after_update_keeps g : respects (keeps f) (after_update env gpu args g).
Proof.
  unfold after_update. cbv zeta.
  apply respects_bind; [apply _ | keeps_step | intros rv].
  apply respects_bind; [apply _ | keeps_step | intros ts].
  apply respects_bind; [apply _ | | intros _].
  { destruct (decide _); [apply validation_keeps | repeat keeps_step]. }
  repeat keeps_step.
Qed.

End frame.

(** *** State the restart loop leaves alone *)

Section round_frame.
Context `{C : Collab} (args : Args).
Context {X : Type} (f : world → X).

(** [f] does not look at the trace, the restart generator or the names
    bound by a round. *)
Hypothesis f_frame : ∀ tr rp rv w,
  f (World tr rp (np_pos w) (train_fetched w) (val_fetched w) (reduced w)
       (sched_steps w) (total_steps w) rv) = f w.

Lemma refinement_round_keeps item Ps g Gs disp0 :
  respects (keeps f) (refinement_round args item Ps g Gs disp0).
Proof.
  intros w w' r. destruct item as [[[images poses] disps] intrinsics].
  unfold refinement_round, mbind, M_bind, mret, M_ret, rng_random, call_model,
    call_geodesic_loss, call_residual_loss, call_flow_loss, set_round_vars,
    emit, with_trace, from_option, raise. cbn.
  destruct (DroidNet _ _ _ _ _ _ _ _ _) as [[poses_est disps_est] residuals].
  cbn.
  destruct (last_item poses_est) as [Gs'|]; cbn;
    [destruct (last_item disps_est) as [d|]; cbn|];
    intros [= <- _]; apply f_frame.
Qed.

Lemma restart_loop_keeps fuel item Ps g r Gs disp0 :
  respects (keeps f) (restart_loop args fuel item Ps g r Gs disp0).
Proof.
  revert r Gs disp0. induction fuel as [|fuel IH]; intros r Gs disp0; simpl.
  - destruct (Qlt_le_dec _ _); [apply respects_timeout | apply respects_ret];
      apply _.
  - destruct (Qlt_le_dec _ _); [|apply respects_ret; apply _].
    apply respects_bind; [apply _ | apply refinement_round_keeps | intros st].
    apply IH.
Qed.

End round_frame.

(** *** One update per step *)

Lemma graph_event_no_update e : graph_event e → no_update e.
Proof. by destruct e. Qed.

Lemma report_event_no_update e : report_event e → no_update e.
Proof. destruct e as [| | | | | | | |[]| |[]| | | | | | | | | | | | | | |]; by try done. Qed.

Lemma round_event_accumulates e : round_event e → accumulates e.
Proof. by destruct e. Qed.

(** C7. Any outer step begins with one [zero_grad] and the choice of the
    graph; then the initial poses are set, or the step stops there.  The
    rounds of the restart loop follow, and none of their events clears the
    gradients or updates.  Once the loop has returned, [clip_grad_norm_]
    with the configured bound, one optimizer step and one scheduler step
    come next, in this order, followed by events that touch neither
    gradients, optimizer nor schedule; the schedule has then advanced by
    exactly one, whatever the number of rounds.  When the loop does not
    return, the step stops where the loop stopped. *)
Theorem one_update_per_step `{C : Collab} (env : Env) (gpu : Z) (args : Args)
    (fuel : nat) (images : T5) (poses : T3) (disps : T4) (intrinsics : T3)
    (w : world) :
  let item := (images, poses, disps, intrinsics) in
  let Ps := SE3_inv poses in
  ∃ g w1 pre,
    (emit EvZeroGrad;; choose_graph env args poses disps intrinsics) w =
      (w1, Ok g) ∧
    trace w1 = trace w ++ EvZeroGrad :: pre ∧
    Forall no_update pre ∧
    sched_steps w1 = sched_steps w ∧
    ((∃ e, fix_first_poses Ps (IdentityLike Ps) w1 = (w1, Raise e) ∧
           outer_step env gpu args fuel item w = (w1, Raise e)) ∨
     ∃ Gs0 w2 r2 rounds,
       fix_first_poses Ps (IdentityLike Ps) w1 = (w1, Ok Gs0) ∧
       restart_loop args fuel item Ps g 0 Gs0 (initial_disp disps) w1 = (w2, r2) ∧
       trace w2 = trace w1 ++ rounds ∧
       Forall accumulates rounds ∧
       match r2 with
       | Ok _ =>
           ∃ post,
             trace (outer_step env gpu args fuel item w).1 =
               trace w2 ++
               [EvClipGradNorm (clip args); EvOptimizerStep; EvSchedulerStep] ++
               post ∧
             Forall no_update post ∧
             sched_steps (outer_step env gpu args fuel item w).1 =
               S (sched_steps w)
       | Raise e => outer_step env gpu args fuel item w = (w2, Raise e)
       | Timeout => outer_step env gpu args fuel item w = (w2, Timeout)
       end).
Proof.
  cbv zeta.
  set (w0 := with_trace w (trace w ++ [EvZeroGrad])).
  destruct (choose_graph_run env args poses disps intrinsics w0)
    as (g & pre & Hg & Hpre & _).
  set (w1 := World (trace w0 ++ pre) _ _ _ _ _ _ _ _) in Hg.
  assert (Hstep : outer_step env gpu args fuel (images, poses, disps, intrinsics) w =
    (Gs ← fix_first_poses (SE3_inv poses) (IdentityLike (SE3_inv poses));
     restart_loop args fuel (images, poses, disps, intrinsics) (SE3_inv poses) g 0
       Gs (initial_disp disps);;
     optimizer_update args;;
     after_update env gpu args g) w1).
  { unfold outer_step. rewrite bind_unfold. cbn [emit]. fold w0.
    by rewrite bind_unfold, Hg. }
  exists g, w1, pre. split_and!.
  - rewrite bind_unfold. cbn [emit]. exact Hg.
  - subst w1 w0. unfold with_trace. cbn [trace]. by rewrite <- app_assoc.
  - eapply Forall_impl; [exact Hpre | apply graph_event_no_update].
  - done.
  - rewrite Hstep, bind_unfold.
    destruct (fix_first_poses _ _ w1) as [w1' [Gs0|e|]] eqn:Hfix;
      pose proof (fix_first_poses_frame _ _ _ _ _ Hfix) as ->.
    + right. rewrite bind_unfold.
      destruct (restart_loop _ _ _ _ _ _ _ _ w1) as [w2 r2] eqn:Hloop.
      destruct (restart_loop_grows args _ _ _ _ _ _ _ _ _ _ Hloop)
        as (rounds & Hrounds & Hround_events).
      exists Gs0, w2, r2, rounds. split_and!; [done | done | done | |].
      { eapply Forall_impl; [exact Hround_events | apply round_event_accumulates]. }
      destruct r2 as [[]|e|]; [|done|done].
      rewrite bind_unfold, optimizer_update_run.
      destruct (after_update env gpu args g _) as [w' res] eqn:Hrest.
      destruct (after_update_grows env gpu args g _ _ _ Hrest)
        as (post & Hpost & Hpost_events).
      pose proof (after_update_keeps env gpu args sched_steps
                    (λ _ _ _ _, eq_refl) (λ _ _, eq_refl) g _ _ _ Hrest) as Hs.
      pose proof (restart_loop_keeps args sched_steps
                    (λ _ _ _ _, eq_refl) _ _ _ _ _ _ _ _ _ _ Hloop) as Hs2.
      unfold keeps in Hs, Hs2. cbn [trace sched_steps fst] in *.
      exists post. split_and!.
      * by rewrite Hpost, <- app_assoc.
      * eapply Forall_impl; [exact Hpost_events | apply report_event_no_update].
      * rewrite Hs, Hs2. by subst w1 w0.
    + left. eauto.
    + exfalso. revert Hfix.
      unfold fix_first_poses, mbind, M_bind, mret, M_ret, from_option, raise.
      destruct (select_dim1 0 _); cbn; [|done].
      destruct (assign_dim1 0 _ _); cbn; [|done].
      destruct (select_dim1 1 _); cbn; done.
Qed.

(** The first step of the demonstration run: its loop returns after three
    rounds, and the update follows. *)
Lemma one_update_per_step_witness :
  ∃ w2 post,
    count_events is_backward (trace w2) = 3%nat ∧
    count_events is_zero_grad (trace w2) = 1%nat ∧
    trace Demo.step0.1 =
      trace w2 ++
      [EvClipGradNorm (clip Demo.args); EvOptimizerStep; EvSchedulerStep] ++ post ∧
    Forall no_update post ∧
    sched_steps Demo.step0.1 = 1%nat.
Proof.
  destruct (one_update_per_step (C := Demo.collab) Demo.env 0 Demo.args 5
              Demo.images (Demo.poses 0) Demo.disps Demo.intrinsics world0)
    as (g & w1 & pre & Hstart & Htr & Hpre & Hs & Hcases).
  vm_compute in Hstart. injection Hstart as <- <-.
  destruct Hcases as [(e & Hfix & _)|(Gs0 & w2 & r2 & rounds & Hfix & Hloop & _ & _ & Hrest)].
  { vm_compute in Hfix. discriminate Hfix. }
  vm_compute in Hfix. injection Hfix as <-.
  vm_compute in Hloop. injection Hloop as <- <-.
  destruct Hrest as (post & Hpost & Hno & Hsched).
  eexists _, post. split_and!; [| | exact Hpost | exact Hno | exact Hsched];
    vm_compute; reflexivity.
Defined.

(** *** What a step logs *)

Section logging.
Context `{C : Collab} (env : Env) (args : Args).

Lemma restart_loop_last_round fuel item Ps g : ∀ r Gs disp0 w w',
  restart_loop args fuel item Ps g r Gs disp0 w = (w', Ok ()) →
  w' = w ∨
  ∃ d r' Gs' disp0' geo res flo,
    trace w' = trace w ++ d ++ round_trace args r' item g Gs' disp0' geo res flo ∧
    Forall round_event d ∧
    round_vars w' = Some (round_vars_of args geo res flo).
Proof.
  induction fuel as [|fuel IH]; intros r Gs disp0 w w'; simpl.
  - destruct (Qlt_le_dec _ _); [done|]. intros [= ->]. by left.
  - destruct (Qlt_le_dec _ _); [|intros [= ->]; by left].
    intros Hrun. right.
    apply bind_inv in Hrun as [(w1 & st & Hround & Hloop)|[(e & _ & ?)|[_ ?]]];
    [|done|done].
    destruct (refinement_round_Ok _ _ _ _ _ _ _ _ _ Hround)
      as (geo & res & flo & Htr & Hrv & _).
    destruct (IH _ _ _ _ _ Hloop) as [->|(d & r' & Gs' & disp0' & geo' & res' & flo' & Htr' & Hd & Hrv')].
    + exists [], st.1.1, Gs, disp0, geo, res, flo. by split_and!.
    + exists (round_trace args st.1.1 item g Gs disp0 geo res flo ++ d),
        r', Gs', disp0', geo', res', flo'.
      split_and!; [|apply Forall_app; split; [by repeat constructor | done] | done].
      rewrite Htr', Htr. by rewrite <- !app_assoc.
Qed.

Lemma merged_metrics_lookup (rv : RoundVars) (key : string) :
  merged_metrics rv !! key =
  metric_after_updates (geo_metrics rv) (res_metrics rv) (flo_metrics rv) key.
Proof.
  unfold merged_metrics, metric_after_updates.
  rewrite !lookup_union, lookup_empty.
  destruct (flo_metrics rv !! key), (res_metrics rv !! key),
    (geo_metrics rv !! key); done.
Qed.

Lemma after_update_Ok g w w' b :
  after_update env 0 args g w = (w', Ok b) →
  ∃ rv post1 post2,
    round_vars w = Some rv ∧
    trace w' = trace w ++ post1 ++
      [EvWandbLogTrain
         (train_log rv (scheduler_lr (lr args) (steps args) (sched_steps w)))
         (total_steps w + 1);
       EvLoggerPush (merged_metrics rv)]
      ++ post2 ∧
    Forall val_event post1 ∧
    Forall is_save post2.
Proof.
  unfold after_update. intros Hrun.
  apply bind_inv in Hrun as [(w1 & rv & Hrv & Hrun)|[(e & _ & ?)|[_ ?]]];
    [|done|done].
  unfold read_round_vars in Hrv.
  destruct (round_vars w) as [rv'|] eqn:Hw; [|done].
  injection Hrv as <- <-. cbv zeta in Hrun.
  apply bind_inv in Hrun as [(w1 & ts & Hts & Hrun)|[(e & _ & ?)|[_ ?]]];
    [|done|done].
  injection Hts as <- <-.
  apply bind_inv in Hrun as [(w2 & [] & Hval & Hrun)|[(e & _ & ?)|[_ ?]]];
    [|done|done].
  assert (Hpost1 : ∃ post1, trace w2 = trace w ++ post1 ∧ Forall val_event post1 ∧
            sched_steps w2 = sched_steps w ∧ total_steps w2 = total_steps w).
  { destruct (decide _).
    - destruct (validation_grows _ _ _ _ _ _ _ Hval) as (post1 & H1 & H2).
      exists post1. split_and!; [done | done | |].
      + exact (validation_keeps env 0 args sched_steps (λ _ _ _ _, eq_refl)
                 g _ _ _ Hval).
      + exact (validation_keeps env 0 args total_steps (λ _ _ _ _, eq_refl)
                 g _ _ _ Hval).
    - injection Hval as <-. exists []. by rewrite app_nil_r. }
  destruct Hpost1 as (post1 & Hpost1 & Hval_events & Hsched & Htotal).
  exists rv', post1. revert Hrun.
  unfold mbind, M_bind, mret, M_ret, incr_total_steps, get_total_steps, get_lr,
    emit, with_trace. cbn.
  destruct (decide (0 = 0)) as [_|?]; [|done].
  destruct (decide (_ ∧ 0 = 0)); cbn; intros [= <- _]; cbn;
    rewrite Hpost1, Hsched, Htotal.
  - eexists [_]. rewrite <- !app_assoc. cbn.
    split_and!; [done | done | done | by repeat constructor].
  - eexists []. rewrite <- !app_assoc. cbn.
    split_and!; [done | done | done | by repeat constructor].
Qed.

End logging.

(** C10. A step of the logging process that returns normally and made at
    least one backward pass ends its rounds with the events of the final
    round; it emits one training entry and one metrics push, both after
    the update.  The entry holds what the three losses returned in that
    final round: their three values, the weighted sum of the three, and
    for each error the value under its key in the last of the metrics
    dictionaries of the flow, residual and geodesic loss (in this order)
    that has the key; the push holds those dictionaries merged the same
    way.  Nothing of an earlier round is in either. *)
Theorem logged_values_from_final_round `{C : Collab} (env : Env) (args : Args)
    (fuel : nat) (item : Item) (w w' : world) (b : bool) (d : list event) :
  outer_step env 0 args fuel item w = (w', Ok b) →
  trace w' = trace w ++ d →
  (1 ≤ count_events is_backward d)%nat →
  ∃ before r g Gs disp0 geo res flo post1 entry pushed post2,
    d = before ++ round_trace args r item g Gs disp0 geo res flo ++
        [EvClipGradNorm (clip args); EvOptimizerStep; EvSchedulerStep] ++
        post1 ++
        [EvWandbLogTrain entry (total_steps w + 1); EvLoggerPush pushed] ++
        post2 ∧
    Forall before_last_round before ∧
    Forall val_event post1 ∧
    Forall is_save post2 ∧
    log_geo_loss entry = geo.1 ∧
    log_res_loss entry = res.1 ∧
    log_flo_loss entry = flo.1 ∧
    log_loss entry = (w1 args * geo.1 + w2 args * res.1 + w3 args * flo.1)%Q ∧
    log_lr entry = scheduler_lr (lr args) (steps args) (S (sched_steps w)) ∧
    log_rot_error entry = metric_after_updates geo.2 res.2 flo.2 "rot_error" ∧
    log_tr_error entry = metric_after_updates geo.2 res.2 flo.2 "tr_error" ∧
    log_flo_error entry = metric_after_updates geo.2 res.2 flo.2 "f_error" ∧
    ∀ key, pushed !! key = metric_after_updates geo.2 res.2 flo.2 key.
Proof.
  intros Hrun Hd Hback.
  destruct item as [[[images poses] disps] intrinsics].
  apply outer_step_stages in Hrun as (g & pre & Hpre & Hcases).
  cbv zeta in Hcases.
  destruct Hcases as [(e & _ & [=])|(Gs0 & w2 & r2 & Hloop & Hrest)].
  destruct r2 as [[]|e|]; [|by destruct Hrest|by destruct Hrest].
  apply after_update_Ok in Hrest
    as (rv & post1 & post2 & Hrv & Htr & Hpost1 & Hpost2).
  pose proof (restart_loop_keeps args sched_steps
                (λ _ _ _ _, eq_refl) _ _ _ _ _ _ _ _ _ _ Hloop) as Hs.
  pose proof (restart_loop_keeps args total_steps
                (λ _ _ _ _, eq_refl) _ _ _ _ _ _ _ _ _ _ Hloop) as Ht.
  unfold keeps in Hs, Ht.
  cbn [trace round_vars sched_steps total_steps] in Htr, Hrv, Hs, Ht.
  rewrite Hs, Ht in Htr.
  destruct (restart_loop_last_round args _ _ _ _ _ _ _ _ _ Hloop)
    as [->|(d0 & r' & Gs' & disp0' & geo & res & flo & Htr2 & Hd0 & Hrv2)].
  - exfalso. cbn [trace] in Htr. rewrite Htr in Hd.
    rewrite <- !app_assoc in Hd. apply app_inv_head in Hd. subst d.
    cbn in Hback. rewrite !count_events_app in Hback. cbn in Hback.
    rewrite !count_events_app in Hback. cbn in Hback.
    rewrite (count_events_none is_backward pre) in Hback.
    2:{ eapply Forall_impl; [exact Hpre|]. by intros []. }
    rewrite (count_events_none is_backward post1) in Hback.
    2:{ eapply Forall_impl; [exact Hpost1|]. by intros []. }
    rewrite (count_events_none is_backward post2) in Hback.
    2:{ eapply Forall_impl; [exact Hpost2|]. by intros []. }
    lia.
  - rewrite Hrv2 in Hrv. injection Hrv as <-.
    cbn [trace] in Htr2. rewrite Htr, Htr2 in Hd.
    rewrite <- !app_assoc in Hd. apply app_inv_head in Hd. subst d.
    exists (EvZeroGrad :: pre ++ d0), r', g, Gs', disp0', geo, res, flo, post1.
    eexists _, _, post2.
    split_and!; [ | | done | done | | | | | | | | | ].
    + cbn. by rewrite <- !app_assoc.
    + constructor; [by left|]. apply Forall_app. split.
      * eapply Forall_impl; [exact Hpre|]. intros e He. right. by left.
      * eapply Forall_impl; [exact Hd0|]. intros e He. right. by right.
    + reflexivity.
    + reflexivity.
    + reflexivity.
    + reflexivity.
    + reflexivity.
    + apply merged_metrics_lookup.
    + apply merged_metrics_lookup.
    + apply merged_metrics_lookup.
    + intros key.
      exact (merged_metrics_lookup (round_vars_of args geo res flo) key).
Qed.

Lemma logged_values_from_final_round_witness :
  outer_step (C := Demo.collab) Demo.env 0 Demo.args 5 (Demo.item 0) world0 =
    (Demo.step0.1, Ok false) ∧
  (1 ≤ count_events is_backward (trace Demo.step0.1))%nat ∧
  ∃ before r g Gs disp0 geo res flo post1 entry pushed post2,
    trace Demo.step0.1 =
        before ++ round_trace Demo.args r (Demo.item 0) g Gs disp0 geo res flo ++
        [EvClipGradNorm (clip Demo.args); EvOptimizerStep; EvSchedulerStep] ++
        post1 ++
        [EvWandbLogTrain entry (total_steps world0 + 1); EvLoggerPush pushed] ++
        post2 ∧
    Forall before_last_round before ∧
    Forall val_event post1 ∧
    Forall is_save post2 ∧
    log_geo_loss entry = geo.1 ∧
    log_res_loss entry = res.1 ∧
    log_flo_loss entry = flo.1 ∧
    log_loss entry =
      (w1 Demo.args * geo.1 + w2 Demo.args * res.1 + w3 Demo.args * flo.1)%Q ∧
    log_lr entry =
      scheduler_lr (Collab := Demo.collab) (lr Demo.args) (steps Demo.args)
        (S (sched_steps world0)) ∧
    log_rot_error entry = metric_after_updates geo.2 res.2 flo.2 "rot_error" ∧
    log_tr_error entry = metric_after_updates geo.2 res.2 flo.2 "tr_error" ∧
    log_flo_error entry = metric_after_updates geo.2 res.2 flo.2 "f_error" ∧
    ∀ key, pushed !! key = metric_after_updates geo.2 res.2 flo.2 key.
Proof.
  assert (H1 : outer_step (C := Demo.collab) Demo.env 0 Demo.args 5
                 (Demo.item 0) world0 = (Demo.step0.1, Ok false))
    by (vm_compute; reflexivity).
  assert (H2 : trace Demo.step0.1 = trace world0 ++ trace Demo.step0.1)
    by (vm_compute; reflexivity).
  assert (H3 : (1 ≤ count_events is_backward (trace Demo.step0.1))%nat)
    by (vm_compute; lia).
  split; [exact H1|]. split; [exact H3|].
  exact (logged_values_from_final_round (C := Demo.collab) Demo.env Demo.args 5
           (Demo.item 0) world0 Demo.step0.1 false (trace Demo.step0.1) H1 H2 H3).
Defined.

(** *** Rounds per step along a whole run *)

Lemma scan_silent (d : list event) st :
  Forall silent d → foldl scan st d = st.
Proof.
  intros Hd. revert st. induction Hd as [|e d He _ IH]; intros st; [done|].
  cbn [foldl]. rewrite <- (IH st) at 2. f_equal. by destruct e.
Qed.

Lemma scan_rounds (d : list event) c l :
  Forall round_event d →
  foldl scan (c, l) d = ((c + count_events is_backward d)%nat, l).
Proof.
  intros Hd. revert c. induction Hd as [|e d He _ IH]; intros c.
  - cbn. f_equal. lia.
  - cbn [foldl count_events]. destruct e; try done; cbn; rewrite IH; f_equal; lia.
Qed.

Section chains.
Context `{C : Collab} (args : Args).

Lemma loop_rounds_det r pos k1 k2 :
  loop_rounds args r pos k1 → loop_rounds args r pos k2 → k1 = k2.
Proof.
  intros H1. revert k2. induction H1 as [r pos Hr|r pos k Hr _ IH]; intros k2 H2.
  - by inversion H2.
  - inversion H2 as [|? ? k' ? Hk']; subst; [done|]. f_equal. by apply IH.
Qed.

Lemma chain_snoc pos l k :
  chain args pos l → loop_rounds args 0 (pos + sum_list l) k →
  chain args pos (l ++ [k]).
Proof.
  revert pos. induction l as [|k0 l IH]; intros pos; cbn.
  - rewrite Nat.add_0_r. tauto.
  - intros [H0 Hl] Hk. split; [done|]. apply IH; [done|].
    by replace (pos + k0 + sum_list l)%nat with (pos + (k0 + sum_list l))%nat by lia.
Qed.

Lemma chain_agree pos l1 l2 t n1 n2 :
  chain args pos l1 → chain args pos l2 →
  l1 !! t = Some n1 → l2 !! t = Some n2 → n1 = n2.
Proof.
  revert pos l2 t. induction l1 as [|k1 l1 IH]; intros pos l2 t; [done|].
  destruct l2 as [|k2 l2]; [done|]. cbn. intros [H1 Hl1] [H2 Hl2].
  pose proof (loop_rounds_det _ _ _ _ H1 H2) as <-.
  destruct t as [|t]; cbn; [congruence|]. by eapply IH.
Qed.

Lemma restart_loop_Ok_rounds fuel item Ps g : ∀ r Gs disp0 w w',
  restart_loop args fuel item Ps g r Gs disp0 w = (w', Ok ()) →
  ∃ d,
    trace w' = trace w ++ d ∧
    loop_rounds args r (rng_pos w) (count_events is_backward d) ∧
    rng_pos w' = (rng_pos w + count_events is_backward d)%nat.
Proof.
  induction fuel as [|fuel IH]; intros r Gs disp0 w w'; simpl.
  - destruct (Qlt_le_dec _ _) as [|Hr]; [done|]. intros [= ->].
    exists []. rewrite app_nil_r. cbn.
    split_and!; [done | | lia]. constructor. by apply Qle_not_lt.
  - destruct (Qlt_le_dec _ _) as [Hr|Hr].
    + intros Hrun.
      apply bind_inv in Hrun as [(w1 & st & Hround & Hloop)|[(e & _ & ?)|[_ ?]]];
        [|done|done].
      destruct (refinement_round_Ok _ _ _ _ _ _ _ _ _ Hround)
        as (geo & res & flo & Htr & _ & Hst & Hpos & _).
      destruct (IH _ _ _ _ _ Hloop) as (d & Hd & Hk & Hp).
      exists (round_trace args st.1.1 item g Gs disp0 geo res flo ++ d).
      rewrite count_events_app, round_trace_backward.
      split_and!.
      * rewrite Hd, Htr. by rewrite <- app_assoc.
      * constructor; [done|]. rewrite <- Hst. by rewrite Hpos in Hk.
      * lia.
    + intros [= ->]. exists []. rewrite app_nil_r. cbn.
      split_and!; [done | | lia]. constructor. by apply Qle_not_lt.
Qed.

End chains.

Lemma sum_list_snoc (l : list nat) (k : nat) :
  sum_list (l ++ [k]) = (sum_list l + k)%nat.
Proof. induction l as [|x l IH]; cbn; [lia | rewrite IH; lia]. Qed.

Lemma at_boundary_sound `{Collab} args w l : at_boundary args w l → sound args w.
Proof. intros (Hs & Hc & _). unfold sound, rounds_per_step. by rewrite Hs. Qed.

Lemma silent_graph_event e : graph_event e → silent e.
Proof. by destruct e. Qed.

Lemma silent_report_event e : report_event e → silent e.
Proof. destruct e as [| | | | | | | |[]| |[]| | | | | | | | | | | | | | |]; by try done. Qed.

Section whole_run.
Context `{C : Collab} (env : Env) (gpu : Z) (args : Args).

Lemma outer_step_boundary fuel item w w' res l :
  at_boundary args w l →
  outer_step env gpu args fuel item w = (w', res) →
  sound args w' ∧ ∀ b, res = Ok b → ∃ k, at_boundary args w' (l ++ [k]).
Proof.
  intros (Hscan & Hchain & Hpos) Hrun.
  destruct item as [[[images poses] disps] intrinsics].
  apply outer_step_stages in Hrun as (g & pre & Hpre & Hcases).
  cbv zeta in Hcases.
  assert (Hscan1 : foldl scan (0%nat, []) (trace w ++ EvZeroGrad :: pre) = (0%nat, l)).
  { rewrite foldl_app, Hscan. cbn [foldl scan snd].
    apply scan_silent. eapply Forall_impl; [exact Hpre | apply silent_graph_event]. }
  destruct Hcases as [(e & -> & ->)|(Gs0 & w2 & r2 & Hloop & Hrest)].
  - split; [|done]. unfold sound, rounds_per_step. cbn [trace]. by rewrite Hscan1.
  - destruct (restart_loop_grows args _ _ _ _ _ _ _ _ _ _ Hloop)
      as (rounds & Hrounds & Hround_events).
    cbn [trace] in Hrounds.
    assert (Hscan2 : foldl scan (0%nat, []) (trace w2) =
                     (count_events is_backward rounds, l)).
    { by rewrite Hrounds, foldl_app, Hscan1, scan_rounds. }
    assert (Hsound2 : sound args w2).
    { unfold sound, rounds_per_step. by rewrite Hscan2. }
    destruct r2 as [[]|e|]; [|by destruct Hrest as [-> ->]|by destruct Hrest as [-> ->]].
    destruct (restart_loop_Ok_rounds args _ _ _ _ _ _ _ _ _ Hloop)
      as (d & Hd & Hk & Hp).
    cbn [trace rng_pos] in Hd, Hk, Hp.
    rewrite Hrounds in Hd. apply app_inv_head in Hd. subst d.
    destruct (after_update_grows env gpu args g _ _ _ Hrest)
      as (post & Hpost & Hpost_events).
    pose proof (after_update_keeps env gpu args rng_pos
                  (λ _ _ _ _, eq_refl) (λ _ _, eq_refl) g _ _ _ Hrest) as Hr.
    unfold keeps in Hr. cbn [trace rng_pos] in Hpost, Hr.
    assert (Hb : at_boundary args w' (l ++ [count_events is_backward rounds])).
    { split_and!.
      - rewrite Hpost, !foldl_app, Hscan2. cbn [foldl scan fst snd].
        apply scan_silent.
        eapply Forall_impl; [exact Hpost_events | apply silent_report_event].
      - apply chain_snoc; [done|]. by rewrite <- Hpos.
      - rewrite Hr, Hp, sum_list_snoc. lia. }
    split; [by eapply at_boundary_sound | eauto].
Qed.

Lemma train_epoch_boundary fuel batches : ∀ w w' res l,
  at_boundary args w l →
  train_epoch env gpu args fuel batches w = (w', res) →
  sound args w' ∧ ∀ b, res = Ok b → ∃ l', at_boundary args w' l'.
Proof.
  induction batches as [|indices rest IH]; intros w w' res l Hb; simpl.
  - intros [= <- <-]. split; [by eapply at_boundary_sound | eauto].
  - rewrite bind_unfold. cbn [fetch_train].
    set (w0 := World _ _ _ _ _ _ _ _ _).
    assert (Hb0 : at_boundary args w0 l) by done.
    rewrite bind_unfold.
    destruct (outer_step env gpu args fuel _ w0) as [w1 [stop|e|]] eqn:Hstep;
      destruct (outer_step_boundary _ _ _ _ _ _ Hb0 Hstep) as [Hs Hok].
    + destruct (Hok stop eq_refl) as [k Hb1].
      destruct stop.
      * intros [= <- <-]. split; [done | eauto].
      * by apply IH with (l := l ++ [k]).
    + by intros [= <- <-].
    + by intros [= <- <-].
Qed.

Lemma train_loop_boundary fuel epochs : ∀ w w' res l,
  at_boundary args w l →
  train_loop env gpu args fuel epochs w = (w', res) →
  sound args w' ∧ ∀ b, res = Ok b → ∃ l', at_boundary args w' l'.
Proof.
  induction epochs as [|epochs IH]; intros w w' res l Hb; simpl.
  - intros [= <- <-]. split; [by eapply at_boundary_sound | done].
  - rewrite bind_unfold. cbn [emit].
    set (w0 := with_trace _ _).
    assert (Hb0 : at_boundary args w0 l).
    { destruct Hb as (Hs & Hc & Hp). split_and!; [|done|done].
      subst w0. unfold with_trace. cbn [trace]. by rewrite foldl_app, Hs. }
    rewrite bind_unfold.
    destruct (train_epoch env gpu args fuel _ w0) as [w1 [keep|e|]] eqn:Hepoch;
      destruct (train_epoch_boundary _ _ _ _ _ _ Hb0 Hepoch) as [Hs Hok].
    + destruct (Hok keep eq_refl) as [l' Hb1].
      destruct keep.
      * by apply IH with (l := l').
      * intros [= <- <-]. split; [done | eauto].
    + by intros [= <- <-].
    + by intros [= <- <-].
Qed.

Lemma train_sound fuel : sound args (train env gpu args fuel world0).1.
Proof.
  destruct (train env gpu args fuel world0) as [w' res] eqn:Hrun.
  revert Hrun. unfold train. rewrite bind_unfold. cbn [emit].
  set (w0 := with_trace _ _).
  assert (Hb0 : at_boundary args w0 []) by done.
  rewrite bind_unfold.
  destruct (setup env gpu args w0) as [ws rs] eqn:Hsetup.
  destruct (setup_run _ _ _ _ _ _ Hsetup) as (ds & -> & Hds & Hrs).
  set (ws := with_trace w0 _).
  assert (Hbs : at_boundary args ws []).
  { destruct Hb0 as (Hs & Hc & Hp). split_and!; [|done|done].
    subst ws. unfold with_trace. cbn [trace]. rewrite foldl_app, Hs.
    apply scan_silent. eapply Forall_impl; [exact Hds|]. by intros []. }
  destruct rs as [[]|e|]; [|intros [= <- <-]; by eapply at_boundary_sound|done].
  rewrite bind_unfold.
  destruct (train_loop env gpu args fuel fuel ws) as [w1 [[]|e|]] eqn:Hloop;
    destruct (train_loop_boundary _ _ _ _ _ _ Hbs Hloop) as [Hs Hok];
    [|by intros [= <- <-]|by intros [= <- <-]].
  destruct (Hok () eq_refl) as (l' & Hscan & Hchain & _).
  unfold mbind, M_bind, emit, with_trace. cbn. intros [= <- <-].
  unfold sound, rounds_per_step. cbn [fst trace].
  by rewrite !foldl_app, Hscan.
Qed.

End whole_run.

(** *** The restart draws along a whole run *)

#[global] Instance stays_on_stream_preorder `{Collab} : PreOrder stays_on_stream.
Proof. split; unfold stays_on_stream; [by intros w | intros w1 w2 w3; tauto]. Qed.

Lemma draws_of_app (d1 d2 : list event) :
  draws_of (d1 ++ d2) = draws_of d1 ++ draws_of d2.
Proof. unfold draws_of. by rewrite omap_app. Qed.

Lemma draws_of_no_draw (d : list event) : Forall no_draw d → draws_of d = [].
Proof.
  induction 1 as [|e d He _ IH]; [done|]. destruct e; try done; exact IH.
Qed.

Section streams.
Context `{C : Collab} (env : Env) (gpu : Z) (args : Args).

(** A statement that draws nothing and leaves the generator alone. *)
Lemma stream_untouched {A} (m : M A) :
  respects (grows no_draw) m → respects (keeps rng_pos) m →
  respects stays_on_stream m.
Proof.
  intros Hg Hk w w' r Hrun Hon.
  destruct (Hg _ _ _ Hrun) as (d & Hd & Hno). specialize (Hk _ _ _ Hrun).
  unfold on_stream, keeps in *.
  by rewrite Hd, draws_of_app, (draws_of_no_draw d Hno), app_nil_r, Hk.
Qed.

Lemma refinement_round_stream item Ps g Gs disp0 :
  respects stays_on_stream (refinement_round args item Ps g Gs disp0).
Proof.
  intros w w' r. destruct item as [[[images poses] disps] intrinsics].
  unfold refinement_round, mbind, M_bind, mret, M_ret, rng_random, call_model,
    call_geodesic_loss, call_residual_loss, call_flow_loss, set_round_vars,
    emit, with_trace, from_option, raise. cbn.
  destruct (DroidNet _ _ _ _ _ _ _ _ _) as [[poses_est disps_est] residuals].
  cbn.
  destruct (last_item poses_est) as [Gs'|]; cbn;
    [destruct (last_item disps_est) as [d|]; cbn|];
    intros [= <- _] Hon; unfold on_stream in *; cbn [trace rng_pos];
    rewrite !draws_of_app, Hon, seq_S, fmap_app; cbn;
    by rewrite !app_nil_r.
Qed.

Lemma restart_loop_stream fuel item Ps g r Gs disp0 :
  respects stays_on_stream (restart_loop args fuel item Ps g r Gs disp0).
Proof.
  revert r Gs disp0. induction fuel as [|fuel IH]; intros r Gs disp0; simpl.
  - destruct (Qlt_le_dec _ _); [apply respects_timeout | apply respects_ret];
      apply _.
  - destruct (Qlt_le_dec _ _); [|apply respects_ret; apply _].
    apply respects_bind; [apply _ | apply refinement_round_stream | intros st].
    apply IH.
Qed.

Lemma quiet_emit_stream (e : event) :
  no_draw e → respects stays_on_stream (emit e).
Proof.
  intros He. apply stream_untouched.
  - by apply grows_emit.
  - by intros w w' r [= <- _].
Qed.

Lemma outer_step_stream fuel item :
  respects stays_on_stream (outer_step env gpu args fuel item).
Proof.
  unfold outer_step. destruct item as [[[images poses] disps] intrinsics].
  cbv zeta.
  apply respects_bind; [apply _ | by apply quiet_emit_stream | intros _].
  apply respects_bind; [apply _ | | intros g].
  { apply stream_untouched.
    - eapply grows_mono; [|apply choose_graph_grows]. by intros [].
    - intros w w' r Hrun.
      destruct (choose_graph_run env args poses disps intrinsics w)
        as (g & pre & Hg & _).
      rewrite Hg in Hrun. by injection Hrun as <- _. }
  apply respects_bind; [apply _ | | intros Gs].
  { apply stream_untouched.
    - eapply grows_mono; [|apply fix_first_poses_grows]. by intros e [].
    - intros w w' r Hrun. by apply fix_first_poses_frame in Hrun as ->. }
  apply respects_bind; [apply _ | apply restart_loop_stream | intros _].
  apply respects_bind; [apply _ | | intros _].
  { apply stream_untouched.
    - eapply grows_mono; [|apply optimizer_update_grows]. by intros [].
    - intros w w' r. rewrite optimizer_update_run. by intros [= <- _]. }
  apply stream_untouched.
  - eapply grows_mono; [|apply after_update_grows].
    intros e He. by destruct e.
  - apply after_update_keeps; done.
Qed.

Lemma train_epoch_stream fuel batches :
  respects stays_on_stream (train_epoch env gpu args fuel batches).
Proof.
  induction batches as [|indices rest IH]; simpl.
  - apply respects_ret; apply _.
  - apply respects_bind; [apply _ | | intros item].
    { apply stream_untouched; [apply grows_fetch_train | by intros w w' r [= <- _]]. }
    apply respects_bind; [apply _ | apply outer_step_stream | intros stop].
    destruct stop; [apply respects_ret; apply _ | apply IH].
Qed.

Lemma train_loop_stream fuel epochs :
  respects stays_on_stream (train_loop env gpu args fuel epochs).
Proof.
  induction epochs as [|epochs IH]; simpl.
  - apply respects_timeout; apply _.
  - apply respects_bind; [apply _ | by apply quiet_emit_stream | intros _].
    apply respects_bind; [apply _ | apply train_epoch_stream | intros keep].
    destruct keep; [apply IH | apply respects_ret; apply _].
Qed.

Lemma train_stream fuel :
  respects stays_on_stream (train env gpu args fuel).
Proof.
  unfold train.
  apply respects_bind; [apply _ | by apply quiet_emit_stream | intros _].
  apply respects_bind; [apply _ | | intros _].
  { apply stream_untouched.
    - eapply grows_mono; [|apply setup_grows]. by intros [].
    - by apply setup_keeps. }
  apply respects_bind; [apply _ | apply train_loop_stream | intros _].
  apply respects_bind; [apply _ | by apply quiet_emit_stream | intros _].
  by apply quiet_emit_stream.
Qed.

(** Every restart draw of a run is the value of the stream of seed
    [rng_seed] at its index. *)
Lemma train_draws fuel i r :
  draws_of (trace (train env gpu args fuel world0).1) !! i = Some r →
  r = default_rng rng_seed i.
Proof.
  destruct (train env gpu args fuel world0) as [w' res] eqn:Hrun.
  pose proof (train_stream fuel _ _ _ Hrun eq_refl) as Hon.
  cbn [fst]. rewrite Hon, list_lookup_fmap.
  intros Hi. destruct (seq 0 (rng_pos w') !! i) as [j|] eqn:Hj; [|done].
  apply lookup_seq in Hj as [-> _]. by injection Hi as <-.
Qed.

End streams.

(** C3. The restart generator is built from the constant seed [rng_seed],
    whatever the rank.  Hence for two processes with the same
    configuration, whatever their ranks, their data, their graph choices
    and what their peers send: their [t]-th restart draws are equal, and
    they make the same number of rounds (backward passes) in the [t]-th
    outer step, for every step both complete. *)
Theorem rounds_agree_across_processes `{C : Collab} (args : Args)
    (env1 env2 : Env) (gpu1 gpu2 : Z) (fuel1 fuel2 : nat) (t : nat) :
  (∀ r1 r2,
     draws_of (trace (train env1 gpu1 args fuel1 world0).1) !! t = Some r1 →
     draws_of (trace (train env2 gpu2 args fuel2 world0).1) !! t = Some r2 →
     r1 = r2) ∧
  (∀ n1 n2,
     rounds_per_step (trace (train env1 gpu1 args fuel1 world0).1) !! t = Some n1 →
     rounds_per_step (trace (train env2 gpu2 args fuel2 world0).1) !! t = Some n2 →
     n1 = n2).
Proof.
  split.
  - intros r1 r2 H1 H2.
    apply train_draws in H1. apply train_draws in H2. congruence.
  - intros n1 n2 H1 H2.
    eapply (chain_agree args 0); [apply (train_sound env1 gpu1) |
      apply (train_sound env2 gpu2) | exact H1 | exact H2].
Qed.

Lemma rounds_agree_across_processes_witness :
  draws_of
    (trace (train (C := Demo.collab) Demo.env 0 Demo.args 10 world0).1) !! 1%nat
    = Some (3 # 20)%Q ∧
  draws_of
    (trace (train (C := Demo.collab) Demo.env1 1 Demo.args 10 world0).1) !! 1%nat
    = Some (3 # 20)%Q ∧
  rounds_per_step
    (trace (train (C := Demo.collab) Demo.env 0 Demo.args 10 world0).1) !! 1%nat
    = Some 2%nat ∧
  rounds_per_step
    (trace (train (C := Demo.collab) Demo.env1 1 Demo.args 10 world0).1) !! 1%nat
    = Some 2%nat ∧
  (3 # 20)%Q = (3 # 20)%Q ∧
  2%nat = 2%nat.
Proof.
  assert (D1 : draws_of
                 (trace (train (C := Demo.collab) Demo.env 0 Demo.args 10 world0).1)
                 !! 1%nat = Some (3 # 20)%Q) by (vm_compute; reflexivity).
  assert (D2 : draws_of
                 (trace (train (C := Demo.collab) Demo.env1 1 Demo.args 10 world0).1)
                 !! 1%nat = Some (3 # 20)%Q) by (vm_compute; reflexivity).
  assert (H1 : rounds_per_step
                 (trace (train (C := Demo.collab) Demo.env 0 Demo.args 10 world0).1)
                 !! 1%nat = Some 2%nat) by (vm_compute; reflexivity).
  assert (H2 : rounds_per_step
                 (trace (train (C := Demo.collab) Demo.env1 1 Demo.args 10 world0).1)
                 !! 1%nat = Some 2%nat) by (vm_compute; reflexivity).
  split; [exact D1|]. split; [exact D2|]. split; [exact H1|]. split; [exact H2|].
  split.
  - exact (proj1 (rounds_agree_across_processes (C := Demo.collab) Demo.args
             Demo.env Demo.env1 0 1 10 10 1) _ _ D1 D2).
  - exact (proj2 (rounds_agree_across_processes (C := Demo.collab) Demo.args
             Demo.env Demo.env1 0 1 10 10 1) _ _ H1 H2).
Defined.

Example demo_rounds_per_step :
  rounds_per_step
    (trace (train (C := Demo.collab) Demo.env 0 Demo.args 10 world0).1)
  = [3; 2; 3]%nat.
Proof. vm_compute. reflexivity. Qed.

End Runs.

(** ** The command line does not check the restart probability *)

Module MainFacts.
Import Py FrameGraph Torch Train Main Observe Runs.

Lemma parse_args_main (l : argv) (a : Args) :
  parse_args l = Some a →
  main l = Spawned ((λ i, (i, set_world_size (gpus a) a)) <$> range (gpus a)).
Proof. intros H. unfold main. by rewrite H. Qed.

Section zero_rounds.
Context `{C : Collab} (env : Env) (gpu : Z) (args : Args).

(** With a non-positive restart probability and no round run before, a
    step makes no round, updates the optimizer, and stops where it reads
    the names a round would have bound. *)
Lemma outer_step_zero_rounds fuel images poses disps intrinsics w :
  (restart_prob args <= 0)%Q →
  round_vars w = None →
  Forall (λ row : T2, (2 ≤ length row)%nat) poses →
  ∃ w' pre,
    outer_step env gpu args fuel (images, poses, disps, intrinsics) w =
      (w', Raise UnboundLocalError) ∧
    trace w' = trace w ++ EvZeroGrad :: pre ++
      [EvClipGradNorm (clip args); EvOptimizerStep; EvSchedulerStep] ∧
    Forall graph_event pre.
Proof.
  intros Hp Hrv HN.
  unfold outer_step. rewrite bind_unfold. cbn [emit].
  set (w0 := with_trace w _).
  destruct (choose_graph_run env args poses disps intrinsics w0)
    as (g & pre & Hg & Hpre & _).
  rewrite bind_unfold, Hg. set (w1 := World _ _ _ _ _ _ _ _ _).
  assert (HN' : Forall (λ row : T2, (2 ≤ length row)%nat) (SE3_inv poses)).
  { unfold SE3_inv. apply Forall_fmap. eapply Forall_impl; [exact HN|].
    intros row Hrow. simpl in *. by rewrite length_fmap. }
  destruct (fix_first_poses_spec (SE3_inv poses) w1 HN') as (Gs0 & HGs & _).
  rewrite bind_unfold, HGs.
  rewrite bind_unfold, restart_loop_exit by by apply Qle_not_lt.
  rewrite bind_unfold, optimizer_update_run.
  unfold after_update. rewrite bind_unfold. unfold read_round_vars.
  subst w1 w0. unfold with_trace. cbn [round_vars trace]. rewrite Hrv.
  eexists _, pre. split_and!; [done | | done].
  cbn [trace]. by rewrite <- !app_assoc.
Qed.

End zero_rounds.

(** C4 on the code.  Nothing stands between [parse_args] and [mp.spawn]:
    whenever the command line parses, the main block spawns the training
    processes with the parsed restart probability, whatever its sign.
    With a non-positive one, the first outer step of a process (no round
    has run yet) makes no refinement round, still clips and steps
    optimizer and scheduler, and then stops with [UnboundLocalError],
    where it reads the metrics a round would have bound. *)
Theorem restart_prob_not_validated (l : argv) (a : Args) :
  parse_args l = Some a →
  main l = Spawned ((λ i, (i, set_world_size (gpus a) a)) <$> range (gpus a)) ∧
  restart_prob (set_world_size (gpus a) a) = restart_prob a ∧
  ∀ (C : Collab) env gpu fuel images poses disps intrinsics w,
    (restart_prob a <= 0)%Q →
    round_vars w = None →
    Forall (λ row : T2, (2 ≤ length row)%nat) poses →
    ∃ w' pre,
      outer_step env gpu (set_world_size (gpus a) a) fuel
        (images, poses, disps, intrinsics) w = (w', Raise UnboundLocalError) ∧
      trace w' = trace w ++ EvZeroGrad :: pre ++
        [EvClipGradNorm (clip a); EvOptimizerStep; EvSchedulerStep] ∧
      Forall graph_event pre.
Proof.
  intros Hparse. split; [by apply parse_args_main|]. split; [done|].
  intros C env gpu fuel images poses disps intrinsics w Hp Hrv HN.
  by apply (outer_step_zero_rounds env gpu (set_world_size (gpus a) a)).
Qed.

(** The command line [--restart_prob 0]: four processes are spawned, and
    the first step of process 0 stops as said. *)
Lemma restart_prob_not_validated_witness :
  parse_args Demo.zero_restart = Some (set_restart_prob 0 defaults) ∧
  (restart_prob (set_restart_prob 0 defaults) <= 0)%Q ∧
  main Demo.zero_restart =
    Spawned ((λ i, (i, Demo.zero_restart_args)) <$> [0; 1; 2; 3]) ∧
  ∃ w' pre,
    outer_step (C := Demo.collab) Demo.env 0 Demo.zero_restart_args 5
      (Demo.images, Demo.poses 0, Demo.disps, Demo.intrinsics) world0 =
      (w', Raise UnboundLocalError) ∧
    trace w' = trace world0 ++ EvZeroGrad :: pre ++
      [EvClipGradNorm (clip (set_restart_prob 0 defaults)); EvOptimizerStep;
       EvSchedulerStep] ∧
    Forall graph_event pre.
Proof.
  assert (H : parse_args Demo.zero_restart = Some (set_restart_prob 0 defaults))
    by reflexivity.
  assert (Hp : (restart_prob (set_restart_prob 0 defaults) <= 0)%Q)
    by discriminate.
  assert (HN : Forall (λ row : T2, (2 ≤ length row)%nat) (Demo.poses 0))
    by repeat constructor.
  split; [exact H|]. split; [exact Hp|].
  split; [exact (proj1 (restart_prob_not_validated _ _ H))|].
  exact (proj2 (proj2 (restart_prob_not_validated _ _ H)) Demo.collab Demo.env
           0 5%nat Demo.images (Demo.poses 0) Demo.disps Demo.intrinsics world0
           Hp eq_refl HN).
Defined.

(** The whole run of process 0 under [--restart_prob 0]: it joins the
    group, opens the wandb run, takes its first batch, and stops in the
    first step. *)
Example zero_restart_run :
  main Demo.zero_restart ≠ UsageError ∧
  train (C := Demo.collab) Demo.env 0 Demo.zero_restart_args 10 world0 =
    (World [EvInitProcessGroup 4 0; EvWandbInit; EvSamplerIter true [0%nat];
            EvZeroGrad; EvNpRandom (3 # 4);
            EvClipGradNorm (25 # 10); EvOptimizerStep; EvSchedulerStep]
       0 1 1 0 0 1 0 None,
     Raise UnboundLocalError).
Proof. split; [discriminate | by vm_compute]. Qed.

(** An abbreviated option is accepted as argparse accepts it. *)
Example abbreviated_option :
  parse_args
    [("--restart",
      [{| Main.text := "0"; Main.as_int := Some 0; Main.as_float := Some 0%Q |}])] =
    Some (set_restart_prob 0 defaults) ∧
  parse_args [("--s", [{| Main.text := "3"; Main.as_int := Some 3;
                          Main.as_float := Some 3%Q |}])] = None.
Proof. split; reflexivity. Qed.

End MainFacts.

(** ** Where the code departs from its description *)

Module Departures.
Import Py FrameGraph Torch Train Main Observe Runs.

(** *** Validation reduction *)

Section validation.
Context `{C : Collab} (env : Env) (args : Args).

(** A validation batch hands the window graph to the network and to the
    flow loss, and the graph [g] it was given to the geodesic loss. *)
Lemma val_batch_Ok g item acc w w' acc' :
  val_batch args g item acc w = (w', Ok acc') →
  v_batch acc' = v_batch acc ∧ tensors_match acc' ∧
  ∃ Gs images disp0 intrinsics0 geo flo,
    trace w' = trace w ++
      [EvModel false Gs images disp0 intrinsics0 (val_graph (N args)) (iters args) 2;
       EvGeodesicLoss g None geo;
       EvFlowLoss (val_graph (N args)) flo].
Proof.
  destruct item as [[[images poses] disps] intrinsics].
  unfold val_batch. cbv zeta. intros Hrun.
  apply bind_inv in Hrun as [(w1 & Gs & Hfix & Hrun)|[(e & _ & ?)|[_ ?]]];
    [|done|done].
  apply fix_first_poses_frame in Hfix as ->.
  revert Hrun.
  unfold call_model, call_geodesic_loss, call_flow_loss, add_metric, emit,
    with_trace, from_option, raise, mbind, M_bind, mret, M_ret. cbn.
  destruct (DroidNet _ _ _ _ _ _ _ _ _) as [[poses_est disps_est] residuals].
  cbn.
  destruct ((geodesic_loss _ _ _ _).2 !! "rot_error") as [x|]; cbn; [|done].
  destruct ((geodesic_loss _ _ _ _).2 !! "tr_error") as [y|]; cbn; [|done].
  destruct ((flow_loss _ _ _ _ _ _).2 !! "f_error") as [z|]; cbn; [|done].
  intros [= <- <-]. cbn. split; [done|]. split.
  { intros t [= <-]. done. }
  eexists _, _, _, _, _, _. by rewrite <- !app_assoc.
Qed.

(** After the loop, [v_batch] is the index of the last batch the loader
    yielded, or 500 when the loop broke there. *)
Lemma val_loop_Ok g batches : ∀ v acc w w' acc',
  val_loop env args g batches v acc w = (w', Ok acc') →
  tensors_match acc →
  tensors_match acc' ∧
  (batches = [] → acc' = acc) ∧
  (batches ≠ [] → v ≤ 500 →
   v_batch acc' = Some (Z.min (v + Z.of_nat (length batches) - 1) 500)).
Proof.
  induction batches as [|indices rest IH]; intros v acc w w' acc'; simpl.
  - intros [= <- <-] Hm. done.
  - rewrite bind_unfold. cbn [fetch_val].
    destruct (decide (v = 500)) as [->|Hv].
    + intros [= <- <-] Hm. split; [done|]. split; [done|].
      intros _ _. cbn. f_equal. lia.
    + rewrite bind_unfold.
      destruct (val_batch _ _ _ _ _) as [w1 [acc1|e|]] eqn:Hbatch; [|done|done].
      intros Hloop Hm.
      apply val_batch_Ok in Hbatch as (Hvb & Hm1 & _). cbn in Hvb.
      destruct (IH _ _ _ _ _ Hloop Hm1) as (Hm' & Hnil & Hidx).
      split; [done|]. split; [done|]. intros _ Hle.
      destruct rest as [|indices' rest'].
      * rewrite (Hnil eq_refl), Hvb. cbn. f_equal. lia.
      * rewrite Hidx; [|done|lia]. f_equal. cbn [length]. lia.
Qed.

(** What a validation pass that returns normally logs on process 0: each
    local sum [s] that went into an all-reduce, divided by [v_batch] times
    the world size; the reduced values [r] are not used.  [v_batch] is one
    less than the number of batches when the loader has at most 500. *)
Lemma validation_Ok_log g w w' :
  validation env 0 args g w = (w', Ok ()) →
  ∃ pre s r vb,
    trace w' = trace w ++ pre ++
      [EvBarrier;
       EvAllReduceSum s.1.1 r.1.1;
       EvAllReduceSum s.1.2 r.1.2;
       EvAllReduceSum s.2 r.2;
       EvWandbLogVal (s.1.1 / inject_Z (vb * world_size args))
                     (s.1.2 / inject_Z (vb * world_size args))
                     (s.2 / inject_Z (vb * world_size args))
                     (total_steps w);
       EvModelTrain] ∧
    Forall val_event pre ∧
    vb = Z.min (Z.of_nat (length (chunks 2 (ds_iter (val_sampler env 0 args)))) - 1)
               500.
Proof.
  unfold validation. cbv zeta. intros Hrun.
  rewrite bind_unfold in Hrun. cbn [emit] in Hrun.
  rewrite bind_unfold in Hrun. cbn [emit] in Hrun.
  apply bind_inv in Hrun as [(wl & acc & Hloop & Hrun)|[(e & _ & ?)|[_ ?]]];
    [|done|done].
  destruct (val_loop_grows env args _ _ _ _ _ _ _ Hloop) as (d & Hd & Hd_events).
  pose proof (val_loop_keeps env args total_steps (λ _ _ _ _, eq_refl)
                _ _ _ _ _ _ _ Hloop) as Hts.
  unfold keeps in Hts.
  destruct (val_loop_Ok _ _ _ _ _ _ _ Hloop) as (Hm & Hnil & Hidx); [done|].
  revert Hrun.
  unfold mbind, M_bind, mret, M_ret, emit, with_trace, all_reduce_sum,
    from_option, raise, float_div, get_total_steps. cbn.
  destruct (tensor_val_errs acc) as [t|] eqn:Ht; cbn; [|done].
  destruct (v_batch acc) as [vb|] eqn:Hvb; cbn; [|done].
  destruct (decide (vb * world_size args = 0)); cbn; [done|].
  destruct (decide (0 = 0)) as [_|?]; [|done]. cbn.
  intros [= <-]. cbn.
  assert (Hne : chunks 2 (ds_iter (val_sampler env 0 args)) ≠ []).
  { intros Hempty. rewrite (Hnil Hempty) in Ht. done. }
  injection (Hidx Hne ltac:(lia)) as ->.
  rewrite (Hm t Ht). cbn.
  exists (EvModelEval :: EvSamplerIter false (ds_iter (val_sampler env 0 args)) :: d),
    (val_rot_error acc, val_tr_error acc, val_f_error acc),
    ((val_rot_error acc + all_reduce_peers env (reduced wl))%Q,
     (val_tr_error acc + all_reduce_peers env (S (reduced wl)))%Q,
     (val_f_error acc + all_reduce_peers env (S (S (reduced wl))))%Q),
    (Z.min (0 + Z.of_nat (length (chunks 2 (ds_iter (val_sampler env 0 args)))) - 1)
           500).
  split_and!; [|by repeat constructor|f_equal; lia].
  rewrite Hd, Hts. unfold with_trace. cbn.
  rewrite <- !app_assoc. cbn. reflexivity.
Qed.

End validation.

(** C1 on the code.  Two processes, three validation batches each, with
    rotation errors 1, 2, 3 on process 0 and 4, 5, 6 on process 1.  The
    all-reduce leaves 6 + 15 = 21 in process 0's tensor, but what process
    0 logs is its own sum 6 divided by (last batch index 2) x (world size
    2), not 21 / (3 x 2). *)
Theorem validation_logs_local_sum :
  Demo.validation_0.2 = Ok () ∧
  reductions (trace Demo.validation_0.1) = [(6, 21); (9, 27); (15, 30)]%Q ∧
  val_logs (trace Demo.validation_0.1) = [((6 # 4)%Q, (9 # 4)%Q, (15 # 4)%Q, 5000)] ∧
  ¬ (6 # 4 == 21 / (3 * 2))%Q.
Proof.
  split_and!; [by vm_compute | by vm_compute | by vm_compute | by intros H].
Qed.

(** *** Graph of the validation losses *)

(** C5 on the code.  At outer step 5000 the coin picks the heuristic
    graph for the training batch.  The first validation batch then hands
    the window graph to the network and to the flow loss, but the
    training step's heuristic graph to the geodesic loss. *)
Theorem validation_geodesic_graph :
  take 3 (graph_uses (after_model_eval (trace Demo.step_5000.1))) =
    [ByModel (val_graph 4);
     ByGeodesicLoss (od_set 0 [1; 2; 3] (window_graph 4));
     ByFlowLoss (val_graph 4)] ∧
  od_get 0 (od_set 0 [1; 2; 3] (window_graph 4)) ≠ od_get 0 (val_graph 4).
Proof. split; [by vm_compute | by vm_compute]. Qed.

(** *** Order of the training samples *)

Section orders.
Context `{C : Collab} (env : Env) (gpu : Z) (args : Args).

Lemma train_epoch_grows fuel batches :
  respects (grows step_event) (train_epoch env gpu args fuel batches).
Proof.
  induction batches as [|indices rest IH]; simpl.
  - grows_auto.
  - apply respects_bind; [apply _ | grows_auto | intros item].
    apply respects_bind; [apply _ | apply outer_step_grows | intros stop].
    destruct stop; [grows_auto | apply IH].
Qed.

Lemma step_event_same_order e : step_event e → same_order env gpu args e.
Proof.
  destruct e as [| | |[]| | | | | | | | | | | | | | | | | | | | | |]; try done.
  cbn. intros [[]|[[]|[[]|[]]]].
Qed.

Lemma train_loop_same_order fuel epochs :
  respects (grows (same_order env gpu args)) (train_loop env gpu args fuel epochs).
Proof.
  induction epochs as [|epochs IH]; simpl.
  - grows_auto.
  - apply respects_bind; [apply _ | grows_auto | intros _].
    apply respects_bind; [apply _ | | intros keep].
    + eapply grows_mono; [apply step_event_same_order | apply train_epoch_grows].
    + destruct keep; [apply IH | grows_auto].
Qed.

Lemma train_same_order fuel :
  respects (grows (same_order env gpu args)) (train env gpu args fuel).
Proof.
  unfold train.
  apply respects_bind; [apply _ | grows_auto | intros _].
  apply respects_bind; [apply _ | | intros _].
  { eapply grows_mono; [|apply setup_grows]. by intros []. }
  apply respects_bind; [apply _ | apply train_loop_same_order | intros _].
  grows_auto.
Qed.

(** Every epoch of a run hands out the training indices in the order the
    sampler gives at epoch 0. *)
Lemma train_orders_constant fuel :
  Forall (λ idx, idx = ds_iter (train_sampler env gpu args))
    (train_orders (trace (train env gpu args fuel world0).1)).
Proof.
  destruct (train env gpu args fuel world0) as [w' r] eqn:Hrun.
  destruct (train_same_order fuel _ _ _ Hrun) as (d & Htr & Hd).
  cbn [fst]. rewrite Htr. unfold world0. cbn [trace app]. clear Htr Hrun.
  induction Hd as [|e d He _ IH]; [constructor|].
  destruct e as [| | |[]| | | | | | | | | | | | | | | | | | | | | |]; cbn;
    try exact IH.
  by constructor.
Qed.

End orders.

(** C6 on the code.  Process 0 of two, a data set of four samples, one
    sample per batch, three outer steps: the run spans two epochs and
    visits the samples in the same order in both, although the
    permutation would differ had the sampler's epoch been advanced. *)
Theorem training_order_repeats :
  Demo.run0.2 = Ok () ∧
  train_orders (trace Demo.run0.1) = [[0; 2]; [0; 2]]%nat ∧
  ds_iter (H := Demo.collab)
    {| ds_len := 4; ds_num_replicas := 2; ds_rank := 0; ds_shuffle := true;
       ds_seed := 0; ds_epoch := 1 |} = [1; 3]%nat.
Proof. split_and!; by vm_compute. Qed.

End Departures.

(** ** Shape of the window graph *)

Module GraphShape.
Import Py FrameGraph PyFacts FrameGraphFacts.

Lemma od_keys_set_new {V} (k : Z) (v : V) (d : OrderedDict V) :
  k ∉ od_keys d → od_keys (od_set k v d) = od_keys d ++ [k].
Proof.
  unfold od_keys. induction d as [|[k' v'] d IH]; csimpl; [done|].
  intros Hk. apply not_elem_of_cons in Hk as [Hne Hk].
  rewrite decide_False by done. csimpl. by rewrite IH.
Qed.

Lemma od_keys_foldl_set (f : Z → list Z) (l : list Z) : ∀ g : graph,
  NoDup l → (∀ k, k ∈ l → k ∉ od_keys g) →
  od_keys (foldl (λ g i, od_set i (f i) g) g l) = od_keys g ++ l.
Proof.
  induction l as [|a l IH]; intros g Hnd Hfresh; cbn [foldl].
  - by rewrite app_nil_r.
  - apply NoDup_cons in Hnd as [Ha Hnd].
    rewrite IH; [| done |].
    + rewrite od_keys_set_new by (apply Hfresh; by left).
      by rewrite <- app_assoc.
    + intros k Hk. rewrite od_keys_set_new by (apply Hfresh; by left).
      rewrite elem_of_app, list_elem_of_singleton.
      intros [Hin| ->]; [|done]. eapply Hfresh; [by right | done].
Qed.

Lemma StronglySorted_lt_seq (a n : nat) : StronglySorted lt (seq a n).
Proof.
  revert a. induction n as [|n IH]; intros a; simpl; constructor; [apply IH|].
  apply Forall_forall. intros x Hx. apply elem_of_seq in Hx. lia.
Qed.

Lemma StronglySorted_range (n : Z) : StronglySorted Z.lt (range n).
Proof.
  unfold range. eapply StronglySorted_fmap; [|apply StronglySorted_lt_seq].
  intros x y. lia.
Qed.

Lemma StronglySorted_filter {A} (R : relation A) (P : A → Prop)
    `{∀ x, Decision (P x)} (l : list A) :
  StronglySorted R l → StronglySorted R (filter P l).
Proof.
  induction 1 as [|x l Hl IH Hx]; [constructor|].
  rewrite filter_cons. destruct (decide (P x)); [|done].
  constructor; [done|]. apply Forall_forall. intros y Hy.
  apply list_elem_of_filter in Hy as [_ Hy].
  by eapply Forall_forall in Hx.
Qed.

#[local] Instance Zlt_antisymm : AntiSymm eq Z.lt.
Proof. intros x y. lia. Qed.

Lemma window_neighbours_closed (N i : Z) :
  0 ≤ i < N →
  window_neighbours N i = filter (λ j, 0 ≤ j < N) [i - 2; i - 1; i + 1; i + 2].
Proof.
  intros Hi. apply (StronglySorted_unique Z.lt).
  - apply StronglySorted_filter, StronglySorted_range.
  - apply StronglySorted_filter.
    repeat (constructor; [|repeat constructor; lia]). constructor.
  - apply NoDup_Permutation.
    + apply NoDup_window_neighbours.
    + apply NoDup_filter.
      repeat (apply NoDup_cons_2; [rewrite ?elem_of_cons, elem_of_nil; lia|]).
      apply NoDup_nil_2.
    + intros j. rewrite elem_of_window_neighbours, list_elem_of_filter.
      rewrite !elem_of_cons, elem_of_nil. lia.
Qed.

(** X7. The window graph lists the frames in order: its keys are
    [0, 1, ..., N-1], one entry per frame, for the training branch and for
    validation alike; for [N ≤ 0] it is empty. *)
Theorem window_graph_keys (N : Z) :
  od_keys (train_window_graph N) = range N ∧
  od_keys (val_graph N) = range N ∧
  length (window_graph N) = Z.to_nat N.
Proof.
  assert (H : od_keys (window_graph N) = range N).
  { unfold window_graph. rewrite od_keys_foldl_set; [done | apply NoDup_range |].
    intros k _. apply not_elem_of_nil. }
  split_and!; [done | done |].
  rewrite <- (length_fmap fst). fold (od_keys (window_graph N)). rewrite H.
  unfold range. by rewrite length_fmap, length_seq.
Qed.

(** X8. The entry of frame [i] is the list [i-2, i-1, i+1, i+2] without the
    indices that fall outside [[0, N)]: neighbours come in increasing
    order and a frame has at most four of them. *)
Theorem window_graph_entry (N i : Z) :
  0 ≤ i < N →
  od_get i (window_graph N) =
    Some (filter (λ j, 0 ≤ j < N) [i - 2; i - 1; i + 1; i + 2]) ∧
  ∀ ns, od_get i (window_graph N) = Some ns → (length ns ≤ 4)%nat.
Proof.
  intros Hi. rewrite window_graph_get, window_neighbours_closed by done.
  split; [done|]. intros ns [= <-].
  etrans; [apply length_filter | done].
Qed.

Lemma window_graph_entry_witness :
  0 ≤ 1 < 7 ∧
  od_get 1 (window_graph 7) =
    Some (filter (λ j, 0 ≤ j < 7) [1 - 2; 1 - 1; 1 + 1; 1 + 2]) ∧
  ∀ ns, od_get 1 (window_graph 7) = Some ns → (length ns ≤ 4)%nat.
Proof. split; [lia | apply (window_graph_entry 7 1); lia]. Defined.

(** X9. The window graph is symmetric: [j] is listed for [i] exactly when
    [i] is listed for [j]. *)
Theorem window_graph_symmetric (N i j : Z) (ni nj : list Z) :
  od_get i (window_graph N) = Some ni →
  od_get j (window_graph N) = Some nj →
  j ∈ ni ↔ i ∈ nj.
Proof.
  intros Hi Hj.
  destruct (decide (0 ≤ i < N)) as [Hi'|Hi']; [|by rewrite window_graph_get_out in Hi].
  destruct (decide (0 ≤ j < N)) as [Hj'|Hj']; [|by rewrite window_graph_get_out in Hj].
  rewrite window_graph_get in Hi, Hj by done.
  injection Hi as <-. injection Hj as <-.
  rewrite !elem_of_window_neighbours. lia.
Qed.

Lemma window_graph_symmetric_witness :
  od_get 0 (window_graph 7) = Some [1; 2] ∧
  od_get 2 (window_graph 7) = Some [0; 1; 3; 4] ∧
  (2 ∈ [1; 2] ↔ 0 ∈ [0; 1; 3; 4]).
Proof.
  split; [reflexivity|]. split; [reflexivity|].
  exact (window_graph_symmetric 7 0 2 [1; 2] [0; 1; 3; 4] eq_refl eq_refl).
Defined.

End GraphShape.

(** ** Shape of the initial inverse depth *)

Module ShapeFacts.
Import Torch Train Shape TorchFacts.

Lemma length_every {A} (step : nat) (l : list A) : ∀ skip,
  (0 < step)%nat →
  length (every step skip l) = ((length l + (step - 1) - skip) / step)%nat.
Proof.
  induction l as [|x l IH]; intros skip Hstep.
  - simpl. symmetry. apply Nat.div_small. lia.
  - destruct skip as [|s]; cbn [every length].
    + rewrite IH by done.
      replace (length l + (step - 1) - pred step)%nat with (length l) by lia.
      replace (S (length l) + (step - 1) - 0)%nat with (length l + 1 * step)%nat by lia.
      rewrite Nat.div_add by lia. lia.
    + rewrite IH by done. f_equal.
Qed.

Lemma length_slice_3_8 {A} (l : list A) :
  length (slice_from_step 3 8 l) = downsampled (length l).
Proof.
  unfold slice_from_step, downsampled. rewrite length_every by lia.
  f_equal. lia.
Qed.

(** X11. The initial inverse depth of a [B x N x H x W] batch of depth maps
    has shape [B x N x (H+4)/8 x (W+4)/8] (integer division): one entry per
    pixel [3, 11, 19, ...] along each image axis, none when the axis is
    shorter than 4. *)
Theorem initial_disp_shape (disps : T4) (B N H W : nat) :
  has_shape4 disps B N H W →
  has_shape4 (initial_disp disps) B N (downsampled H) (downsampled W).
Proof.
  intros [HB Hrest]. unfold initial_disp, ones_like, downsample8, has_shape4.
  rewrite !length_fmap. split; [done|].
  rewrite <- !list_fmap_compose. apply Forall_fmap.
  eapply Forall_impl; [exact Hrest|]. intros tb [HN Himgs]. simpl.
  rewrite !length_fmap. split; [done|].
  rewrite <- !list_fmap_compose. apply Forall_fmap.
  eapply Forall_impl; [exact Himgs|]. intros img [HH Hrows]. simpl.
  rewrite !length_fmap, length_slice_3_8, HH. split; [done|].
  rewrite <- !list_fmap_compose. apply Forall_fmap.
  assert (Hsub : Forall (λ row : T1, length row = W) (slice_from_step 3 8 img)).
  { apply Forall_forall. intros row Hrow.
    apply list_elem_of_lookup in Hrow as [k Hk].
    unfold slice_from_step in Hk. rewrite every_lookup in Hk by lia.
    eapply Forall_lookup_1 in Hrows; [|exact Hk]. done. }
  eapply Forall_impl; [exact Hsub|]. intros row HW. simpl.
  by rewrite length_fmap, length_slice_3_8, HW.
Qed.

Lemma initial_disp_shape_witness :
  has_shape4 Demo.disps 1 1 16 16 ∧
  has_shape4 (initial_disp Demo.disps) 1 1 2 2.
Proof.
  assert (Hs : has_shape4 Demo.disps 1 1 16 16).
  { split; [reflexivity|]. repeat constructor. }
  split; [exact Hs|].
  exact (initial_disp_shape Demo.disps 1 1 16 16 Hs).
Defined.

End ShapeFacts.

(** ** Validation *)

Module ValidationFacts.
Import Py FrameGraph Torch Train Observe Ledger Runs.

Section validation.
Context `{C : Collab} (env : Env) (gpu : Z) (args : Args).

Lemma val_batch_state g item acc w w' r :
  val_batch args g item acc w = (w', r) → w' = with_trace w (trace w').
Proof.
  destruct item as [[[images poses] disps] intrinsics].
  unfold val_batch. cbv zeta. intros Hrun.
  apply bind_inv in Hrun as [(w1 & Gs & Hfix & Hrun)|[(e & Hfix & _)|[Hfix _]]];
    apply fix_first_poses_frame in Hfix as ->; [|by destruct w|by destruct w].
  revert Hrun.
  unfold call_model, call_geodesic_loss, call_flow_loss, add_metric, emit,
    with_trace, from_option, raise, mbind, M_bind, mret, M_ret. cbn.
  destruct (DroidNet _ _ _ _ _ _ _ _ _) as [[poses_est disps_est] residuals].
  cbn.
  destruct ((geodesic_loss _ _ _ _).2 !! "rot_error") as [x|]; cbn;
    [|by intros [= <- _]].
  destruct ((geodesic_loss _ _ _ _).2 !! "tr_error") as [y|]; cbn;
    [|by intros [= <- _]].
  destruct ((flow_loss _ _ _ _ _ _).2 !! "f_error") as [z|]; cbn;
    by intros [= <- _].
Qed.

Lemma val_batch_Ok_events g item acc w w' acc' :
  val_batch args g item acc w = (w', Ok acc') →
  ∃ d, trace w' = trace w ++ d ∧ Forall batch_event d ∧
       count_events is_val_model d = 1%nat.
Proof.
  intros Hrun. apply Departures.val_batch_Ok in Hrun
    as (_ & _ & Gs & images & disp0 & intrinsics0 & geo & flo & Htr).
  eexists. split; [exact Htr|]. split; [by repeat constructor | done].
Qed.

Lemma val_loop_Ok_events g batches : ∀ v acc w w' acc',
  val_loop env args g batches v acc w = (w', Ok acc') →
  0 ≤ v ≤ 500 →
  ∃ d, trace w' = trace w ++ d ∧ Forall batch_event d ∧
    count_events is_val_model d =
      Nat.min (length batches) (Z.to_nat (500 - v)) ∧
    val_fetched w' =
      (val_fetched w + Nat.min (length batches) (Z.to_nat (501 - v)))%nat.
Proof.
  induction batches as [|indices rest IH]; intros v acc w w' acc';
    cbn [val_loop].
  - intros [= <- <-] Hv. exists []. rewrite app_nil_r.
    change (length (@nil (list nat))) with 0%nat.
    split_and!; [done | done | done | lia].
  - rewrite bind_unfold. cbn [fetch_val].
    change (length (indices :: rest)) with (S (length rest)).
    destruct (decide (v = 500)) as [->|Hne].
    + intros [= <- <-] _. exists [].
      cbn [trace val_fetched count_events]. rewrite app_nil_r.
      split_and!; [done | done | lia | lia].
    + rewrite bind_unfold.
      destruct (val_batch _ _ _ _ _) as [w1 [acc1|e|]] eqn:Hbatch; [|done|done].
      intros Hloop Hv.
      pose proof (val_batch_state _ _ _ _ _ _ Hbatch) as Hw1.
      apply val_batch_Ok_events in Hbatch as (d1 & Hd1 & He1 & Hc1).
      destruct (IH _ _ _ _ _ Hloop) as (d2 & Hd2 & He2 & Hc2 & Hf2); [lia|].
      exists (d1 ++ d2). cbn [trace] in Hd1.
      rewrite Hd2, Hd1, <- app_assoc, count_events_app, Hc1, Hc2, Hf2, Hw1.
      cbn [val_fetched with_trace].
      split_and!; [done | by apply Forall_app | lia | lia].
Qed.

(** A batch that goes through adds to each sum the value its loss
    returned under the key. *)
Lemma val_batch_sums g item acc w w' acc' :
  val_batch args g item acc w = (w', Ok acc') →
  ∃ Gs images disp0 intrinsics0 geo flo x y z,
    trace w' = trace w ++
      [EvModel false Gs images disp0 intrinsics0 (val_graph (N args)) (iters args) 2;
       EvGeodesicLoss g None geo;
       EvFlowLoss (val_graph (N args)) flo] ∧
    geo.2 !! "rot_error" = Some x ∧
    geo.2 !! "tr_error" = Some y ∧
    flo.2 !! "f_error" = Some z ∧
    val_rot_error acc' = (val_rot_error acc + x)%Q ∧
    val_tr_error acc' = (val_tr_error acc + y)%Q ∧
    val_f_error acc' = (val_f_error acc + z)%Q.
Proof.
  destruct item as [[[images poses] disps] intrinsics].
  unfold val_batch. cbv zeta. intros Hrun.
  apply bind_inv in Hrun as [(w1 & Gs & Hfix & Hrun)|[(e & _ & ?)|[_ ?]]];
    [|done|done].
  apply fix_first_poses_frame in Hfix as ->.
  revert Hrun.
  unfold call_model, call_geodesic_loss, call_flow_loss, add_metric, emit,
    with_trace, from_option, raise, mbind, M_bind, mret, M_ret. cbn.
  destruct (DroidNet _ _ _ _ _ _ _ _ _) as [[poses_est disps_est] residuals].
  cbn.
  destruct ((geodesic_loss _ _ _ _).2 !! "rot_error") as [x|] eqn:Hx; cbn; [|done].
  destruct ((geodesic_loss _ _ _ _).2 !! "tr_error") as [y|] eqn:Hy; cbn; [|done].
  destruct ((flow_loss _ _ _ _ _ _).2 !! "f_error") as [z|] eqn:Hz; cbn; [|done].
  intros [= <- <-]. cbn.
  eexists _, _, _, _, _, _, x, y, z. rewrite <- !app_assoc.
  split_and!; [reflexivity | exact Hx | exact Hy | exact Hz | done | done | done].
Qed.

(** The loop sums, batch after batch, what the losses returned; it makes
    no all-reduce. *)
Lemma val_loop_sums g batches : ∀ v acc w w' acc',
  val_loop env args g batches v acc w = (w', Ok acc') →
  ∃ d rots trs fs,
    trace w' = trace w ++ d ∧
    reduced w' = reduced w ∧
    count_events is_val_model d = length rots ∧
    (λ m : Metrics, m !! "rot_error") <$> val_geodesic_metrics d = Some <$> rots ∧
    (λ m : Metrics, m !! "tr_error") <$> val_geodesic_metrics d = Some <$> trs ∧
    (λ m : Metrics, m !! "f_error") <$> val_flow_metrics d = Some <$> fs ∧
    val_rot_error acc' = foldl Qplus (val_rot_error acc) rots ∧
    val_tr_error acc' = foldl Qplus (val_tr_error acc) trs ∧
    val_f_error acc' = foldl Qplus (val_f_error acc) fs.
Proof.
  induction batches as [|indices rest IH]; intros v acc w w' acc';
    cbn [val_loop].
  - intros [= <- <-]. exists [], [], [], []. rewrite app_nil_r. by split_and!.
  - rewrite bind_unfold. cbn [fetch_val].
    destruct (decide (v = 500)) as [->|Hne].
    + intros [= <- <-]. exists [], [], [], []. cbn. rewrite app_nil_r.
      by split_and!.
    + rewrite bind_unfold.
      destruct (val_batch _ _ _ _ _) as [w1 [acc1|e|]] eqn:Hbatch; [|done|done].
      intros Hloop.
      pose proof (val_batch_state _ _ _ _ _ _ Hbatch) as Hw1.
      destruct (val_batch_sums _ _ _ _ _ _ Hbatch)
        as (Gs & images & disp0 & intrinsics0 & geo & flo & x & y & z &
            Hd1 & Hx & Hy & Hz & Hrot & Htr & Hf).
      destruct (IH _ _ _ _ _ Hloop)
        as (d2 & rots & trs & fs & Hd2 & Hred & Hlen & Hrots & Htrs & Hfs &
            H1 & H2 & H3).
      cbn [trace val_rot_error val_tr_error val_f_error] in Hd1, Hrot, Htr, Hf.
      eexists (_ ++ d2), (x :: rots), (y :: trs), (z :: fs).
      split_and!.
      * by rewrite Hd2, Hd1, <- app_assoc.
      * rewrite Hred, Hw1. reflexivity.
      * cbn. by rewrite Hlen.
      * cbn. by rewrite Hx, <- Hrots.
      * cbn. by rewrite Hy, <- Htrs.
      * cbn. by rewrite Hz, <- Hfs.
      * by rewrite H1, Hrot.
      * by rewrite H2, Htr.
      * by rewrite H3, Hf.
Qed.

(** How a validation pass that returns normally went. *)
Lemma validation_Ok_trace g w w' :
  validation env gpu args g w = (w', Ok ()) →
  ∃ dl s r,
    let vb := Z.min (Z.of_nat (length (val_batches env gpu args)) - 1) 500 in
    let den := inject_Z (vb * world_size args) in
    trace w' = trace w ++
      [EvModelEval; EvSamplerIter false (ds_iter (val_sampler env gpu args))] ++
      dl ++
      [EvBarrier;
       EvAllReduceSum s.1.1 r.1.1;
       EvAllReduceSum s.1.2 r.1.2;
       EvAllReduceSum s.2 r.2] ++
      (if decide (gpu = 0)
       then [EvWandbLogVal (s.1.1 / den) (s.1.2 / den) (s.2 / den) (total_steps w)]
       else []) ++
      [EvModelTrain] ∧
    Forall batch_event dl ∧
    count_events is_val_model dl =
      Nat.min (length (val_batches env gpu args)) 500 ∧
    val_fetched w' =
      (val_fetched w + Nat.min (length (val_batches env gpu args)) 501)%nat ∧
    vb * world_size args ≠ 0 ∧
    val_batches env gpu args ≠ [].
Proof.
  unfold validation, val_batches. cbv zeta. intros Hrun.
  rewrite bind_unfold in Hrun. cbn [emit] in Hrun.
  rewrite bind_unfold in Hrun. cbn [emit] in Hrun.
  apply bind_inv in Hrun as [(wl & acc & Hloop & Hrun)|[(e & _ & ?)|[_ ?]]];
    [|done|done].
  destruct (val_loop_Ok_events _ _ _ _ _ _ _ Hloop) as (d & Hd & Hd_events & Hc & Hf);
    [lia|].
  pose proof (val_loop_keeps env args total_steps (λ _ _ _ _, eq_refl)
                _ _ _ _ _ _ _ Hloop) as Hts.
  unfold keeps in Hts.
  destruct (Departures.val_loop_Ok _ _ _ _ _ _ _ _ _ Hloop) as (Hm & Hnil & Hidx);
    [done|].
  revert Hrun.
  unfold mbind, M_bind, mret, M_ret, emit, with_trace, all_reduce_sum,
    from_option, raise, float_div, get_total_steps. cbn.
  destruct (tensor_val_errs acc) as [t|] eqn:Ht; cbn; [|done].
  destruct (v_batch acc) as [vb|] eqn:Hvb; cbn; [|done].
  destruct (decide (vb * world_size args = 0)) as [|Hden]; cbn; [done|].
  assert (Hne : chunks 2 (ds_iter (val_sampler env gpu args)) ≠ []).
  { intros Hempty. rewrite (Hnil Hempty) in Ht. done. }
  injection (Hidx Hne ltac:(lia)) as ->.
  rewrite (Hm t Ht). cbn. intros Hfinal.
  exists d, (val_rot_error acc, val_tr_error acc, val_f_error acc),
    ((val_rot_error acc + all_reduce_peers env (reduced wl))%Q,
     (val_tr_error acc + all_reduce_peers env (S (reduced wl)))%Q,
     (val_f_error acc + all_reduce_peers env (S (S (reduced wl))))%Q).
  cbv zeta.
  replace (Z.min (Z.of_nat (length (chunks 2 (ds_iter (val_sampler env gpu args)))) - 1) 500)
    with (Z.min (0 + Z.of_nat (length (chunks 2 (ds_iter (val_sampler env gpu args)))) - 1) 500)
    by (f_equal; lia).
  cbn [trace val_fetched] in Hd, Hf.
  destruct (decide (gpu = 0)); cbn in Hfinal; injection Hfinal as <-;
    cbn [trace val_fetched];
    (split_and!;
      [ rewrite Hd, ?Hts; cbn; rewrite <- !app_assoc; cbn; reflexivity
      | done | rewrite Hc; lia
      | rewrite Hf; unfold with_trace; cbn [val_fetched]; lia | done | done ]).
Qed.

Lemma validation_same_state g :
  respects same_training_state (validation env gpu args g).
Proof.
  intros w w' r Hrun. unfold same_training_state. split_and!.
  - exact (validation_keeps env gpu args rng_pos (λ _ _ _ _, eq_refl) g _ _ _ Hrun).
  - exact (validation_keeps env gpu args np_pos (λ _ _ _ _, eq_refl) g _ _ _ Hrun).
  - exact (validation_keeps env gpu args train_fetched (λ _ _ _ _, eq_refl) g _ _ _ Hrun).
  - exact (validation_keeps env gpu args sched_steps (λ _ _ _ _, eq_refl) g _ _ _ Hrun).
  - exact (validation_keeps env gpu args total_steps (λ _ _ _ _, eq_refl) g _ _ _ Hrun).
  - exact (validation_keeps env gpu args round_vars (λ _ _ _ _, eq_refl) g _ _ _ Hrun).
Qed.

Lemma val_batch_total g item acc w :
  metrics_reported →
  Forall (λ row : T2, (2 ≤ length row)%nat) item.1.1.2 →
  ∃ w' acc',
    val_batch args g item acc w = (w', Ok acc') ∧
    v_batch acc' = v_batch acc ∧ is_Some (tensor_val_errs acc').
Proof.
  intros [Hgeo Hflo] HN. destruct item as [[[images poses] disps] intrinsics].
  cbn [fst snd] in HN. unfold val_batch. cbv zeta.
  assert (HN' : Forall (λ row : T2, (2 ≤ length row)%nat) (SE3_inv poses)).
  { unfold SE3_inv. apply Forall_fmap. eapply Forall_impl; [exact HN|].
    intros row Hrow. simpl in *. by rewrite length_fmap. }
  destruct (fix_first_poses_spec (SE3_inv poses) w HN') as (Gs0 & HGs & _).
  rewrite bind_unfold, HGs.
  unfold call_model, call_geodesic_loss, call_flow_loss, add_metric, emit,
    with_trace, from_option, raise, mbind, M_bind, mret, M_ret. cbn.
  destruct (DroidNet _ _ _ _ _ _ _ _ _) as [[poses_est disps_est] residuals].
  cbn.
  match goal with |- context [geodesic_loss ?a ?b ?c ?d] =>
    destruct (Hgeo a b c d) as [[x ->] [y ->]] end.
  cbn.
  match goal with |- context [flow_loss ?a ?b ?c ?d ?e ?f] =>
    destruct (Hflo a b c d e f) as [z ->] end.
  cbn. eexists _, _. split; [reflexivity|]. cbn. split; [done | eauto].
Qed.

End validation.

(** X20. How a validation pass that returns normally went: [model.eval()],
    the batches, the barrier, three all-reduces, the entry logged by
    process 0, [model.train()].  What goes into the three all-reduces are
    the local sums: for each error, the values the loss returned under its
    key to the batches of this pass, added up from 0 in the order of the
    batches.  What comes out of each is that sum plus what the peers
    contribute to it.  The entry holds each local sum, not what came out of
    the all-reduce, divided by [v_batch] times the world size, where
    [v_batch] is the index of the last batch (or 500), and carries the step
    count of that moment. *)
Theorem validation_reports_local_sums `{C : Collab} (env : Env) (gpu : Z)
    (args : Args) (g : graph) (w w' : world) :
  validation env gpu args g w = (w', Ok ()) →
  ∃ dl rots trs fs,
    let vb := Z.min (Z.of_nat (length (val_batches env gpu args)) - 1) 500 in
    let den := inject_Z (vb * world_size args) in
    trace w' = trace w ++
      [EvModelEval; EvSamplerIter false (ds_iter (val_sampler env gpu args))] ++
      dl ++
      [EvBarrier;
       EvAllReduceSum (total rots)
         (total rots + all_reduce_peers env (reduced w));
       EvAllReduceSum (total trs)
         (total trs + all_reduce_peers env (S (reduced w)));
       EvAllReduceSum (total fs)
         (total fs + all_reduce_peers env (S (S (reduced w))))] ++
      (if decide (gpu = 0)
       then [EvWandbLogVal (total rots / den) (total trs / den) (total fs / den)
               (total_steps w)]
       else []) ++
      [EvModelTrain] ∧
    Forall batch_event dl ∧
    (λ m : Metrics, m !! "rot_error") <$> val_geodesic_metrics dl = Some <$> rots ∧
    (λ m : Metrics, m !! "tr_error") <$> val_geodesic_metrics dl = Some <$> trs ∧
    (λ m : Metrics, m !! "f_error") <$> val_flow_metrics dl = Some <$> fs ∧
    length rots = Nat.min (length (val_batches env gpu args)) 500.
Proof.
  unfold validation, val_batches. cbv zeta. intros Hrun.
  rewrite bind_unfold in Hrun. cbn [emit] in Hrun.
  rewrite bind_unfold in Hrun. cbn [emit] in Hrun.
  apply bind_inv in Hrun as [(wl & acc & Hloop & Hrun)|[(e & _ & ?)|[_ ?]]];
    [|done|done].
  destruct (val_loop_Ok_events env args _ _ _ _ _ _ _ Hloop)
    as (d & Hd & Hd_events & Hc & _); [lia|].
  destruct (val_loop_sums env args _ _ _ _ _ _ _ Hloop)
    as (d' & rots & trs & fs & Hd' & Hred & Hlen & Hrots & Htrs & Hfs &
        H1 & H2 & H3).
  rewrite Hd in Hd'. apply app_inv_head in Hd'. subst d'.
  pose proof (val_loop_keeps env args total_steps (λ _ _ _ _, eq_refl)
                _ _ _ _ _ _ _ Hloop) as Hts.
  unfold keeps in Hts.
  destruct (Departures.val_loop_Ok _ _ _ _ _ _ _ _ _ Hloop) as (Hm & Hnil & Hidx);
    [done|].
  cbn [trace reduced total_steps val_rot_error val_tr_error val_f_error with_trace]
    in Hd, Hred, Hts, H1, H2, H3.
  revert Hrun.
  unfold mbind, M_bind, mret, M_ret, emit, with_trace, all_reduce_sum,
    from_option, raise, float_div, get_total_steps. cbn.
  destruct (tensor_val_errs acc) as [t|] eqn:Ht; cbn; [|done].
  destruct (v_batch acc) as [vb|] eqn:Hvb; cbn; [|done].
  destruct (decide (vb * world_size args = 0)) as [|Hden]; cbn; [done|].
  assert (Hne : chunks 2 (ds_iter (val_sampler env gpu args)) ≠ []).
  { intros Hempty. rewrite (Hnil Hempty) in Ht. done. }
  injection (Hidx Hne ltac:(lia)) as ->.
  rewrite (Hm t Ht), Hred, Hts, H1, H2, H3. cbn.
  fold (total rots) (total trs) (total fs). intros Hfinal.
  exists d, rots, trs, fs. cbv zeta.
  replace (Z.min (Z.of_nat (length (chunks 2 (ds_iter (val_sampler env gpu args)))) - 1) 500)
    with (Z.min (0 + Z.of_nat (length (chunks 2 (ds_iter (val_sampler env gpu args)))) - 1) 500)
    by (f_equal; lia).
  destruct (decide (gpu = 0)); cbn in Hfinal; injection Hfinal as <-;
    cbn [trace];
    (split_and!;
      [ rewrite Hd; cbn; rewrite <- !app_assoc; cbn; reflexivity
      | done | done | done | done | rewrite <- Hlen, Hc; lia ]).
Qed.


Lemma validation_reports_local_sums_witness :
  validation (C := Demo.collab) Demo.env0 0 Demo.args (window_graph 4)
    Demo.world_5000 = (Demo.validation_0.1, Ok ()) ∧
  ∃ dl rots trs fs,
    let vb := Z.min (Z.of_nat (length (val_batches (H := Demo.collab)
                                         Demo.env0 0 Demo.args)) - 1) 500 in
    let den := inject_Z (vb * world_size Demo.args) in
    trace Demo.validation_0.1 = trace Demo.world_5000 ++
      [EvModelEval;
       EvSamplerIter false (ds_iter (H := Demo.collab)
                              (val_sampler Demo.env0 0 Demo.args))] ++
      dl ++
      [EvBarrier;
       EvAllReduceSum (total rots)
         (total rots + all_reduce_peers Demo.env0 (reduced Demo.world_5000));
       EvAllReduceSum (total trs)
         (total trs + all_reduce_peers Demo.env0 (S (reduced Demo.world_5000)));
       EvAllReduceSum (total fs)
         (total fs + all_reduce_peers Demo.env0 (S (S (reduced Demo.world_5000))))] ++
      (if decide (0 = 0)
       then [EvWandbLogVal (total rots / den) (total trs / den) (total fs / den)
               (total_steps Demo.world_5000)]
       else []) ++
      [EvModelTrain] ∧
    Forall batch_event dl ∧
    (λ m : Metrics, m !! "rot_error") <$> val_geodesic_metrics dl = Some <$> rots ∧
    (λ m : Metrics, m !! "tr_error") <$> val_geodesic_metrics dl = Some <$> trs ∧
    (λ m : Metrics, m !! "f_error") <$> val_flow_metrics dl = Some <$> fs ∧
    length rots =
      Nat.min (length (val_batches (H := Demo.collab) Demo.env0 0 Demo.args)) 500.
Proof.
  assert (H : validation (C := Demo.collab) Demo.env0 0 Demo.args (window_graph 4)
                Demo.world_5000 = (Demo.validation_0.1, Ok ()))
    by (vm_compute; reflexivity).
  split; [exact H|].
  exact (validation_reports_local_sums (C := Demo.collab) Demo.env0 0 Demo.args
           (window_graph 4) Demo.world_5000 Demo.validation_0.1 H).
Defined.

(** In that pass the rotation errors of the three batches are 1, 2 and 3:
    6 goes into the all-reduce, 21 comes out, and 6 / (2 x 2) is logged. *)
Example validation_sums_demo :
  (λ m : Metrics, m !! "rot_error") <$>
    val_geodesic_metrics (trace Demo.validation_0.1) = Some <$> [1; 2; 3]%Q ∧
  total [1; 2; 3]%Q = 6%Q.
Proof. split; by vm_compute. Qed.

(** X19. Validation returns normally only when the loader yields at least
    two batches to the process (and the world size is not zero): the
    divisor is the index of the last batch, which is 0 after a single
    batch. *)
Theorem validation_needs_two_batches `{C : Collab} (env : Env) (gpu : Z)
    (args : Args) (g : graph) (w w' : world) :
  validation env gpu args g w = (w', Ok ()) →
  (2 ≤ length (val_batches env gpu args))%nat ∧ world_size args ≠ 0.
Proof.
  intros Hrun.
  destruct (validation_Ok_trace env gpu args g w w' Hrun)
    as (dl & s & r & _ & _ & _ & _ & Hden & Hne).
  cbv zeta in Hden.
  destruct (val_batches env gpu args) as [|b [|b' l]]; [done| |].
  - by cbn in Hden.
  - split; [cbn; lia | lia].
Qed.

Lemma validation_needs_two_batches_witness :
  validation (C := Demo.collab) Demo.env0 0 Demo.args (window_graph 4)
    Demo.world_5000 = (Demo.validation_0.1, Ok ()) ∧
  (2 ≤ length (val_batches (H := Demo.collab) Demo.env0 0 Demo.args))%nat ∧
  world_size Demo.args ≠ 0.
Proof.
  assert (H : validation (C := Demo.collab) Demo.env0 0 Demo.args (window_graph 4)
                Demo.world_5000 = (Demo.validation_0.1, Ok ()))
    by (vm_compute; reflexivity).
  split; [exact H|].
  exact (validation_needs_two_batches (C := Demo.collab) Demo.env0 0 Demo.args
           (window_graph 4) Demo.world_5000 Demo.validation_0.1 H).
Defined.

(** X17. When the loader yields no batch, validation stops with
    [UnboundLocalError] at the first all-reduce, right after the barrier:
    the tensors it would reduce are bound only inside the loop. *)
Theorem validation_without_batches `{C : Collab} (env : Env) (gpu : Z)
    (args : Args) (g : graph) (w : world) :
  val_batches env gpu args = [] →
  validation env gpu args g w =
    (with_trace w (trace w ++ [EvModelEval; EvSamplerIter false []; EvBarrier]),
     Raise UnboundLocalError).
Proof.
  unfold val_batches. intros Hb. unfold validation. cbv zeta. rewrite Hb.
  assert (Hidx : ds_iter (val_sampler env gpu args) = []).
  { destruct (ds_iter (val_sampler env gpu args)) as [|i l]; [done|].
    by destruct l. }
  rewrite Hidx.
  unfold mbind, M_bind, mret, M_ret, emit, with_trace, from_option, raise.
  cbn. by rewrite <- !app_assoc.
Qed.

Lemma validation_without_batches_witness :
  val_batches (H := Demo.collab) Cases.env_no_val 0 Demo.args = [] ∧
  validation (C := Demo.collab) Cases.env_no_val 0 Demo.args (window_graph 4)
    Demo.world_5000 =
    (with_trace Demo.world_5000
       (trace Demo.world_5000 ++ [EvModelEval; EvSamplerIter false []; EvBarrier]),
     Raise UnboundLocalError).
Proof.
  assert (H : val_batches (H := Demo.collab) Cases.env_no_val 0 Demo.args = [])
    by reflexivity.
  split; [exact H|].
  exact (validation_without_batches (C := Demo.collab) Cases.env_no_val 0
           Demo.args (window_graph 4) Demo.world_5000 H).
Defined.

(** X18. When the loader yields exactly one batch and that batch goes
    through, validation stops with [ZeroDivisionError]: the divisor is
    index 0 times the world size.  The barrier and the three all-reduces
    have been made by then. *)
Theorem validation_single_batch `{C : Collab} (env : Env) (gpu : Z)
    (args : Args) (g : graph) (w : world) (b : list nat) :
  val_batches env gpu args = [b] →
  metrics_reported →
  Forall (λ row : T2, (2 ≤ length row)%nat) (val_item env (val_fetched w) b).1.1.2 →
  ∃ w' dl s r,
    validation env gpu args g w = (w', Raise ZeroDivisionError) ∧
    trace w' = trace w ++
      [EvModelEval; EvSamplerIter false (ds_iter (val_sampler env gpu args))] ++
      dl ++
      [EvBarrier;
       EvAllReduceSum s.1.1 r.1.1;
       EvAllReduceSum s.1.2 r.1.2;
       EvAllReduceSum s.2 r.2] ∧
    Forall batch_event dl.
Proof.
  unfold val_batches. intros Hb Hm HN. unfold validation. cbv zeta. rewrite Hb.
  rewrite bind_unfold. cbn [emit]. rewrite bind_unfold. cbn [emit].
  cbn [val_loop]. rewrite !bind_unfold. cbn [fetch_val].
  rewrite decide_False by done.
  set (w1 := World _ _ _ _ _ _ _ _ _).
  set (acc0 := {| val_rot_error := _ |}).
  destruct (val_batch_total args g (val_item env (val_fetched w) b) acc0 w1 Hm HN)
    as (w2 & acc' & Hbatch & Hvb & [t Ht]).
  unfold with_trace in *. cbn [val_fetched] in *.
  rewrite bind_unfold, Hbatch.
  apply val_batch_Ok_events in Hbatch as (d & Hd & Hde & _).
  cbn [mret M_ret].
  unfold mbind, M_bind, mret, M_ret, emit, with_trace, all_reduce_sum,
    from_option, raise, float_div. cbn. rewrite Ht, Hvb. cbn.
  eexists _, d, t,
    ((t.1.1 + all_reduce_peers env (reduced w2))%Q,
     (t.1.2 + all_reduce_peers env (S (reduced w2)))%Q,
     (t.2 + all_reduce_peers env (S (S (reduced w2))))%Q).
  split; [reflexivity|]. cbn [fst snd trace]. split; [|done].
  rewrite Hd. subst w1. cbn [trace]. rewrite <- !app_assoc. reflexivity.
Qed.

Lemma demo_metrics_reported : metrics_reported (H := Demo.collab).
Proof.
  split.
  - intros Ps poses_est g do_scale. split; vm_compute; eauto.
  - intros Ps disps poses_est disps_est intrinsics g. vm_compute; eauto.
Qed.

Lemma validation_single_batch_witness :
  val_batches (H := Demo.collab) Cases.env_one_val_batch 0 Demo.args = [[0; 2]%nat] ∧
  ∃ w' dl s r,
    validation (C := Demo.collab) Cases.env_one_val_batch 0 Demo.args
      (window_graph 4) Demo.world_5000 = (w', Raise ZeroDivisionError) ∧
    trace w' = trace Demo.world_5000 ++
      [EvModelEval;
       EvSamplerIter false (ds_iter (H := Demo.collab)
                              (val_sampler Cases.env_one_val_batch 0 Demo.args))] ++
      dl ++
      [EvBarrier;
       EvAllReduceSum s.1.1 r.1.1;
       EvAllReduceSum s.1.2 r.1.2;
       EvAllReduceSum s.2 r.2] ∧
    Forall batch_event dl.
Proof.
  assert (H : val_batches (H := Demo.collab) Cases.env_one_val_batch 0 Demo.args
              = [[0; 2]%nat]) by reflexivity.
  assert (HN : Forall (λ row : T2, (2 ≤ length row)%nat)
                 (val_item Cases.env_one_val_batch
                    (val_fetched Demo.world_5000) [0; 2]%nat).1.1.2)
    by repeat constructor.
  split; [exact H|].
  exact (validation_single_batch (C := Demo.collab) Cases.env_one_val_batch 0
           Demo.args (window_graph 4) Demo.world_5000 [0; 2]%nat H
           demo_metrics_reported HN).
Defined.

(** X16. The validation loop stops at batch index 500: a pass that returns
    normally has evaluated the network on the first 500 batches at most,
    and has taken one batch more from the loader when there was one. *)
Theorem validation_stops_at_500 `{C : Collab} (env : Env) (gpu : Z)
    (args : Args) (g : graph) (w w' : world) :
  validation env gpu args g w = (w', Ok ()) →
  count_events is_val_model (trace w') =
    (count_events is_val_model (trace w) +
     Nat.min (length (val_batches env gpu args)) 500)%nat ∧
  val_fetched w' =
    (val_fetched w + Nat.min (length (val_batches env gpu args)) 501)%nat.
Proof.
  intros Hrun.
  destruct (validation_Ok_trace env gpu args g w w' Hrun)
    as (dl & s & r & Htr & _ & Hc & Hf & _).
  cbv zeta in Htr. split; [|done].
  rewrite Htr, !count_events_app, Hc.
  destruct (decide (gpu = 0)); cbn; lia.
Qed.

Lemma validation_stops_at_500_witness :
  validation (C := Demo.collab) Demo.env0 0 Demo.args (window_graph 4)
    Demo.world_5000 = (Demo.validation_0.1, Ok ()) ∧
  count_events is_val_model (trace Demo.validation_0.1) =
    (count_events is_val_model (trace Demo.world_5000) +
     Nat.min (length (val_batches (H := Demo.collab) Demo.env0 0 Demo.args)) 500)%nat ∧
  val_fetched Demo.validation_0.1 =
    (val_fetched Demo.world_5000 +
     Nat.min (length (val_batches (H := Demo.collab) Demo.env0 0 Demo.args)) 501)%nat.
Proof.
  assert (H : validation (C := Demo.collab) Demo.env0 0 Demo.args (window_graph 4)
                Demo.world_5000 = (Demo.validation_0.1, Ok ()))
    by (vm_compute; reflexivity).
  split; [exact H|].
  exact (validation_stops_at_500 (C := Demo.collab) Demo.env0 0 Demo.args
           (window_graph 4) Demo.world_5000 Demo.validation_0.1 H).
Defined.

(** X15. Whatever its outcome, validation leaves the training state alone:
    it draws nothing from the restart generator or from numpy's, takes no
    training batch, does not move the schedule or the step counter, and
    keeps the names the last round bound.  It emits only validation
    events: no backward pass, no clearing of gradients, no optimizer or
    scheduler step. *)
Theorem validation_leaves_training_alone `{C : Collab} (env : Env) (gpu : Z)
    (args : Args) (g : graph) (w : world) :
  same_training_state w (validation env gpu args g w).1 ∧
  ∃ d, trace (validation env gpu args g w).1 = trace w ++ d ∧
    Forall val_event d ∧
    count_events is_backward d = 0%nat ∧
    count_events is_zero_grad d = 0%nat ∧
    count_events is_optimizer_step d = 0%nat ∧
    count_events is_scheduler_step d = 0%nat ∧
    draws_of d = [].
Proof.
  destruct (validation env gpu args g w) as [w' r] eqn:Hrun. cbn [fst].
  split; [by eapply validation_same_state|].
  destruct (validation_grows env gpu args g _ _ _ Hrun) as (d & Hd & Hev).
  exists d. split; [done|]. split; [done|].
  split_and!.
  - apply count_events_none. eapply Forall_impl; [exact Hev|]. by intros [].
  - apply count_events_none. eapply Forall_impl; [exact Hev|]. by intros [].
  - apply count_events_none. eapply Forall_impl; [exact Hev|]. by intros [].
  - apply count_events_none. eapply Forall_impl; [exact Hev|]. by intros [].
  - apply draws_of_no_draw. eapply Forall_impl; [exact Hev|]. by intros [].
Qed.

End ValidationFacts.

(** ** The end of a step *)

Module StepFacts.
Import Py FrameGraph Torch Train Observe Ledger Runs ValidationFacts.

#[global] Instance same_training_state_preorder : PreOrder same_training_state.
Proof.
  split.
  - by intros w.
  - intros w1 w2 w3 H1 H2. unfold same_training_state in *.
    destruct_and!. split_and!; congruence.
Qed.

Section step.
Context `{C : Collab} (env : Env) (gpu : Z) (args : Args).

(** The end of a step either stops before the counter advances (the
    names of a round are unbound, or validation stops), or goes through:
    validation when it is due, the counter, the report. *)
Lemma after_update_cases g w w' res :
  after_update env gpu args g w = (w', res) →
  ((∀ b, res ≠ Ok b) ∧ same_training_state w w' ∧ grows val_event w w') ∨
  ∃ rv wv,
    round_vars w = Some rv ∧
    (if decide (total_steps w ≠ 0 ∧ total_steps w `mod` 5000 = 0)
     then validation env gpu args g w = (wv, Ok ()) else wv = w) ∧
    w' = World (trace wv ++ report gpu args rv (sched_steps w) (total_steps w + 1))
           (rng_pos w) (np_pos w) (train_fetched w) (val_fetched wv) (reduced wv)
           (sched_steps w) (total_steps w + 1) (round_vars w) ∧
    res = Ok (bool_decide (steps args ≤ total_steps w + 1)).
Proof.
  unfold after_update. intros Hrun.
  rewrite bind_unfold in Hrun. unfold read_round_vars in Hrun.
  destruct (round_vars w) as [rv|] eqn:Hrv.
  2:{ injection Hrun as <- <-. left. split_and!; [done | done | reflexivity]. }
  cbv zeta in Hrun. rewrite bind_unfold in Hrun. cbn [get_total_steps] in Hrun.
  apply bind_inv in Hrun as [(wv & [] & Hval & Hrun)|[(e & Hval & ->)|[Hval ->]]].
  - right. exists rv, wv.
    assert (Hsame : same_training_state w wv ∧
              (if decide (total_steps w ≠ 0 ∧ total_steps w `mod` 5000 = 0)
               then validation env gpu args g w = (wv, Ok ()) else wv = w)).
    { destruct (decide _).
      - split; [by eapply validation_same_state | done].
      - injection Hval as <-. done. }
    destruct Hsame as [(H1 & H2 & H3 & H4 & H5 & H6) Hdue].
    split; [done|]. split; [done|].
    revert Hrun.
    unfold mbind, M_bind, mret, M_ret, incr_total_steps, get_total_steps, get_lr,
      emit, with_trace, report. cbn.
    rewrite H1, H2, H3, H4, H5, H6, Hrv.
    destruct (decide (gpu = 0)); destruct (decide (_ ∧ gpu = 0)); cbn;
      intros [= <- <-]; rewrite <- ?app_assoc, ?app_nil_r;
      (split; [reflexivity|]); try reflexivity; tauto.
  - left. split; [done|].
    destruct (decide _); [|done].
    split; [by eapply validation_same_state | by eapply validation_grows].
  - left. split; [done|].
    destruct (decide _); [|done].
    split; [by eapply validation_same_state | by eapply validation_grows].
Qed.

Lemma omap_none {A B} (f : A → option B) (l : list A) :
  Forall (λ x, f x = None) l → omap f l = [].
Proof. induction 1 as [|x l Hx _ IH]; [done|]. cbn. by rewrite Hx. Qed.

Lemma train_log_steps_unreported d :
  Forall unreported d → train_log_steps d = [].
Proof. intros H. apply omap_none. eapply Forall_impl; [exact H|]. by intros []. Qed.

Lemma saves_unreported d : Forall unreported d → saves d = [].
Proof. intros H. apply omap_none. eapply Forall_impl; [exact H|]. by intros []. Qed.

(** A step that does not return normally leaves the counter where it
    was and reports nothing. *)
Lemma outer_step_stopped fuel item w w' res :
  outer_step env gpu args fuel item w = (w', res) →
  (∀ b, res ≠ Ok b) →
  ∃ d, trace w' = trace w ++ d ∧ Forall unreported d ∧
       total_steps w' = total_steps w ∧ train_fetched w' = train_fetched w.
Proof.
  intros Hrun Hres. destruct item as [[[images poses] disps] intrinsics].
  apply outer_step_stages in Hrun as (g & pre & Hpre & Hcases).
  cbv zeta in Hcases.
  assert (Hpre' : Forall unreported (EvZeroGrad :: pre)).
  { constructor; [done|]. eapply Forall_impl; [exact Hpre|]. by intros []. }
  destruct Hcases as [(e & -> & ->)|(Gs0 & w2 & r2 & Hloop & Hrest)].
  { eexists. cbn [trace total_steps train_fetched]. by split_and!. }
  destruct (restart_loop_grows args _ _ _ _ _ _ _ _ _ _ Hloop)
    as (rounds & Hrounds & Hround_events).
  pose proof (restart_loop_keeps args total_steps (λ _ _ _ _, eq_refl)
                _ _ _ _ _ _ _ _ _ _ Hloop) as Hts.
  pose proof (restart_loop_keeps args train_fetched (λ _ _ _ _, eq_refl)
                _ _ _ _ _ _ _ _ _ _ Hloop) as Htf.
  unfold keeps in Hts, Htf. cbn [trace total_steps train_fetched] in *.
  assert (Hrounds' : Forall unreported rounds).
  { eapply Forall_impl; [exact Hround_events|]. by intros []. }
  destruct r2 as [[]|e|].
  - apply after_update_cases in Hrest
      as [(_ & Hsame & dv & Hdv & Hval)|(rv & wv & _ & _ & _ & ->)];
      [|by destruct (Hres (bool_decide (steps args ≤ total_steps w2 + 1)))].
    destruct Hsame as (_ & _ & H3 & _ & H5 & _).
    cbn [trace total_steps train_fetched] in *.
    exists ((EvZeroGrad :: pre) ++ rounds ++
            [EvClipGradNorm (clip args); EvOptimizerStep; EvSchedulerStep] ++ dv).
    split_and!; [|repeat (apply Forall_app; split); try done|congruence|congruence].
    + rewrite Hdv, Hrounds. by rewrite <- !app_assoc.
    + by repeat constructor.
    + eapply Forall_impl; [exact Hval|]. by intros [].
  - destruct Hrest as [-> ->]. exists ((EvZeroGrad :: pre) ++ rounds).
    split_and!; [|by apply Forall_app|done|done].
    rewrite Hrounds. by rewrite <- !app_assoc.
  - destruct Hrest as [-> ->]. exists ((EvZeroGrad :: pre) ++ rounds).
    split_and!; [|by apply Forall_app|done|done].
    rewrite Hrounds. by rewrite <- !app_assoc.
Qed.

(** A step that returns normally. *)
Lemma outer_step_completed fuel item w w' b :
  outer_step env gpu args fuel item w = (w', Ok b) →
  ∃ pre rounds dv rv,
    trace w' = trace w ++ EvZeroGrad :: pre ++ rounds ++
      [EvClipGradNorm (clip args); EvOptimizerStep; EvSchedulerStep] ++ dv ++
      report gpu args rv (S (sched_steps w)) (total_steps w + 1) ∧
    Forall graph_event pre ∧ Forall round_event rounds ∧ Forall val_event dv ∧
    count_events is_model_eval dv =
      (if decide (total_steps w ≠ 0 ∧ total_steps w `mod` 5000 = 0)
       then 1%nat else 0%nat) ∧
    val_log_steps dv =
      (if decide (gpu = 0 ∧ total_steps w ≠ 0 ∧ total_steps w `mod` 5000 = 0)
       then [total_steps w] else []) ∧
    total_steps w' = total_steps w + 1 ∧
    sched_steps w' = S (sched_steps w) ∧
    np_pos w' = S (np_pos w) ∧
    train_fetched w' = train_fetched w ∧
    b = bool_decide (steps args ≤ total_steps w + 1).
Proof.
  intros Hrun. destruct item as [[[images poses] disps] intrinsics].
  apply outer_step_stages in Hrun as (g & pre & Hpre & Hcases).
  cbv zeta in Hcases.
  destruct Hcases as [(e & _ & [=])|(Gs0 & w2 & r2 & Hloop & Hrest)].
  destruct r2 as [[]|e|]; [|by destruct Hrest|by destruct Hrest].
  destruct (restart_loop_grows args _ _ _ _ _ _ _ _ _ _ Hloop)
    as (rounds & Hrounds & Hround_events).
  pose proof (restart_loop_keeps args total_steps (λ _ _ _ _, eq_refl)
                _ _ _ _ _ _ _ _ _ _ Hloop) as Hts.
  pose proof (restart_loop_keeps args train_fetched (λ _ _ _ _, eq_refl)
                _ _ _ _ _ _ _ _ _ _ Hloop) as Htf.
  pose proof (restart_loop_keeps args sched_steps (λ _ _ _ _, eq_refl)
                _ _ _ _ _ _ _ _ _ _ Hloop) as Hss.
  pose proof (restart_loop_keeps args np_pos (λ _ _ _ _, eq_refl)
                _ _ _ _ _ _ _ _ _ _ Hloop) as Hnp.
  unfold keeps in Hts, Htf, Hss, Hnp.
  cbn [trace total_steps train_fetched sched_steps np_pos] in *.
  apply after_update_cases in Hrest
    as [(Hno & _)|(rv & wv & Hrv & Hdue & -> & [= ->])]; [by destruct (Hno b)|].
  cbn [trace total_steps train_fetched sched_steps np_pos round_vars] in *.
  rewrite Hts, Hss, Hnp, Htf.
  assert (Hdv : ∃ dv,
    trace wv = (trace w2 ++ [EvClipGradNorm (clip args); EvOptimizerStep;
                             EvSchedulerStep]) ++ dv ∧
    Forall val_event dv ∧
    count_events is_model_eval dv =
      (if decide (total_steps w ≠ 0 ∧ total_steps w `mod` 5000 = 0)
       then 1%nat else 0%nat) ∧
    val_log_steps dv =
      (if decide (gpu = 0 ∧ total_steps w ≠ 0 ∧ total_steps w `mod` 5000 = 0)
       then [total_steps w] else [])).
  { rewrite Hts in Hdue. destruct (decide (_ ∧ _)) as [Hd|Hd].
    - destruct (validation_grows env gpu args g _ _ _ Hdue) as (dv & Hdv & Hval).
      destruct (validation_Ok_trace env gpu args g _ _ Hdue)
        as (dl & s & r & Htr & Hdl & _).
      cbv zeta in Htr. cbn [trace total_steps] in Htr, Hdv.
      rewrite Htr in Hdv. apply app_inv_head in Hdv. subst dv.
      eexists. split; [exact Htr|]. split; [done|].
      assert (Hdl0 : count_events is_model_eval dl = 0%nat).
      { apply count_events_none. eapply Forall_impl; [exact Hdl|]. by intros []. }
      assert (Hdl1 : val_log_steps dl = []).
      { apply omap_none. eapply Forall_impl; [exact Hdl|]. by intros []. }
      split.
      + cbn. rewrite count_events_app, Hdl0.
        destruct (decide (gpu = 0)); cbn; lia.
      + unfold val_log_steps. cbn. rewrite omap_app. fold (val_log_steps dl).
        rewrite Hdl1, ?Hts.
        destruct (decide (gpu = 0)); cbn;
          [rewrite decide_True by tauto | rewrite decide_False by tauto]; done.
    - subst wv. exists []. cbn [trace]. rewrite app_nil_r.
      split_and!; [done | done | done |].
      rewrite decide_False by tauto. done. }
  destruct Hdv as (dv & Hdv & Hval & Hcount & Hlabels).
  exists pre, rounds, dv, rv.
  split_and!; try done.
  rewrite Hdv, Hrounds. by rewrite <- !app_assoc.
Qed.

Lemma omap_step_trace {B} (f : event → option B) tr pre rounds dv rep :
  f EvZeroGrad = None →
  (∀ e, graph_event e → f e = None) →
  (∀ e, round_event e → f e = None) →
  (∀ e, update_event e → f e = None) →
  Forall graph_event pre → Forall round_event rounds →
  omap f (tr ++ EvZeroGrad :: pre ++ rounds ++
          [EvClipGradNorm (clip args); EvOptimizerStep; EvSchedulerStep] ++
          dv ++ rep) =
  omap f tr ++ omap f dv ++ omap f rep.
Proof.
  intros Hz Hg Hr Hu Hpre Hrounds.
  rewrite cons_middle, !omap_app.
  rewrite (omap_none f pre) by (eapply Forall_impl; [exact Hpre | done]).
  rewrite (omap_none f rounds) by (eapply Forall_impl; [exact Hrounds | done]).
  rewrite (omap_none f [EvZeroGrad]) by (by repeat constructor).
  rewrite (omap_none f [_; _; _]) by (repeat constructor; by apply Hu).
  done.
Qed.

Lemma report_train_log_steps rv sched ts :
  train_log_steps (report gpu args rv sched ts) =
  if decide (gpu = 0) then [ts] else [].
Proof. unfold report. by repeat destruct (decide _). Qed.

Lemma report_count f rv sched ts :
  (∀ e, ¬ unreported e → f e = false) →
  count_events f (report gpu args rv sched ts) = 0%nat.
Proof.
  intros Hf. unfold report.
  repeat destruct (decide _); cbn; rewrite ?Hf; tauto.
Qed.

End step.

(** X13. A step that returns normally has advanced the step counter and the
    schedule by one, has drawn one graph coin, and asks the loop to stop
    exactly when the new count has reached [args.steps].  A step that
    stops otherwise leaves the counter as it was.  No step takes a batch
    from the training loader. *)
Theorem step_advances_counter `{C : Collab} (env : Env) (gpu : Z) (args : Args)
    (fuel : nat) (item : Item) (w : world) :
  train_fetched (outer_step env gpu args fuel item w).1 = train_fetched w ∧
  match (outer_step env gpu args fuel item w).2 with
  | Ok b =>
      total_steps (outer_step env gpu args fuel item w).1 = total_steps w + 1 ∧
      sched_steps (outer_step env gpu args fuel item w).1 = S (sched_steps w) ∧
      np_pos (outer_step env gpu args fuel item w).1 = S (np_pos w) ∧
      b = bool_decide (steps args ≤ total_steps w + 1)
  | _ => total_steps (outer_step env gpu args fuel item w).1 = total_steps w
  end.
Proof.
  destruct (outer_step env gpu args fuel item w) as [w' [b|e|]] eqn:Hrun;
    cbn [fst snd].
  - destruct (outer_step_completed env gpu args _ _ _ _ _ Hrun)
      as (pre & rounds & dv & rv & _ & _ & _ & _ & _ & _ & H1 & H2 & H3 & H4 & H5).
    done.
  - destruct (outer_step_stopped env gpu args _ _ _ _ _ Hrun) as (d & _ & _ & H1 & H2);
      done.
  - destruct (outer_step_stopped env gpu args _ _ _ _ _ Hrun) as (d & _ & _ & H1 & H2);
      done.
Qed.

(** X14. A step that returns normally has run validation exactly once when
    it was entered with a step count that is a non-zero multiple of 5000,
    and not at all otherwise; in particular the first step of a run never
    validates. *)
Theorem validation_every_5000_steps `{C : Collab} (env : Env) (gpu : Z)
    (args : Args) (fuel : nat) (item : Item) (w w' : world) (b : bool) :
  outer_step env gpu args fuel item w = (w', Ok b) →
  count_events is_model_eval (trace w') =
    (count_events is_model_eval (trace w) +
     if decide (total_steps w ≠ 0 ∧ total_steps w `mod` 5000 = 0)%Z
     then 1 else 0)%nat.
Proof.
  intros Hrun.
  destruct (outer_step_completed env gpu args _ _ _ _ _ Hrun)
    as (pre & rounds & dv & rv & Htr & Hpre & Hrounds & _ & Hcount & _).
  rewrite Htr. rewrite count_events_app. f_equal. cbn [count_events is_model_eval].
  rewrite !count_events_app, Hcount.
  rewrite (count_events_none _ pre)
    by (eapply Forall_impl; [exact Hpre|]; by intros []).
  rewrite (count_events_none _ rounds)
    by (eapply Forall_impl; [exact Hrounds|]; by intros []).
  rewrite report_count by (by intros []). cbn. lia.
Qed.

Lemma validation_every_5000_steps_witness :
  outer_step (C := Demo.collab) Demo.env1 0 Demo.args 5 (Demo.item 0)
    Demo.world_5000 = (Demo.step_5000.1, Ok true) ∧
  count_events is_model_eval (trace Demo.step_5000.1) =
    (count_events is_model_eval (trace Demo.world_5000) +
     if decide (total_steps Demo.world_5000 ≠ 0 ∧
                total_steps Demo.world_5000 `mod` 5000 = 0)%Z
     then 1 else 0)%nat.
Proof.
  assert (H : outer_step (C := Demo.collab) Demo.env1 0 Demo.args 5 (Demo.item 0)
                Demo.world_5000 = (Demo.step_5000.1, Ok true))
    by (vm_compute; reflexivity).
  split; [exact H|].
  exact (validation_every_5000_steps (C := Demo.collab) Demo.env1 0 Demo.args 5
           (Demo.item 0) Demo.world_5000 Demo.step_5000.1 true H).
Defined.

Lemma records_val_events (dv : list event) :
  Forall val_event dv → records dv = ValEntry <$> val_log_steps dv.
Proof.
  induction 1 as [|e dv He _ IH]; [done|].
  unfold records, val_log_steps in *.
  destruct e; csimpl in *; try done; try exact IH.
  all: by rewrite IH.
Qed.

(** X21. What a step that returns normally adds to what is logged and
    saved, in order.  On process 0: when validation was due, one
    validation entry labelled with the old step count; then one training
    entry labelled with the new count, followed by the metrics push; then,
    when the new count is a multiple of 10000, one checkpoint labelled
    with it.  On the other processes: nothing. *)
Theorem step_reports `{C : Collab} (env : Env) (gpu : Z) (args : Args)
    (fuel : nat) (item : Item) (w w' : world) (b : bool) :
  outer_step env gpu args fuel item w = (w', Ok b) →
  records (trace w') =
    records (trace w) ++
    (if decide (gpu = 0 ∧ total_steps w ≠ 0 ∧ total_steps w `mod` 5000 = 0)
     then [ValEntry (total_steps w)] else []) ++
    (if decide (gpu = 0)
     then [TrainEntry (total_steps w + 1); MetricsPush] else []) ++
    (if decide ((total_steps w + 1) `mod` 10000 = 0 ∧ gpu = 0)
     then [Saved (total_steps w + 1)] else []).
Proof.
  intros Hrun.
  destruct (outer_step_completed env gpu args _ _ _ _ _ Hrun)
    as (pre & rounds & dv & rv & Htr & Hpre & Hrounds & Hdv & _ & Hlabels & _).
  rewrite Htr. unfold records.
  rewrite (omap_step_trace args); try (done || by intros []).
  fold (records (trace w)) (records dv)
    (records (report gpu args rv (S (sched_steps w)) (total_steps w + 1))).
  rewrite (records_val_events dv Hdv), Hlabels. f_equal. f_equal.
  - by destruct (decide _).
  - unfold report.
    destruct (decide (gpu = 0)); destruct (decide (_ ∧ gpu = 0)); done.
Qed.

Lemma step_reports_witness :
  outer_step (C := Demo.collab) Demo.env1 0 Demo.args 5 (Demo.item 0)
    Demo.world_5000 = (Demo.step_5000.1, Ok true) ∧
  records (trace Demo.step_5000.1) =
    records (trace Demo.world_5000) ++
    (if decide (0 = 0 ∧ total_steps Demo.world_5000 ≠ 0 ∧
                total_steps Demo.world_5000 `mod` 5000 = 0)
     then [ValEntry (total_steps Demo.world_5000)] else []) ++
    (if decide (0 = 0)
     then [TrainEntry (total_steps Demo.world_5000 + 1); MetricsPush] else []) ++
    (if decide ((total_steps Demo.world_5000 + 1) `mod` 10000 = 0 ∧ 0 = 0)
     then [Saved (total_steps Demo.world_5000 + 1)] else []).
Proof.
  assert (H : outer_step (C := Demo.collab) Demo.env1 0 Demo.args 5 (Demo.item 0)
                Demo.world_5000 = (Demo.step_5000.1, Ok true))
    by (vm_compute; reflexivity).
  split; [exact H|].
  exact (step_reports (C := Demo.collab) Demo.env1 0 Demo.args 5
           (Demo.item 0) Demo.world_5000 Demo.step_5000.1 true H).
Defined.

(** That step logs the validation entry 5000, then the training entry
    5001 and the metrics push. *)
Example step_5000_records :
  records (trace Demo.step_5000.1) = [ValEntry 5000; TrainEntry 5001; MetricsPush].
Proof. by vm_compute. Qed.

End StepFacts.

(** ** Whole runs *)

Module RunFacts.
Import Py FrameGraph Torch Train Observe Ledger Runs
  ValidationFacts StepFacts.

(** *** Induction over a run *)

Section run_induction.
Context `{C : Collab} (env : Env) (gpu : Z) (args : Args).
Context (Inv Fin Any : world → Prop).

(** [Inv] holds between two steps, [Fin] after the step that ends the
    loop, [Any] wherever a run may stop. *)
Hypothesis Inv_Any : ∀ w, Inv w → Any w.
Hypothesis Inv_sampler : ∀ w idx,
  Inv w → Inv (with_trace w (trace w ++ [EvSamplerIter true idx])).
Hypothesis Inv_step : ∀ fuel item w w' res,
  Inv w →
  outer_step env gpu args fuel item (next_batch w) = (w', res) →
  match res with
  | Ok true => Fin w'
  | Ok false => Inv w'
  | _ => Any w'
  end.
Hypothesis Inv_setup : ∀ w e,
  setup_event e → Inv w → Inv (with_trace w (trace w ++ [e])).

Lemma Inv_setup_events (d : list event) : ∀ w,
  Forall setup_event d → Inv w → Inv (with_trace w (trace w ++ d)).
Proof.
  induction d as [|e d IH]; intros w Hd HI.
  - rewrite app_nil_r. by destruct w.
  - apply Forall_cons in Hd as [He Hd].
    specialize (IH _ Hd (Inv_setup _ _ He HI)).
    unfold with_trace in *. cbn in IH. by rewrite <- app_assoc in IH.
Qed.

Lemma train_epoch_run fuel batches : ∀ w w' res,
  Inv w →
  train_epoch env gpu args fuel batches w = (w', res) →
  match res with
  | Ok true => Inv w'
  | Ok false => Fin w'
  | _ => Any w'
  end.
Proof.
  induction batches as [|indices rest IH]; intros w w' res HI; cbn [train_epoch].
  - by intros [= <- <-].
  - rewrite bind_unfold. cbn [fetch_train]. fold (next_batch w).
    rewrite bind_unfold.
    destruct (outer_step env gpu args fuel _ (next_batch w)) as [w1 r1] eqn:Hstep.
    pose proof (Inv_step _ _ _ _ _ HI Hstep) as H1.
    destruct r1 as [[|]|e|].
    + by intros [= <- <-].
    + by apply IH.
    + by intros [= <- <-].
    + by intros [= <- <-].
Qed.

Lemma train_loop_run fuel epochs : ∀ w w' res,
  Inv w →
  train_loop env gpu args fuel epochs w = (w', res) →
  match res with
  | Ok _ => Fin w'
  | _ => Any w'
  end.
Proof.
  induction epochs as [|epochs IH]; intros w w' res HI; cbn [train_loop].
  - intros [= <- <-]. by apply Inv_Any.
  - rewrite bind_unfold. cbn [emit]. rewrite bind_unfold.
    destruct (train_epoch env gpu args fuel _ _) as [w1 r1] eqn:Hepoch.
    pose proof (train_epoch_run _ _ _ _ _ (Inv_sampler _ _ HI) Hepoch) as H1.
    destruct r1 as [[|]|e|].
    + by apply IH.
    + by intros [= <- <-].
    + by intros [= <- <-].
    + by intros [= <- <-].
Qed.

Lemma train_run fuel w' res :
  Inv (joined gpu args) →
  train env gpu args fuel world0 = (w', res) →
  match res with
  | Ok _ =>
      ∃ w1, Fin w1 ∧
        w' = with_trace w1 (trace w1 ++ [EvWandbFinish; EvDestroyProcessGroup])
  | _ => Any w'
  end.
Proof.
  intros HI. unfold train. rewrite bind_unfold. cbn [emit].
  change (with_trace world0 (trace world0 ++ [EvInitProcessGroup (world_size args) gpu]))
    with (joined gpu args).
  rewrite bind_unfold.
  destruct (setup env gpu args (joined gpu args)) as [ws rs] eqn:Hsetup.
  destruct (setup_run _ _ _ _ _ _ Hsetup) as (ds & -> & Hds & Hrs).
  pose proof (Inv_setup_events ds _ Hds HI) as HIs.
  destruct rs as [[]|e|]; [|intros [= <- <-]; by apply Inv_Any|done].
  rewrite bind_unfold.
  destruct (train_loop env gpu args fuel fuel _) as [w1 r1] eqn:Hloop.
  pose proof (train_loop_run _ _ _ _ _ HIs Hloop) as H1.
  destruct r1 as [[]|e|]; [|by intros [= <- <-]|by intros [= <- <-]].
  unfold mbind, M_bind, emit, with_trace. cbn. intros [= <- <-].
  exists w1. split; [done|]. by rewrite <- app_assoc.
Qed.

End run_induction.

(** *** Counting over the trace of a step *)

Lemma count_step_trace `{C : Collab} (args : Args) (gpu : Z) (f : event → bool)
    tr pre rounds dv rv sched ts :
  (∀ e, graph_event e → f e = false) →
  (∀ e, round_event e → f e = false) →
  (∀ e, val_event e → f e = false) →
  (∀ e, ¬ unreported e → f e = false) →
  Forall graph_event pre → Forall round_event rounds → Forall val_event dv →
  count_events f
    (tr ++ EvZeroGrad :: pre ++ rounds ++
     [EvClipGradNorm (clip args); EvOptimizerStep; EvSchedulerStep] ++
     dv ++ report gpu args rv sched ts) =
  (count_events f tr +
   count_events f
     [EvZeroGrad; EvClipGradNorm (clip args); EvOptimizerStep; EvSchedulerStep])%nat.
Proof.
  intros Hg Hr Hv Hrep Hpre Hrounds Hdv.
  rewrite cons_middle, !count_events_app.
  rewrite (count_events_none f pre) by (eapply Forall_impl; [exact Hpre | done]).
  rewrite (count_events_none f rounds) by (eapply Forall_impl; [exact Hrounds | done]).
  rewrite (count_events_none f dv) by (eapply Forall_impl; [exact Hdv | done]).
  rewrite (report_count gpu args) by done.
  cbn. lia.
Qed.

Lemma labels_succ (n : Z) : 0 ≤ n → labels (n + 1) = labels n ++ [n + 1].
Proof.
  intros Hn. unfold labels.
  replace (Z.to_nat (n + 1)) with (S (Z.to_nat n)) by lia.
  rewrite seq_S, fmap_app. cbn. do 2 f_equal. lia.
Qed.

Section runs.
Context `{C : Collab} (env : Env) (gpu : Z) (args : Args).

(** What a step that returns normally adds to the logs. *)
Lemma outer_step_completed_logs fuel item w w' b :
  outer_step env gpu args fuel item w = (w', Ok b) →
  train_log_steps (trace w') =
    train_log_steps (trace w) ++
    (if decide (gpu = 0) then [total_steps w + 1] else []).
Proof.
  intros Hrun.
  destruct (outer_step_completed env gpu args _ _ _ _ _ Hrun)
    as (pre & rounds & dv & rv & Htr & Hpre & Hrounds & Hdv & _).
  rewrite Htr. unfold train_log_steps.
  rewrite (omap_step_trace args); try (done || by intros []).
  fold (train_log_steps (trace w)) (train_log_steps dv)
    (train_log_steps (report gpu args rv (S (sched_steps w)) (total_steps w + 1))).
  rewrite (train_log_steps_unreported dv)
    by (eapply Forall_impl; [exact Hdv|]; by intros []).
  by rewrite (report_train_log_steps gpu args).
Qed.



End runs.

Section silent.
Context `{C : Collab} (env : Env) (gpu : Z) (args : Args).
Hypothesis not_logger : gpu ≠ 0.

Lemma val_batch_batch_events g item acc :
  respects (grows batch_event) (val_batch args g item acc).
Proof.
  unfold val_batch. destruct item as [[[images poses] disps] intrinsics].
  cbv zeta.
  apply respects_bind; [apply _ | | intros Gs].
  { eapply grows_mono; [|apply fix_first_poses_grows]. by intros e []. }
  apply respects_bind; [apply _ | grows_auto | intros out].
  destruct out as [[poses_est disps_est] residuals].
  apply respects_bind; [apply _ | by apply call_geodesic_loss_grows | intros geo].
  apply respects_bind; [apply _ | by apply call_flow_loss_grows | intros flo].
  apply respects_bind; [apply _ | apply add_metric_grows | intros rot].
  apply respects_bind; [apply _ | apply add_metric_grows | intros tr].
  apply respects_bind; [apply _ | apply add_metric_grows | intros f].
  grows_auto.
Qed.

Lemma val_loop_batch_events g batches v acc :
  respects (grows batch_event) (val_loop env args g batches v acc).
Proof.
  revert v acc. induction batches as [|indices rest IH]; intros v acc; simpl.
  - grows_auto.
  - apply respects_bind; [apply _ | grows_auto | intros item].
    destruct (decide (v = 500)); [grows_auto|].
    apply respects_bind; [apply _ | apply val_batch_batch_events | intros acc'].
    apply IH.
Qed.

Lemma validation_quiet g : respects (grows unlogged) (validation env gpu args g).
Proof.
  unfold validation. cbv zeta.
  apply respects_bind; [apply _ | by grows_auto | intros _].
  apply respects_bind; [apply _ | by grows_auto | intros _].
  apply respects_bind; [apply _ | | intros acc].
  { eapply grows_mono; [|apply val_loop_batch_events]. by intros []. }
  apply respects_bind; [apply _ | by grows_auto | intros _].
  apply respects_bind; [apply _ | grows_auto | intros t].
  apply respects_bind; [apply _ | by grows_auto | intros _].
  apply respects_bind; [apply _ | by grows_auto | intros _].
  apply respects_bind; [apply _ | by grows_auto | intros _].
  apply respects_bind; [apply _ | grows_auto | intros vb].
  apply respects_bind; [apply _ | apply float_div_grows | intros rot].
  apply respects_bind; [apply _ | apply float_div_grows | intros tr].
  apply respects_bind; [apply _ | apply float_div_grows | intros f].
  apply respects_bind; [apply _ | grows_auto | intros ts].
  rewrite decide_False by done. by grows_auto.
Qed.

Lemma after_update_quiet g : respects (grows unlogged) (after_update env gpu args g).
Proof.
  unfold after_update. cbv zeta.
  apply respects_bind; [apply _ | grows_auto | intros rv].
  apply respects_bind; [apply _ | grows_auto | intros ts].
  apply respects_bind; [apply _ | | intros _].
  { destruct (decide _); [apply validation_quiet | grows_auto]. }
  apply respects_bind; [apply _ | grows_auto | intros _].
  apply respects_bind; [apply _ | grows_auto | intros ts'].
  rewrite (decide_False (P := gpu = 0)) by done.
  rewrite (decide_False (P := _ ∧ gpu = 0)) by tauto.
  grows_auto.
Qed.

Lemma outer_step_quiet fuel item :
  respects (grows unlogged) (outer_step env gpu args fuel item).
Proof.
  unfold outer_step. destruct item as [[[images poses] disps] intrinsics].
  cbv zeta.
  apply respects_bind; [apply _ | by grows_auto | intros _].
  apply respects_bind; [apply _ | | intros g].
  { eapply grows_mono; [|apply choose_graph_grows]. by intros []. }
  apply respects_bind; [apply _ | | intros Gs].
  { eapply grows_mono; [|apply fix_first_poses_grows]. by intros e []. }
  apply respects_bind; [apply _ | | intros _].
  { eapply grows_mono; [|apply restart_loop_grows]. by intros []. }
  apply respects_bind; [apply _ | | intros _].
  { eapply grows_mono; [|apply optimizer_update_grows]. by intros []. }
  apply after_update_quiet.
Qed.

End silent.

(** X24. A run that finishes has made exactly [args.steps] outer steps (for
    [args.steps ≥ 1]): the step counter stands at [args.steps], and the
    loader handed out, the gradients were cleared, the optimizer stepped
    and the schedule advanced that many times. *)
Theorem finished_run_step_count `{C : Collab} (env : Env) (gpu : Z)
    (args : Args) (fuel : nat) (w' : world) :
  1 ≤ steps args →
  train env gpu args fuel world0 = (w', Ok ()) →
  total_steps w' = steps args ∧
  sched_steps w' = Z.to_nat (steps args) ∧
  train_fetched w' = Z.to_nat (steps args) ∧
  count_events is_zero_grad (trace w') = Z.to_nat (steps args) ∧
  count_events is_optimizer_step (trace w') = Z.to_nat (steps args) ∧
  count_events is_scheduler_step (trace w') = Z.to_nat (steps args).
Proof.
  intros Hsteps Hrun.
  pose (counted := λ w : world,
    total_steps w = Z.of_nat (sched_steps w) ∧
    train_fetched w = sched_steps w ∧
    count_events is_zero_grad (trace w) = sched_steps w ∧
    count_events is_optimizer_step (trace w) = sched_steps w ∧
    count_events is_scheduler_step (trace w) = sched_steps w).
  pose proof (train_run env gpu args
    (λ w, total_steps w < steps args ∧ counted w)
    (λ w, total_steps w = steps args ∧ counted w)
    (λ _, True)) as Hind.
  specialize (Hind ltac:(done)).
  specialize (Hind ltac:(by intros w idx (? & ? & ? & ? & ? & ?);
    unfold counted, with_trace; cbn; rewrite !count_events_app; cbn;
    split_and!; lia)).
  assert (Hstep : ∀ fuel item w w1 res,
    total_steps w < steps args ∧ counted w →
    outer_step env gpu args fuel item (next_batch w) = (w1, res) →
    match res with
    | Ok true => total_steps w1 = steps args ∧ counted w1
    | Ok false => total_steps w1 < steps args ∧ counted w1
    | _ => True
    end).
  { intros fuel0 item w w1 res (Hlt & Hts & Htf & Hzg & Hopt & Hsch) Hstep.
    destruct res as [b|e|]; [|done|done].
    destruct (outer_step_completed env gpu args _ _ _ _ _ Hstep)
      as (pre & rounds & dv & rv & Htr & Hpre & Hrounds & Hdv & _ & _ &
          H1 & H2 & _ & H4 & Hb).
    cbn [next_batch trace total_steps sched_steps train_fetched] in *.
    assert (Hcounted : counted w1).
    { unfold counted. rewrite Htr, H1, H2, H4.
      rewrite !(count_step_trace args gpu); try (done || by intros []).
      cbn. split_and!; lia. }
    subst b. case_bool_decide; split; [lia | done | lia | done]. }
  specialize (Hind Hstep).
  specialize (Hind ltac:(by intros w e He (? & ? & ? & ? & ? & ?);
    unfold counted, with_trace; cbn; rewrite !count_events_app;
    destruct e; try done; cbn; split_and!; lia)).
  specialize (Hind fuel w' (Ok ())).
  destruct Hind as (w1 & (Hfin & Hts & Htf & Hzg & Hopt & Hsch) & ->);
    [|done|].
  { unfold joined, counted, with_trace. cbn. split_and!; lia. }
  unfold with_trace. cbn. rewrite !count_events_app. cbn.
  split_and!; lia.
Qed.

Lemma finished_run_step_count_witness :
  1 ≤ steps Demo.args ∧
  train (C := Demo.collab) Demo.env 0 Demo.args 10 world0 = (Demo.run0.1, Ok ()) ∧
  total_steps Demo.run0.1 = steps Demo.args ∧
  sched_steps Demo.run0.1 = Z.to_nat (steps Demo.args) ∧
  train_fetched Demo.run0.1 = Z.to_nat (steps Demo.args) ∧
  count_events is_zero_grad (trace Demo.run0.1) = Z.to_nat (steps Demo.args) ∧
  count_events is_optimizer_step (trace Demo.run0.1) = Z.to_nat (steps Demo.args) ∧
  count_events is_scheduler_step (trace Demo.run0.1) = Z.to_nat (steps Demo.args).
Proof.
  assert (H1 : 1 ≤ steps Demo.args) by (vm_compute; discriminate).
  assert (H2 : train (C := Demo.collab) Demo.env 0 Demo.args 10 world0 =
               (Demo.run0.1, Ok ())) by (vm_compute; reflexivity).
  split; [exact H1|]. split; [exact H2|].
  exact (finished_run_step_count (C := Demo.collab) Demo.env 0 Demo.args 10
           Demo.run0.1 H1 H2).
Defined.

(** X22. Whatever the outcome of a run, the training entries process 0 has
    logged are labelled 1, 2, ..., [n] in this order, where [n] is the
    value of the step counter: one entry for every step counted, none for
    a step that stopped. *)
Theorem training_entries_numbered `{C : Collab} (env : Env) (args : Args)
    (fuel : nat) :
  train_log_steps (trace (train env 0 args fuel world0).1) =
  labels (total_steps (train env 0 args fuel world0).1).
Proof.
  destruct (train env 0 args fuel world0) as [w' res] eqn:Hrun. cbn [fst].
  pose (numbered := λ w : world,
    0 ≤ total_steps w ∧ train_log_steps (trace w) = labels (total_steps w)).
  pose proof (train_run env 0 args numbered numbered numbered) as Hind.
  specialize (Hind ltac:(done)).
  specialize (Hind ltac:(by intros w idx [? Hl]; unfold numbered, with_trace;
    cbn; unfold train_log_steps in *; rewrite omap_app, Hl, app_nil_r)).
  assert (Hstep : ∀ fuel item w w1 r,
    numbered w →
    outer_step env 0 args fuel item (next_batch w) = (w1, r) →
    match r with
    | Ok true => numbered w1
    | Ok false => numbered w1
    | _ => numbered w1
    end).
  { intros fuel0 item w w1 r [Hts Hl] Hstep.
    assert (Hw1 : numbered w1); [|by destruct r as [[|]| |]].
    destruct r as [b|e|].
    - pose proof (outer_step_completed_logs env 0 args _ _ _ _ _ Hstep) as Hlog.
      destruct (outer_step_completed env 0 args _ _ _ _ _ Hstep)
        as (_ & _ & _ & _ & _ & _ & _ & _ & _ & _ & H1 & _).
      cbn [next_batch trace total_steps] in *.
      split; [lia|]. by rewrite Hlog, H1, Hl, labels_succ.
    - destruct (outer_step_stopped env 0 args _ _ _ _ _ Hstep)
        as (d & Hd & Hun & H1 & _); [done|].
      cbn [next_batch trace total_steps] in *.
      split; [lia|]. unfold train_log_steps in *.
      rewrite Hd, omap_app, Hl, H1. fold (train_log_steps d).
      by rewrite train_log_steps_unreported, app_nil_r.
    - destruct (outer_step_stopped env 0 args _ _ _ _ _ Hstep)
        as (d & Hd & Hun & H1 & _); [done|].
      cbn [next_batch trace total_steps] in *.
      split; [lia|]. unfold train_log_steps in *.
      rewrite Hd, omap_app, Hl, H1. fold (train_log_steps d).
      by rewrite train_log_steps_unreported, app_nil_r. }
  specialize (Hind Hstep).
  specialize (Hind ltac:(by intros w e He [? Hl]; unfold numbered, with_trace;
    cbn; unfold train_log_steps in *; rewrite omap_app, Hl;
    destruct e; try done; rewrite app_nil_r)).
  specialize (Hind fuel w' res ltac:(done) Hrun).
  destruct res as [[]|e|]; [|by destruct Hind|by destruct Hind].
  destruct Hind as (w1 & [_ Hl] & ->). unfold with_trace. cbn.
  unfold train_log_steps in *. by rewrite omap_app, Hl, app_nil_r.
Qed.

(** X23. A process other than process 0 never logs and never saves: in
    every run, whatever its outcome, its trace holds no wandb entry, no
    logger push and no checkpoint. *)
Theorem other_ranks_report_nothing `{C : Collab} (env : Env) (gpu : Z)
    (args : Args) (fuel : nat) :
  gpu ≠ 0 →
  count_events is_report (trace (train env gpu args fuel world0).1) = 0%nat.
Proof.
  intros Hgpu.
  destruct (train env gpu args fuel world0) as [w' res] eqn:Hrun. cbn [fst].
  pose (silent := λ w : world, Forall unlogged (trace w)).
  pose proof (train_run env gpu args silent silent silent) as Hind.
  specialize (Hind ltac:(done)).
  specialize (Hind ltac:(by intros w idx Hw; unfold silent, with_trace; cbn;
    apply Forall_app; split; [done | repeat constructor])).
  assert (Hstep : ∀ fuel item w w1 r,
    silent w →
    outer_step env gpu args fuel item (next_batch w) = (w1, r) →
    match r with
    | Ok true => silent w1
    | Ok false => silent w1
    | _ => silent w1
    end).
  { intros fuel0 item w w1 r Hw Hstep.
    assert (Hw1 : silent w1); [|by destruct r as [[|]| |]].
    destruct (outer_step_quiet env gpu args Hgpu _ _ _ _ _ Hstep) as (d & Hd & Hq).
    unfold silent. rewrite Hd. by apply Forall_app. }
  specialize (Hind Hstep).
  specialize (Hind ltac:(by intros w e He Hw; unfold silent, with_trace; cbn;
    apply Forall_app; split; [done | destruct e; try done; repeat constructor])).
  specialize (Hind fuel w' res ltac:(by repeat constructor) Hrun).
  apply count_events_none.
  destruct res as [[]|e|]; [|done|done].
  destruct Hind as (w1 & Hw1 & ->). unfold with_trace. cbn.
  apply Forall_app. split; [done | by repeat constructor].
Qed.

Lemma other_ranks_report_nothing_witness :
  1 ≠ 0 ∧
  count_events is_report
    (trace (train (C := Demo.collab) Demo.env1 1 Demo.args 10 world0).1) = 0%nat.
Proof.
  assert (H : 1 ≠ 0) by discriminate.
  split; [exact H|].
  exact (other_ranks_report_nothing (C := Demo.collab) Demo.env1 1 Demo.args 10 H).
Defined.



(** Without the positive number of steps the set-up stops the process:
    [OneCycleLR] refuses [--steps 0]. *)
Example zero_steps_refused :
  train (C := Demo.collab) Cases.env_no_train 0 (Main.set_steps 0 Demo.args) 7
    world0 =
    (with_trace world0 [EvInitProcessGroup (world_size Demo.args) 0],
     Raise ValueError).
Proof. by vm_compute. Qed.

(** X4. In every run, whatever its outcome, every pass over the training
    loader receives from the sampler the index order of epoch 0: the
    sampler's epoch is never advanced. *)
Theorem every_epoch_same_order `{C : Collab} (env : Env) (gpu : Z)
    (args : Args) (fuel : nat) :
  Forall (λ idx, idx = ds_iter (train_sampler env gpu args))
    (train_orders (trace (train env gpu args fuel world0).1)).
Proof.
  destruct (train env gpu args fuel world0) as [w' r] eqn:Hrun.
  destruct (Departures.train_same_order env gpu args fuel _ _ _ Hrun)
    as (d & Htr & Hd).
  cbn [fst]. rewrite Htr. unfold world0. cbn [trace app]. clear Htr Hrun.
  induction Hd as [|e d He _ IH]; [constructor|].
  destruct e as [| | |[] idx| | | | | | | | | | | | | | | | | | | | | |]; cbn;
    try exact IH.
  constructor; [exact He | exact IH].
Qed.

Lemma train_log_lrs_unreported d : Forall unreported d → train_log_lrs d = [].
Proof. intros H. apply omap_none. eapply Forall_impl; [exact H|]. by intros []. Qed.

Lemma labels_nonneg_fmap {B} (f : Z → B) (n : Z) :
  0 ≤ n → f <$> labels (n + 1) = (f <$> labels n) ++ [f (n + 1)].
Proof. intros Hn. by rewrite labels_succ, fmap_app. Qed.

(** X26. The training entry labelled [k] carries the learning rate the
    schedule gives after [k] scheduler steps: the schedule is advanced
    before the entry of the step is logged.  This holds in every run of
    process 0, whatever its outcome. *)
Theorem logged_learning_rate `{C : Collab} (env : Env) (args : Args)
    (fuel : nat) :
  train_log_lrs (trace (train env 0 args fuel world0).1) =
  (λ k, (k, scheduler_lr (lr args) (steps args) (Z.to_nat k))) <$>
    labels (total_steps (train env 0 args fuel world0).1).
Proof.
  destruct (train env 0 args fuel world0) as [w' res] eqn:Hrun. cbn [fst].
  pose (entry := λ k, (k, scheduler_lr (lr args) (steps args) (Z.to_nat k))).
  pose (logged := λ w : world,
    0 ≤ total_steps w ∧ train_log_lrs (trace w) = entry <$> labels (total_steps w)).
  pose (between := λ w : world,
    logged w ∧ total_steps w = Z.of_nat (sched_steps w)).
  pose proof (train_run env 0 args between between logged) as Hind.
  specialize (Hind ltac:(by intros w [? ?])).
  specialize (Hind ltac:(by intros w idx [[? Hl] ?]; unfold between, logged, with_trace;
    cbn; unfold train_log_lrs in *; rewrite omap_app, Hl, app_nil_r)).
  assert (Hstep : ∀ fuel item w w1 r,
    between w →
    outer_step env 0 args fuel item (next_batch w) = (w1, r) →
    match r with
    | Ok true => between w1
    | Ok false => between w1
    | _ => logged w1
    end).
  { intros fuel0 item w w1 r [[Hts Hl] Hsched] Hstep.
    destruct r as [b|e|].
    - assert (Hw1 : between w1); [|by destruct b].
      destruct (outer_step_completed env 0 args _ _ _ _ _ Hstep)
        as (pre & rounds & dv & rv & Htr & Hpre & Hrounds & Hdv & _ & _ &
            H1 & H2 & _).
      cbn [next_batch trace total_steps sched_steps] in *.
      split; [split; [lia|]|lia].
      rewrite Htr. unfold train_log_lrs.
      rewrite (omap_step_trace args); try (done || by intros []).
      fold (train_log_lrs (trace w)) (train_log_lrs dv).
      rewrite (train_log_lrs_unreported dv)
        by (eapply Forall_impl; [exact Hdv|]; by intros []).
      rewrite Hl, H1, labels_nonneg_fmap by done.
      unfold report. rewrite decide_True by done. cbn. f_equal.
      destruct (decide _); cbn; unfold entry; do 3 f_equal; lia.
    - destruct (outer_step_stopped env 0 args _ _ _ _ _ Hstep)
        as (d & Hd & Hun & H1 & _); [done|].
      cbn [next_batch trace total_steps] in *.
      split; [lia|]. unfold train_log_lrs in *.
      rewrite Hd, omap_app, Hl, H1. fold (train_log_lrs d).
      by rewrite train_log_lrs_unreported, app_nil_r.
    - destruct (outer_step_stopped env 0 args _ _ _ _ _ Hstep)
        as (d & Hd & Hun & H1 & _); [done|].
      cbn [next_batch trace total_steps] in *.
      split; [lia|]. unfold train_log_lrs in *.
      rewrite Hd, omap_app, Hl, H1. fold (train_log_lrs d).
      by rewrite train_log_lrs_unreported, app_nil_r. }
  specialize (Hind Hstep).
  specialize (Hind ltac:(by intros w e He [[? Hl] ?]; unfold between, logged, with_trace;
    cbn; unfold train_log_lrs in *; rewrite omap_app, Hl;
    destruct e; try done; rewrite app_nil_r)).
  specialize (Hind fuel w' res ltac:(done) Hrun).
  destruct res as [[]|e|]; [|by destruct Hind|by destruct Hind].
  destruct Hind as (w1 & [[_ Hl] _] & ->). unfold with_trace. cbn.
  unfold train_log_lrs in *. by rewrite omap_app, Hl, app_nil_r.
Qed.

End RunFacts.

(** ** The graph and the rounds of a step *)

Module RoundFacts.
Import Py FrameGraph Torch Train Observe Ledger Runs
  ValidationFacts StepFacts RunFacts.

Section rounds.
Context `{C : Collab} (env : Env) (gpu : Z) (args : Args).

Lemma fix_first_poses_short (Ps : T3) (w : world) :
  Exists (λ row : T2, (length row < 2)%nat) Ps →
  fix_first_poses Ps (IdentityLike Ps) w = (w, Raise IndexError).
Proof.
  intros Hshort.
  unfold fix_first_poses, mbind, M_bind, mret, M_ret, from_option, raise.
  destruct (select_dim1 0 Ps) as [p0|]; cbn; [|done].
  destruct (assign_dim1 0 p0 _) as [Gs|]; cbn; [|done].
  destruct (select_dim1 1 Ps) as [p1|] eqn:H1; cbn; [|done].
  exfalso. unfold select_dim1 in H1.
  assert (Hall : is_Some (mapM (λ row : T2, row !! 1%nat) Ps)) by eauto.
  apply mapM_is_Some in Hall.
  apply Exists_exists in Hshort as (row & Hin & Hlen).
  eapply Forall_forall in Hall; [|exact Hin].
  cbn in Hall. apply lookup_lt_is_Some in Hall. lia.
Qed.

Lemma choose_graph_coin poses disps intrinsics w :
  ∃ pre,
    choose_graph env args poses disps intrinsics w =
      (World (trace w ++ pre) (rng_pos w) (S (np_pos w)) (train_fetched w)
             (val_fetched w) (reduced w) (sched_steps w) (total_steps w)
             (round_vars w),
       Ok (chosen_graph env args poses disps intrinsics w)) ∧
    Forall graph_event pre.
Proof.
  unfold choose_graph, chosen_graph, mbind, M_bind, mret, M_ret, np_random, emit,
    with_trace.
  cbn. destruct (Qlt_le_dec _ _); cbn.
  - eexists [_; _]. rewrite <- app_assoc. split; [done | by repeat constructor].
  - eexists [_]. split; [done | by repeat constructor].
Qed.

Lemma refinement_round_on g item Ps Gs disp0 :
  respects (grows (round_on g)) (refinement_round args item Ps g Gs disp0).
Proof.
  unfold refinement_round. destruct item as [[[images poses] disps] intrinsics].
  apply respects_bind; [apply _ | grows_auto | intros r].
  apply respects_bind; [apply _ | grows_auto | intros out].
  destruct out as [[poses_est disps_est] residuals].
  apply respects_bind; [apply _ | by apply call_geodesic_loss_grows | intros geo].
  apply respects_bind; [apply _ | by apply call_residual_loss_grows | intros res].
  apply respects_bind; [apply _ | by apply call_flow_loss_grows | intros flo].
  grows_auto.
Qed.

Lemma restart_loop_on g fuel item Ps r Gs disp0 :
  respects (grows (round_on g)) (restart_loop args fuel item Ps g r Gs disp0).
Proof.
  revert r Gs disp0. induction fuel as [|fuel IH]; intros r Gs disp0; simpl.
  - grows_auto.
  - destruct (Qlt_le_dec r (restart_prob args)); [|grows_auto].
    apply respects_bind; [apply _ | apply refinement_round_on | intros st].
    apply IH.
Qed.

Lemma optimizer_update_keeps_np : respects (keeps np_pos) (optimizer_update args).
Proof.
  intros w w' r Hrun. rewrite optimizer_update_run in Hrun.
  by injection Hrun as <- _.
Qed.

(** The step after the choice of the graph. *)
Lemma outer_step_after_choice fuel images poses disps intrinsics w :
  ∃ pre,
    Forall graph_event pre ∧
    outer_step env gpu args fuel (images, poses, disps, intrinsics) w =
    (Gs ← fix_first_poses (SE3_inv poses) (IdentityLike (SE3_inv poses));
     restart_loop args fuel (images, poses, disps, intrinsics) (SE3_inv poses)
       (chosen_graph env args poses disps intrinsics w) 0 Gs (initial_disp disps);;
     optimizer_update args;;
     after_update env gpu args (chosen_graph env args poses disps intrinsics w))
      (World (trace w ++ EvZeroGrad :: pre) (rng_pos w) (S (np_pos w))
         (train_fetched w) (val_fetched w) (reduced w) (sched_steps w)
         (total_steps w) (round_vars w)).
Proof.
  unfold outer_step. rewrite bind_unfold. cbn [emit].
  set (w0 := with_trace w _).
  destruct (choose_graph_coin poses disps intrinsics w0) as (pre & Hg & Hpre).
  exists pre. split; [done|]. rewrite bind_unfold, Hg.
  subst w0. unfold with_trace, chosen_graph. cbn. by rewrite <- app_assoc.
Qed.

Lemma round_graphs_Forall (P : graph → Prop) (d : list event) :
  Forall (λ e, Forall P (round_graphs [e])) d → Forall P (round_graphs d).
Proof.
  induction 1 as [|e d He _ IH]; [constructor|].
  change (e :: d) with ([e] ++ d). unfold round_graphs in *.
  rewrite omap_app. by apply Forall_app.
Qed.

Lemma train_calls_app (seen d1 d2 : list event) :
  train_calls seen (d1 ++ d2) = train_calls seen d1 ++ train_calls (seen ++ d1) d2.
Proof.
  revert seen. induction d1 as [|e d1 IH]; intros seen; cbn [train_calls app].
  - by rewrite app_nil_r.
  - rewrite IH, <- !app_assoc. done.
Qed.

(** What a round emits, and the estimates it hands on when it returns. *)
Lemma refinement_round_link item Ps g Gs disp0 w w' res :
  refinement_round args item Ps g Gs disp0 w = (w', res) →
  ∃ r geo rs flo,
    trace w' = trace w ++ round_trace args r item g Gs disp0 geo rs flo ∧
    match res with
    | Ok st =>
        next_estimates args item g (trace w ++ [EvRngRandom r], Gs, disp0) =
          Some (st.1.2, st.2)
    | _ => True
    end.
Proof.
  destruct item as [[[images poses] disps] intrinsics].
  intros Hrun. exists (default_rng rng_seed (rng_pos w)). revert Hrun.
  unfold refinement_round, next_estimates, mbind, M_bind, mret, M_ret, rng_random,
    call_model, call_geodesic_loss, call_residual_loss, call_flow_loss,
    set_round_vars, emit, with_trace, from_option, raise, last_item. cbn.
  destruct (DroidNet _ _ _ _ _ _ _ _ _) as [[poses_est disps_est] residuals].
  cbn.
  destruct (last poses_est) as [Gs'|]; cbn;
    [destruct (last disps_est) as [d|]; cbn|];
    intros [= <- <-]; cbn;
    eexists _, _, _; rewrite <- !app_assoc; cbn; (split; [reflexivity | done]).
Qed.

Lemma restart_loop_linked fuel item Ps g : ∀ r Gs disp0 w w' res,
  restart_loop args fuel item Ps g r Gs disp0 w = (w', res) →
  ∃ d, trace w' = trace w ++ d ∧
       linked args item g (Some (Gs, disp0)) (train_calls (trace w) d).
Proof.
  induction fuel as [|fuel IH]; intros r Gs disp0 w w' res; cbn [restart_loop].
  - destruct (Qlt_le_dec _ _); intros [= <- <-]; exists [];
      by rewrite app_nil_r.
  - destruct (Qlt_le_dec _ _);
      [|intros [= <- <-]; exists []; by rewrite app_nil_r].
    rewrite bind_unfold.
    destruct (refinement_round args item Ps g Gs disp0 w) as [w1 r1] eqn:Hround.
    destruct (refinement_round_link _ _ _ _ _ _ _ _ Hround)
      as (r' & geo & rs & flo & Htr & Hnext).
    assert (Hcalls : ∀ d2,
      train_calls (trace w) (round_trace args r' item g Gs disp0 geo rs flo ++ d2) =
      (trace w ++ [EvRngRandom r'], Gs, disp0) :: train_calls (trace w1) d2).
    { intros d2. rewrite train_calls_app, Htr. reflexivity. }
    destruct r1 as [st|e|].
    + intros Hloop. destruct (IH _ _ _ _ _ _ Hloop) as (d2 & Hd2 & Hlinked).
      exists (round_trace args r' item g Gs disp0 geo rs flo ++ d2).
      split; [by rewrite Hd2, Htr, <- app_assoc|].
      rewrite Hcalls. cbn [linked fst snd]. split; [done|]. by rewrite Hnext.
    + intros [= <- <-]. exists (round_trace args r' item g Gs disp0 geo rs flo).
      split; [done|].
      rewrite <- (app_nil_r (round_trace _ _ _ _ _ _ _ _ _)), Hcalls. by cbn.
    + intros [= <- <-]. exists (round_trace args r' item g Gs disp0 geo rs flo).
      split; [done|].
      rewrite <- (app_nil_r (round_trace _ _ _ _ _ _ _ _ _)), Hcalls. by cbn.
Qed.

End rounds.

(** X10. A batch with fewer than two frames stops the step with
    [IndexError] where the initial poses are set: after the clearing of
    the gradients and the choice of the graph, before any call of the
    network and any update; the step counter is not advanced. *)
Theorem short_batch_stops_step `{C : Collab} (env : Env) (gpu : Z) (args : Args)
    (fuel : nat) (images : T5) (poses : T3) (disps : T4) (intrinsics : T3)
    (w : world) :
  Exists (λ row : T2, (length row < 2)%nat) poses →
  ∃ pre,
    outer_step env gpu args fuel (images, poses, disps, intrinsics) w =
      (World (trace w ++ EvZeroGrad :: pre) (rng_pos w) (S (np_pos w))
         (train_fetched w) (val_fetched w) (reduced w) (sched_steps w)
         (total_steps w) (round_vars w),
       Raise IndexError) ∧
    Forall graph_event pre.
Proof.
  intros Hshort.
  destruct (outer_step_after_choice env gpu args fuel images poses disps intrinsics w)
    as (pre & Hpre & ->).
  exists pre. split; [|done].
  rewrite bind_unfold, fix_first_poses_short; [done|].
  unfold SE3_inv. apply Exists_fmap.
  eapply Exists_impl; [exact Hshort|]. intros row Hrow. cbn.
  by rewrite length_fmap.
Qed.

Lemma short_batch_stops_step_witness :
  Exists (λ row : T2, (length row < 2)%nat) [[Demo.pose 0]] ∧
  ∃ pre,
    outer_step (C := Demo.collab) Demo.env 0 Demo.args 5
      (Demo.images, [[Demo.pose 0]], Demo.disps, Demo.intrinsics) world0 =
      (World (trace world0 ++ EvZeroGrad :: pre) (rng_pos world0)
         (S (np_pos world0)) (train_fetched world0) (val_fetched world0)
         (reduced world0) (sched_steps world0) (total_steps world0)
         (round_vars world0),
       Raise IndexError) ∧
    Forall graph_event pre.
Proof.
  assert (H : Exists (λ row : T2, (length row < 2)%nat) [[Demo.pose 0]]).
  { constructor. cbn. lia. }
  split; [exact H|].
  exact (short_batch_stops_step (C := Demo.collab) Demo.env 0 Demo.args 5
           Demo.images [[Demo.pose 0]] Demo.disps Demo.intrinsics world0 H).
Defined.

(** X6. Every step draws exactly one coin from numpy's generator, whatever
    its outcome, and all its rounds work on one graph: the one from
    [build_frame_graph] with [num = args.edges] when the coin is below
    0.5, the window graph otherwise.  That graph is what every
    training-mode call of the network and every geodesic loss of a round
    receives. *)
Theorem one_graph_per_step `{C : Collab} (env : Env) (gpu : Z) (args : Args)
    (fuel : nat) (images : T5) (poses : T3) (disps : T4) (intrinsics : T3)
    (w : world) :
  np_pos (outer_step env gpu args fuel (images, poses, disps, intrinsics) w).1 =
    S (np_pos w) ∧
  ∃ d,
    trace (outer_step env gpu args fuel (images, poses, disps, intrinsics) w).1 =
      trace w ++ d ∧
    Forall (λ g, g = chosen_graph env args poses disps intrinsics w)
      (round_graphs d).
Proof.
  destruct (outer_step_after_choice env gpu args fuel images poses disps intrinsics w)
    as (pre & Hpre & ->).
  set (g := chosen_graph env args poses disps intrinsics w).
  set (w1 := World _ _ _ _ _ _ _ _ _).
  match goal with |- context [?k w1] => set (rest := k) end.
  destruct (rest w1) as [w' res] eqn:Hrun. cbn [fst].
  assert (Hnp : respects (keeps np_pos) rest).
  { subst rest.
    apply respects_bind; [apply _ | | intros Gs].
    { intros ? ? ? H. by apply fix_first_poses_frame in H as ->. }
    apply respects_bind; [apply _ | | intros _].
    { apply restart_loop_keeps. done. }
    apply respects_bind; [apply _ | apply optimizer_update_keeps_np | intros _].
    apply after_update_keeps; done. }
  assert (Hg : respects (grows (λ e, Forall (λ g', g' = g) (round_graphs [e]))) rest).
  { subst rest.
    apply respects_bind; [apply _ | | intros Gs].
    { eapply grows_mono; [|apply fix_first_poses_grows]. by intros e []. }
    apply respects_bind; [apply _ | | intros _].
    { eapply grows_mono; [|apply restart_loop_on].
      intros e He. destruct e; try done; cbn in *;
        repeat case_match; subst; try done; by repeat constructor. }
    apply respects_bind; [apply _ | | intros _].
    { eapply grows_mono; [|apply optimizer_update_grows]. by intros []. }
    eapply grows_mono; [|apply after_update_grows].
    intros e He. destruct e; try done; cbn in *;
      repeat case_match; subst; try done; by repeat constructor. }
  specialize (Hnp _ _ _ Hrun). destruct (Hg _ _ _ Hrun) as (d & Hd & Hall).
  split; [by rewrite Hnp|].
  exists (EvZeroGrad :: pre ++ d). split.
  - rewrite Hd. subst w1. cbn [trace]. by rewrite <- app_assoc.
  - apply round_graphs_Forall. constructor; [constructor|].
    apply Forall_app. split; [|done].
    eapply Forall_impl; [exact Hpre|]. by intros [].
Qed.

(** X12. The rounds of a restart loop are chained: the first call of the
    network receives the loop's initial pose estimates and inverse depth,
    and every later call receives the last pose estimate the previous call
    returned and the last depth estimate it returned, sampled at [3::8].
    This holds for every run of the loop, whatever its outcome. *)
Theorem rounds_continue_from_last_estimates `{C : Collab} (args : Args)
    (fuel : nat) (item : Item) (Ps : T3) (g : graph) (r : Q) (Gs : T3)
    (disp0 : T4) (w : world) :
  ∃ d,
    trace (restart_loop args fuel item Ps g r Gs disp0 w).1 = trace w ++ d ∧
    linked args item g (Some (Gs, disp0)) (train_calls (trace w) d).
Proof.
  destruct (restart_loop args fuel item Ps g r Gs disp0 w) as [w' res] eqn:Hrun.
  cbn [fst]. by eapply restart_loop_linked.
Qed.

(** X3. When the network returns its estimates to the calls of the loop
    (at least one pose estimate and one depth estimate each time) and every
    draw of the restart stream is below the restart probability (as with
    [--restart_prob 1], the draws lying in [[0, 1)]), a restart loop that
    is entered never ends: however long it is run, it is still going,
    having made one round, one backward pass and one draw per iteration.
    An outer step enters the loop with [r = 0]. *)
Theorem restart_loop_never_ends `{C : Collab} (args : Args) (fuel : nat)
    (item : Item) (Ps : T3) (g : graph) (r : Q) (Gs : T3) (disp0 : T4)
    (w : world) :
  model_returns_estimates args item g →
  (r < restart_prob args)%Q →
  (∀ i, (default_rng rng_seed i < restart_prob args)%Q) →
  ∃ w' d,
    restart_loop args fuel item Ps g r Gs disp0 w = (w', Timeout) ∧
    trace w' = trace w ++ d ∧
    count_events is_backward d = fuel ∧
    rng_pos w' = (rng_pos w + fuel)%nat.
Proof.
  intros Hm Hr Hdraws. revert r Gs disp0 w Hr.
  induction fuel as [|fuel IH]; intros r Gs disp0 w Hr.
  - exists w, []. cbn [restart_loop].
    destruct (Qlt_le_dec _ _) as [_|Hge]; [|by apply Qle_not_lt in Hge].
    rewrite app_nil_r. split_and!; [done | done | done | lia].
  - destruct (refinement_round_total args item Ps g Gs disp0 w Hm)
      as (w1 & st & Hround).
    destruct (refinement_round_Ok _ _ _ _ _ _ _ _ _ Hround)
      as (geo & res & flo & Htr & _ & Hst & Hpos & _).
    destruct (IH st.1.1 st.1.2 st.2 w1) as (w' & d & Hrun & Hd & Hb & Hp).
    { rewrite Hst. apply Hdraws. }
    exists w', (round_trace args st.1.1 item g Gs disp0 geo res flo ++ d).
    rewrite restart_loop_enter by done.
    rewrite (bind_Ok _ _ _ _ _ Hround), Hrun.
    rewrite count_events_app, Hb, Hd, Htr, <- app_assoc, Hp, Hpos.
    split_and!; [done | done | by rewrite round_trace_backward | lia].
Qed.

Lemma restart_loop_never_ends_witness :
  model_returns_estimates (H := Cases.per_iteration)
    (Main.set_restart_prob 1 Demo.args) (Demo.item 0) [] ∧
  (0 < restart_prob (Main.set_restart_prob 1 Demo.args))%Q ∧
  ∃ w' d,
    restart_loop (C := Cases.per_iteration) (Main.set_restart_prob 1 Demo.args) 6
      (Demo.item 0) [] [] 0 [] [] world0 = (w', Timeout) ∧
    trace w' = trace world0 ++ d ∧
    count_events is_backward d = 6%nat ∧
    rng_pos w' = (rng_pos world0 + 6)%nat.
Proof.
  assert (Hm : model_returns_estimates (H := Cases.per_iteration)
                 (Main.set_restart_prob 1 Demo.args) (Demo.item 0) []).
  { apply (per_iteration_returns_estimates (C := Cases.per_iteration)).
    - intros tr training Gs images disp0 intrinsics0 g num_steps fixedp.
      cbn. by rewrite !length_replicate.
    - vm_compute. discriminate. }
  assert (Hp : (0 < restart_prob (Main.set_restart_prob 1 Demo.args))%Q)
    by reflexivity.
  assert (Hdraws : ∀ i, (default_rng (Collab := Cases.per_iteration) rng_seed i <
                         restart_prob (Main.set_restart_prob 1 Demo.args))%Q).
  { intros i.
    change (default_rng (Collab := Cases.per_iteration) rng_seed i)
      with (nth (i mod 5)%nat Demo.draws 0%Q).
    assert (Hi : (i mod 5 < 5)%nat) by (apply Nat.mod_upper_bound; lia).
    revert Hi. generalize (i mod 5)%nat.
    intros [|[|[|[|[|n]]]]] Hi; [reflexivity..|lia]. }
  split; [exact Hm|]. split; [exact Hp|].
  exact (restart_loop_never_ends (C := Cases.per_iteration)
           (Main.set_restart_prob 1 Demo.args) 6 (Demo.item 0) [] [] 0 [] []
           world0 Hm Hp Hdraws).
Defined.

(** With a network that returns no estimate the loop stops in its first
    round, after the backward pass, where it reads the last estimate. *)
Example no_estimate_stops_loop :
  restart_loop (C := Cases.no_estimate) (Main.set_restart_prob 1 Demo.args) 6
    (Demo.item 0) [] [] 0 [] [] world0 =
  (World
     (round_trace (Main.set_restart_prob 1 Demo.args) (1 # 10) (Demo.item 0) []
        [] [] (0, {[ "rot_error" := 0; "tr_error" := 1 ]})%Q
        (0, {[ "residual" := 0 ]})%Q (0, {[ "f_error" := 0 ]})%Q)
     1 0 0 0 0 0 0
     (Some (round_vars_of (Main.set_restart_prob 1 Demo.args)
              (0, {[ "rot_error" := 0; "tr_error" := 1 ]})%Q
              (0, {[ "residual" := 0 ]})%Q (0, {[ "f_error" := 0 ]})%Q)),
   Raise IndexError).
Proof. by vm_compute. Qed.

End RoundFacts.

(** ** The processes started, checkpoints, images *)

Module SpawnFacts.
Import Py FrameGraph Torch Train Main Observe Runs PyFacts.

Lemma train_starts `{C : Collab} (env : Env) (gpu : Z) (args : Args) (fuel : nat) :
  ∃ rest,
    trace (train env gpu args fuel world0).1 =
    EvInitProcessGroup (world_size args) gpu :: rest.
Proof.
  unfold train.
  edestruct (bind_trace_prefix (emit (EvInitProcessGroup (world_size args) gpu))
               (λ _, setup env gpu args;;
                     train_loop env gpu args fuel fuel;;
                     emit EvWandbFinish;; emit EvDestroyProcessGroup)
               [EvInitProcessGroup (world_size args) gpu] world0) as [rest Hrest].
  - exists []. done.
  - intros _.
    apply respects_bind; [apply _ | eapply grows_any, setup_grows | intros _].
    apply respects_bind; [apply _ | | intros _].
    + eapply grows_any, Departures.train_loop_same_order.
    + grows_auto.
  - exists rest. exact Hrest.
Qed.

Lemma fst_pair_fmap {A B} (b : B) (l : list A) :
  fst <$> ((λ i, (i, b)) <$> l) = l.
Proof. induction l as [|x l IH]; [done|]. csimpl. by rewrite IH. Qed.

Lemma snd_pair_fmap {A B} (b : B) (l : list A) :
  snd <$> ((λ i, (i, b)) <$> l) = replicate (length l) b.
Proof. induction l as [|x l IH]; [done|]. csimpl. by rewrite IH. Qed.

(** X25. When the command line parses, the main block starts one process
    per GPU asked for: ranks [0, 1, ..., n-1] in this order, every one with
    the same arguments, which are the parsed ones with [world_size] set to
    [gpus]; for a process started that is the number [n] of processes.
    Every process started begins by joining the group of size [n] under
    its own rank.  Nothing is started when [--gpus] is not positive. *)
Theorem spawned_processes_form_the_group (l : argv) (procs : list (Z * Args)) :
  main l = Spawned procs →
  ∃ parsed,
    parse_args l = Some parsed ∧
    length procs = Z.to_nat (gpus parsed) ∧
    fst <$> procs = range (Z.of_nat (length procs)) ∧
    snd <$> procs = replicate (length procs) (set_world_size (gpus parsed) parsed) ∧
    ∀ i a, (i, a) ∈ procs →
      a = set_world_size (gpus parsed) parsed ∧
      0 ≤ i < Z.of_nat (length procs) ∧
      world_size a = Z.of_nat (length procs) ∧
      ∀ (C : Collab) env fuel, ∃ rest,
        trace (train env i a fuel world0).1 =
        EvInitProcessGroup (Z.of_nat (length procs)) i :: rest.
Proof.
  unfold main. destruct (parse_args l) as [a0|] eqn:Hparse; [|done].
  intros [= <-]. cbv zeta.
  change (gpus (set_world_size (gpus a0) a0)) with (gpus a0).
  assert (Hlen : length ((λ i, (i, set_world_size (gpus a0) a0)) <$> range (gpus a0))
                 = Z.to_nat (gpus a0)).
  { unfold range. by rewrite !length_fmap, length_seq. }
  exists a0. rewrite Hlen. split_and!.
  - done.
  - done.
  - rewrite fst_pair_fmap. unfold range. by rewrite Nat2Z.id.
  - rewrite snd_pair_fmap. unfold range. by rewrite length_fmap, length_seq.
  - intros i a Hin. apply list_elem_of_fmap in Hin as (j & [= -> ->] & Hj).
    apply elem_of_range in Hj.
    replace (Z.of_nat (Z.to_nat (gpus a0))) with (gpus a0) by lia.
    split_and!; [done | lia | lia | done |].
    intros C env fuel. apply train_starts.
Qed.

Lemma spawned_processes_form_the_group_witness :
  main Demo.zero_restart =
    Spawned ((λ i, (i, Demo.zero_restart_args)) <$> [0; 1; 2; 3]) ∧
  ∃ parsed,
    parse_args Demo.zero_restart = Some parsed ∧
    length ((λ i, (i, Demo.zero_restart_args)) <$> [0; 1; 2; 3]) =
      Z.to_nat (gpus parsed) ∧
    fst <$> ((λ i, (i, Demo.zero_restart_args)) <$> [0; 1; 2; 3]) =
      range (Z.of_nat (length ((λ i, (i, Demo.zero_restart_args)) <$> [0; 1; 2; 3]))) ∧
    snd <$> ((λ i, (i, Demo.zero_restart_args)) <$> [0; 1; 2; 3]) =
      replicate (length ((λ i, (i, Demo.zero_restart_args)) <$> [0; 1; 2; 3]))
        (set_world_size (gpus parsed) parsed) ∧
    ∀ i a, (i, a) ∈ (λ i, (i, Demo.zero_restart_args)) <$> [0; 1; 2; 3] →
      a = set_world_size (gpus parsed) parsed ∧
      0 ≤ i < Z.of_nat (length ((λ i, (i, Demo.zero_restart_args)) <$> [0; 1; 2; 3])) ∧
      world_size a =
        Z.of_nat (length ((λ i, (i, Demo.zero_restart_args)) <$> [0; 1; 2; 3])) ∧
      ∀ (C : Collab) env fuel, ∃ rest,
        trace (train env i a fuel world0).1 =
        EvInitProcessGroup
          (Z.of_nat (length ((λ i, (i, Demo.zero_restart_args)) <$> [0; 1; 2; 3]))) i
          :: rest.
Proof.
  assert (H : main Demo.zero_restart =
              Spawned ((λ i, (i, Demo.zero_restart_args)) <$> [0; 1; 2; 3]))
    by reflexivity.
  split; [exact H|].
  exact (spawned_processes_form_the_group Demo.zero_restart _ H).
Defined.

End SpawnFacts.

Module CheckpointFacts.
Import Checkpoint.

Lemma truncate_Loaded key sd sd' :
  truncate key sd = Loaded sd' ↔
  ∃ rows, sd !! key = Some (Stack rows) ∧ sd' = <[key := Stack (take 2 rows)]> sd.
Proof.
  unfold truncate. destruct (sd !! key) as [[x|rows]|]; cbn; split.
  - done.
  - by intros (rows & [=] & _).
  - intros [= <-]. eauto.
  - by intros (rows' & [= <-] & ->).
  - done.
  - by intros (rows & [=] & _).
Qed.

Lemma truncate_KeyError key sd k :
  truncate key sd = KeyError k ↔ k = key ∧ sd !! key = None.
Proof.
  unfold truncate. destruct (sd !! key) as [[x|rows]|]; cbn; split.
  - done.
  - by intros [_ ?].
  - done.
  - by intros [_ ?].
  - by intros [= <-].
  - by intros [-> _].
Qed.

Lemma truncate_IndexError key sd k :
  truncate key sd = IndexError k ↔ k = key ∧ ∃ x, sd !! key = Some (Scalar x).
Proof.
  unfold truncate. destruct (sd !! key) as [[x|rows]|]; cbn; split.
  - intros [= <-]. eauto.
  - by intros [-> _].
  - done.
  - by intros [_ [? ?]].
  - done.
  - by intros [_ [? ?]].
Qed.

(** Membership in [head_keys]. *)
Ltac head_key := unfold head_keys; rewrite !elem_of_cons; auto 10.

Lemma take_2_take_2 {A} (l : list A) : take 2 (take 2 l) = take 2 l.
Proof. by rewrite take_take. Qed.

(** X2. Outcome of preparing a checkpoint for the network (lines 72-75).
    When it goes through, each of the four head entries holds the first
    two slices of what it held, every other entry is untouched, and
    preparing the result once more changes nothing.  Otherwise the error
    names a head entry: one that is missing ([KeyError]), or one that is a
    0-dim tensor ([IndexError]). *)
Theorem reshape_heads_outcome (sd : state_dict) :
  match reshape_heads sd with
  | Loaded sd' =>
      (∀ key, key ∈ head_keys →
         ∃ rows, sd !! key = Some (Stack rows) ∧
                 sd' !! key = Some (Stack (take 2 rows))) ∧
      (∀ key, key ∉ head_keys → sd' !! key = sd !! key) ∧
      reshape_heads sd' = Loaded sd'
  | KeyError key => key ∈ head_keys ∧ sd !! key = None
  | IndexError key => key ∈ head_keys ∧ ∃ x, sd !! key = Some (Scalar x)
  end.
Proof.
  assert (Hagain : ∀ sd' : state_dict,
    (∀ key, key ∈ head_keys →
       ∃ rows, sd !! key = Some (Stack rows) ∧
               sd' !! key = Some (Stack (take 2 rows))) →
    reshape_heads sd' = Loaded sd').
  { intros sd' Hheads.
    assert (Hstep : ∀ key m, key ∈ head_keys →
              (∀ k, k ∈ head_keys → m !! k = sd' !! k) →
              ∃ rows, truncate key m = Loaded (<[key := Stack (take 2 (take 2 rows))]> m) ∧
                      sd' !! key = Some (Stack (take 2 rows))).
    { intros key m Hkey Hm. destruct (Hheads key Hkey) as (rows & _ & Hrows).
      exists rows. split; [|done].
      unfold truncate. by rewrite (Hm key Hkey), Hrows. }
    assert (Hsame : ∀ key rows (m : state_dict),
              m !! key = Some (Stack (take 2 rows)) →
              <[key := Stack (take 2 (take 2 rows))]> m = m).
    { intros key rows m Hm. rewrite take_2_take_2. by apply insert_id. }
    unfold reshape_heads.
    destruct (Hstep "module.update.weight.2.weight" sd') as (r1 & -> & E1);
      [head_key | done |].
    cbn. rewrite (Hsame _ _ _ E1).
    destruct (Hstep "module.update.weight.2.bias" sd') as (r2 & -> & E2);
      [head_key | done |].
    cbn. rewrite (Hsame _ _ _ E2).
    destruct (Hstep "module.update.delta.2.weight" sd') as (r3 & -> & E3);
      [head_key | done |].
    cbn. rewrite (Hsame _ _ _ E3).
    destruct (Hstep "module.update.delta.2.bias" sd') as (r4 & -> & E4);
      [head_key | done |].
    by rewrite (Hsame _ _ _ E4). }
  unfold reshape_heads, head_keys.
  destruct (truncate "module.update.weight.2.weight" sd) as [sd1|k|k] eqn:H1; cbn.
  2:{ apply truncate_KeyError in H1 as [-> H1]. split; [head_key | done]. }
  2:{ apply truncate_IndexError in H1 as [-> H1]. split; [head_key | done]. }
  apply truncate_Loaded in H1 as (r1 & H1 & ->).
  destruct (truncate "module.update.weight.2.bias" _) as [sd2|k|k] eqn:H2; cbn.
  2:{ apply truncate_KeyError in H2 as [-> H2].
      rewrite lookup_insert_ne in H2 by done. split; [head_key | done]. }
  2:{ apply truncate_IndexError in H2 as [-> H2].
      rewrite lookup_insert_ne in H2 by done. split; [head_key | done]. }
  apply truncate_Loaded in H2 as (r2 & H2 & ->).
  rewrite lookup_insert_ne in H2 by done.
  destruct (truncate "module.update.delta.2.weight" _) as [sd3|k|k] eqn:H3; cbn.
  2:{ apply truncate_KeyError in H3 as [-> H3].
      rewrite !lookup_insert_ne in H3 by done. split; [head_key | done]. }
  2:{ apply truncate_IndexError in H3 as [-> H3].
      rewrite !lookup_insert_ne in H3 by done. split; [head_key | done]. }
  apply truncate_Loaded in H3 as (r3 & H3 & ->).
  rewrite !lookup_insert_ne in H3 by done.
  destruct (truncate "module.update.delta.2.bias" _) as [sd4|k|k] eqn:H4; cbn.
  2:{ apply truncate_KeyError in H4 as [-> H4].
      rewrite !lookup_insert_ne in H4 by done. split; [head_key | done]. }
  2:{ apply truncate_IndexError in H4 as [-> H4].
      rewrite !lookup_insert_ne in H4 by done. split; [head_key | done]. }
  apply truncate_Loaded in H4 as (r4 & H4 & ->).
  rewrite !lookup_insert_ne in H4 by done.
  match goal with |- _ ∧ _ ∧ ?G => cut (
    (∀ key, key ∈ [ "module.update.weight.2.weight"; "module.update.weight.2.bias";
                    "module.update.delta.2.weight"; "module.update.delta.2.bias" ] →
       ∃ rows, sd !! key = Some (Stack rows) ∧
         <["module.update.delta.2.bias" := Stack (take 2 r4)]>
           (<["module.update.delta.2.weight" := Stack (take 2 r3)]>
              (<["module.update.weight.2.bias" := Stack (take 2 r2)]>
                 (<["module.update.weight.2.weight" := Stack (take 2 r1)]> sd)))
           !! key = Some (Stack (take 2 rows)))) end.
  { intros Hheads. split; [exact Hheads|]. split; [|by apply Hagain].
    intros key Hkey.
    rewrite !not_elem_of_cons in Hkey. destruct Hkey as (?&?&?&?&_).
    by rewrite !lookup_insert_ne by done. }
  - intros key Hkey.
    rewrite !elem_of_cons, elem_of_nil in Hkey.
    destruct Hkey as [->|[->|[->|[->|[]]]]]; eexists; (split; [eassumption|]).
    + by rewrite !lookup_insert_ne, lookup_insert_eq by done.
    + by rewrite !lookup_insert_ne, lookup_insert_eq by done.
    + by rewrite !lookup_insert_ne, lookup_insert_eq by done.
    + by rewrite lookup_insert_eq.
Qed.

Example reshape_heads_demo :
  ∃ sd', reshape_heads demo_state_dict = Loaded sd' ∧
         sd' !! "module.update.delta.2.bias" = Some (Stack [Scalar 1; Scalar 2]) ∧
         sd' !! "module.fnet.conv1.weight" = Some (Stack demo_rows).
Proof. eexists. split; [by vm_compute|]. split; by vm_compute. Qed.

End CheckpointFacts.

Module DisplayFacts.
Import Torch Display TorchFacts.

Lemma omap_total_lookup {A B} (f : A → option B) (l : list A) (c : nat) :
  Forall (λ x, is_Some (f x)) l →
  omap f l !! c = l !! c ≫= f ∧ length (omap f l) = length l.
Proof.
  intros Hall. revert c. induction Hall as [|x l [y Hy] _ IH]; intros c.
  - done.
  - cbn. rewrite Hy. cbn. destruct c as [|c]; cbn.
    + split; [done | by rewrite (proj2 (IH 0%nat))].
    + split; [apply IH | by rewrite (proj2 (IH 0%nat))].
Qed.

Section permute.
Context (image : T3) (Cn H W : nat).
Hypothesis shape : has_shape3 image Cn H W.
Hypothesis channels : (0 < Cn)%nat.

Lemma channel_entry (ch : T2) (h w : nat) :
  ch ∈ image → (h < H)%nat → (w < W)%nat →
  is_Some (row ← ch !! h; row !! w).
Proof.
  intros Hch Hh Hw. pose proof shape as [_ Hall].
  eapply Forall_forall in Hall as [Hlen Hrows]; [|exact Hch].
  destruct (lookup_lt_is_Some_2 ch h) as [row Hrow]; [lia|].
  rewrite Hrow. cbn. apply lookup_lt_is_Some.
  eapply Forall_lookup_1 in Hrows; [|exact Hrow]. cbn in Hrows. lia.
Qed.

Lemma head_sizes :
  length (default [] (head image)) = H ∧
  length (default [] (head (default [] (head image)))) = W ∨
  length (default [] (head image)) = H ∧ H = 0%nat.
Proof.
  pose proof shape as [Hlen Hall]. destruct image as [|ch rest]; [cbn in *; lia|].
  apply Forall_cons in Hall as [[Hch Hrows] _]. cbn.
  destruct ch as [|row rows]; [right; cbn in *; lia|].
  left. apply Forall_cons in Hrows as [Hrow _]. done.
Qed.

Lemma permute_lookup (h w c : nat) :
  at3 (permute_1_2_0 image) h w c = at3 image c h w.
Proof.
  unfold at3, permute_1_2_0. cbv zeta.
  pose proof shape as [Hlen Hall].
  assert (Hout : (H ≤ h ∨ W ≤ w)%nat →
            (ch ← image !! c; row ← ch !! h; row !! w) = None).
  { intros Hhw. destruct (image !! c) as [ch|] eqn:Hch; [|done]. cbn.
    eapply Forall_lookup_1 in Hall as [Hl Hrows]; [|exact Hch].
    destruct (ch !! h) as [row|] eqn:Hrow; [|done]. cbn.
    apply lookup_ge_None.
    eapply Forall_lookup_1 in Hrows; [|exact Hrow]. cbn in Hrows.
    apply lookup_lt_Some in Hrow. lia. }
  destruct head_sizes as [[-> ->]|[-> ->]].
  - rewrite list_lookup_fmap.
    destruct (decide (h < H)%nat) as [Hh|Hh].
    2:{ rewrite (proj2 (lookup_ge_None _ _)) by (rewrite length_seq; lia).
        cbn. symmetry. apply Hout. lia. }
    rewrite lookup_seq_lt by done. cbn. rewrite list_lookup_fmap.
    destruct (decide (w < W)%nat) as [Hw|Hw].
    2:{ rewrite (proj2 (lookup_ge_None _ _)) by (rewrite length_seq; lia).
        cbn. symmetry. apply Hout. lia. }
    rewrite lookup_seq_lt by done. cbn.
    apply omap_total_lookup. apply Forall_forall. intros ch Hch.
    by apply channel_entry.
  - cbn. symmetry. apply Hout. lia.
Qed.

Lemma permute_shape : has_shape3 (permute_1_2_0 image) H W Cn.
Proof.
  unfold permute_1_2_0. cbv zeta.
  destruct head_sizes as [[-> ->]|[-> ->]]; [|by split].
  split; [by rewrite length_fmap, length_seq|].
  apply Forall_fmap, Forall_forall. intros h Hh. apply elem_of_seq in Hh.
  cbn. split; [by rewrite length_fmap, length_seq|].
  apply Forall_fmap, Forall_forall. intros w Hw. apply elem_of_seq in Hw.
  cbn. rewrite <- (proj1 shape).
  apply (omap_total_lookup _ _ 0%nat). apply Forall_forall. intros ch Hch.
  apply channel_entry; [done | lia | lia].
Qed.

End permute.

Lemma div_scalar_shape (t : T3) (c : Q) (A B C : nat) :
  has_shape3 t A B C → has_shape3 (div_scalar t c) A B C.
Proof.
  intros [HA Hall]. unfold div_scalar, has_shape3.
  rewrite length_fmap. split; [done|].
  apply Forall_fmap. eapply Forall_impl; [exact Hall|]. intros m [HB Hrows]. cbn.
  rewrite length_fmap. split; [done|].
  apply Forall_fmap. eapply Forall_impl; [exact Hrows|]. intros row HC. cbn.
  by rewrite length_fmap.
Qed.

(** X1. [show_image] hands one matrix to [cv2.imshow], under the window
    name ["image"], and then waits for a key.  For an image of [C ≥ 1]
    channels of [H x W] pixels the matrix has shape [H x W x C], and its
    entry [(h, w, c)] is pixel [(h, w)] of channel [c] divided by 255; so
    pixel values in [[0, 255]] are shown as values in [[0, 1]]. *)
Theorem show_image_matrix (image : T3) (Cn H W : nat) :
  has_shape3 image Cn H W → (0 < Cn)%nat →
  ∃ mat,
    show_image image = [Imshow "image" mat; WaitKey] ∧
    has_shape3 mat H W Cn ∧
    (∀ h w c, at3 mat h w c = (λ x, (x / 255)%Q) <$> at3 image c h w) ∧
    ((∀ c h w x, at3 image c h w = Some x → (0 <= x <= 255)%Q) →
     ∀ h w c y, at3 mat h w c = Some y → (0 <= y <= 1)%Q).
Proof.
  intros Hshape HC. eexists. split; [reflexivity|].
  assert (Hat : ∀ h w c,
    at3 (div_scalar (permute_1_2_0 image) 255) h w c =
    (λ x, (x / 255)%Q) <$> at3 image c h w).
  { intros h w c. rewrite Runs.at3_div_scalar.
    by rewrite (permute_lookup image Cn H W). }
  split_and!.
  - apply div_scalar_shape. by apply permute_shape.
  - done.
  - intros Hrange h w c y. rewrite Hat.
    destruct (at3 image c h w) as [x|] eqn:Hx; [|done].
    intros [= <-]. destruct (Hrange _ _ _ _ Hx) as [H0 H255].
    split.
    + apply Qle_shift_div_l; [done|]. by rewrite Qmult_0_l.
    + apply Qle_shift_div_r; [done|]. by rewrite Qmult_1_l.
Qed.

Lemma show_image_matrix_witness :
  has_shape3 demo_image 2 2 3 ∧ (0 < 2)%nat ∧
  ∃ mat,
    show_image demo_image = [Imshow "image" mat; WaitKey] ∧
    has_shape3 mat 2 3 2 ∧
    (∀ h w c, at3 mat h w c = (λ x, (x / 255)%Q) <$> at3 demo_image c h w) ∧
    ((∀ c h w x, at3 demo_image c h w = Some x → (0 <= x <= 255)%Q) →
     ∀ h w c y, at3 mat h w c = Some y → (0 <= y <= 1)%Q).
Proof.
  assert (H1 : has_shape3 demo_image 2 2 3).
  { split; [reflexivity|]. repeat constructor. }
  assert (H2 : (0 < 2)%nat) by lia.
  split; [exact H1|]. split; [exact H2|].
  exact (show_image_matrix demo_image 2 2 3 H1 H2).
Defined.

Example show_image_demo :
  show_image demo_image =
  [Imshow "image"
     [[[0 / 255; 255 / 255]; [51 / 255; 204 / 255]; [102 / 255; 153 / 255]];
      [[153 / 255; 102 / 255]; [204 / 255; 51 / 255]; [255 / 255; 0 / 255]]]%Q;
   WaitKey].
Proof. reflexivity. Qed.

End DisplayFacts.
